(** * SimpleVector: a shallow embedding of simple-vector/simple_vector.h

    The container is a class template over an element type [Type]; it owns
    one raw block through [ArrayPtr<Type>] and keeps two [size_t] counters.
    The embedding keeps that shape:

    - [size_t] values are integers in [Z]; every arithmetic result that the
      code stores in a [size_t] goes through [to_size_t] (reduction modulo
      2^64), so [0 - 1] is [SIZE_MAX] exactly as in the code;
    - raw storage lives in a heap of blocks; a [Type*] is a block address
      with an offset, so two containers can be told apart (or found to
      alias) by the blocks they point at;
    - a slot of a block is [Some x] once an element has been constructed in
      it and [None] while it is uninitialised;
    - member functions are computations in a state-and-outcome monad over
      the heap: a call returns normally, stops at a failed [assert], throws,
      or has undefined behaviour (an access outside a live block, an
      iterator range that is not a range);
    - a member function takes [this] as a value and returns the new
      [this]; the objects of a program sit in a table, and the functions
      that compare addresses ([this != &rhs]) work on indices of that
      table;
    - an allocation always succeeds and never reuses an address; moving an
      element copies its slot.

    The file has four parts: the definitions (memory, <algorithm>,
    ArrayPtr, SimpleVector and its comparison operators, programs,
    specification vocabulary), the lemmas about them, the theorems C1 to
    C10 with their instances on concrete containers, and further
    properties of the member functions (X1 to X30: constructors, element
    access, [Resize], positions, comparison, assignment and ownership,
    growth, arguments by reference) with their instances. *)

From Stdlib Require Import ZArith String Lia.
From stdpp Require Import base tactics option list.

Open Scope Z_scope.

(** ** Machine integers *)

Definition SIZE_MAX : Z := 2 ^ 64 - 1.

Definition to_size_t (z : Z) : Z := z mod 2 ^ 64.

(** ** Outcomes of a call *)

Inductive exception : Type :=
| out_of_range (what : string).

Inductive outcome (A : Type) : Type :=
| Ok (a : A)
| AssertionFailed
| Thrown (e : exception)
| Undefined.

Arguments Ok {A} a.
Arguments AssertionFailed {A}.
Arguments Thrown {A} e.
Arguments Undefined {A}.

(** ** Raw storage *)

(** A slot holds [Some x] once an element has been constructed in it. *)
Abbreviation slot T := (option T).

Abbreviation block T := (list (slot T)).

(** Address [l] holds [Some b] while block [b] is live and [None] once it
    has been released; addresses are never reused. *)
Abbreviation heap T := (list (option (block T))).

Section Memory.

Context {T : Type}.

Record ptr : Type := Ptr { base : option nat; off : Z }.

Definition nullptr : ptr := Ptr None 0.

Definition ptr_add (p : ptr) (k : Z) : ptr := Ptr (base p) (off p + k).

Definition block_at (h : heap T) (l : nat) : option (block T) :=
  match h !! l with
  | Some (Some b) => Some b
  | _ => None
  end.

(** The storage a pointer may designate: the empty range for [nullptr],
    the block at its base address otherwise. *)
Definition storage (h : heap T) (p : ptr) : option (block T) :=
  match base p with
  | None => Some []
  | Some l => block_at h l
  end.

(** A pointer into an array, or one past its end. *)
Definition valid_ptr (h : heap T) (p : ptr) : bool :=
  match storage h p with
  | Some b => (0 <=? off p) && (off p <=? Z.of_nat (length b))
  | None => false
  end.

(** ** The monad of calls *)

Definition M (A : Type) : Type := heap T -> outcome (A * heap T).

Definition ret {A} (a : A) : M A := fun h => Ok (a, h).

Definition bind {A B} (m : M A) (k : A -> M B) : M B :=
  fun h =>
    match m h with
    | Ok (a, h') => k a h'
    | AssertionFailed => AssertionFailed
    | Thrown e => Thrown e
    | Undefined => Undefined
    end.

Definition undefined {A} : M A := fun _ => Undefined.

Definition throw {A} (e : exception) : M A := fun _ => Thrown e.

End Memory.

Arguments M : clear implicits.

Notation "x <- m ; k" := (bind m (fun x => k))
  (at level 20, m at level 100, k at level 200, only parsing).
Notation "m ;; k" := (bind m (fun _ => k))
  (at level 100, k at level 200, right associativity, only parsing).
Notation "p +p k" := (ptr_add p k) (at level 50, left associativity).

Section Primitives.

Context {T : Type}.

#[local] Abbreviation M := (M T).

(** [assert(c)] of <cassert>: nothing when NDEBUG is defined, otherwise the
    program stops when [c] is false. *)
Definition assert (NDEBUG : bool) (c : bool) : M unit :=
  if NDEBUG then ret tt
  else if c then ret tt else fun _ => AssertionFailed.

(** Reading the slot that [p] points at. *)
Definition load (p : ptr) : M (slot T) :=
  fun h =>
    match base p with
    | Some l =>
        match block_at h l with
        | Some b =>
            if 0 <=? off p then
              match b !! Z.to_nat (off p) with
              | Some s => Ok (s, h)
              | None => Undefined
              end
            else Undefined
        | None => Undefined
        end
    | None => Undefined
    end.

(** The value of [*p]: the slot must hold an element. *)
Definition read (p : ptr) : M T :=
  s <- load p;
  match s with
  | Some x => ret x
  | None => undefined
  end.

(** Writing the slot that [p] points at: an assignment through [p], or a
    placement [new (p) Type(x)] when [s = Some x]. *)
Definition store (p : ptr) (s : slot T) : M unit :=
  fun h =>
    match base p with
    | Some l =>
        match block_at h l with
        | Some b =>
            if (0 <=? off p) && (off p <? Z.of_nat (length b)) then
              Ok (tt, <[l := Some (<[Z.to_nat (off p) := s]> b)]> h)
            else Undefined
        | None => Undefined
        end
    | None => Undefined
    end.

Definition construct_at (p : ptr) (x : T) : M unit := store p (Some x).

(** [last - first] for two pointers into the same array. *)
Definition ptr_diff (last first : ptr) : M Z :=
  fun h =>
    if bool_decide (base last = base first)
       && valid_ptr h last && valid_ptr h first
    then Ok (off last - off first, h)
    else Undefined.

(** The length of an iterator range [first, last). *)
Definition distance (first last : ptr) : M nat :=
  d <- ptr_diff last first;
  if 0 <=? d then ret (Z.to_nat d) else undefined.

(** ** <algorithm> *)

(** The loop of [std::move(first, last, d_first)]: front to back, one
    element at a time, [d_first[k] = std::move(first[k])]. *)
Fixpoint move_loop (n : nat) (first d_first : ptr) : M unit :=
  match n with
  | O => ret tt
  | S n' =>
      x <- load first;
      store d_first x;;
      move_loop n' (first +p 1) (d_first +p 1)
  end.

Definition std_move (first last d_first : ptr) : M ptr :=
  n <- distance first last;
  move_loop n first d_first;;
  ret (d_first +p Z.of_nat n).

(** Copying an element and moving one leave the same value in the
    destination slot. *)
Definition std_copy (first last d_first : ptr) : M ptr :=
  std_move first last d_first.

(** The loop of [std::move_backward(first, last, d_last)]: back to front,
    [d_last[-k] = std::move(last[-k])] for k = 1, 2, ... *)
Fixpoint move_backward_loop (n : nat) (last d_last : ptr) : M unit :=
  match n with
  | O => ret tt
  | S n' =>
      x <- load (last +p -1);
      store (d_last +p -1) x;;
      move_backward_loop n' (last +p -1) (d_last +p -1)
  end.

Definition std_move_backward (first last d_last : ptr) : M ptr :=
  n <- distance first last;
  move_backward_loop n last d_last;;
  ret (d_last +p - Z.of_nat n).

(** The loop of [std::fill(first, last, value)]. *)
Fixpoint fill_loop (n : nat) (first : ptr) (value : T) : M unit :=
  match n with
  | O => ret tt
  | S n' => store first (Some value);; fill_loop n' (first +p 1) value
  end.

Definition std_fill (first last : ptr) (value : T) : M unit :=
  n <- distance first last;
  fill_loop n first value.

(** Copying the elements of an [std::initializer_list] to [d_first]. *)
Fixpoint copy_list (init : list T) (d_first : ptr) : M unit :=
  match init with
  | [] => ret tt
  | x :: init' => store d_first (Some x);; copy_list init' (d_first +p 1)
  end.

End Primitives.

(** ** ArrayPtr *)

Section ArrayPtr.

Context {T : Type}.

#[local] Abbreviation M := (M T).

(** Modelled from the spec: array_ptr.h is not among the sources. The spec
    describes the buffer type as an exclusively owned block of
    uninitialised slots that can be allocated for N elements, released,
    exchanged with another buffer, handed over by a move (the source of
    the move keeps no storage), and indexed from its start; the
    definitions of this section follow that description. An [ArrayPtr] is
    the raw pointer it holds. *)
Definition ArrayPtr : Type := ptr.

(** Modelled from the spec: [ArrayPtr()] owns no storage. *)
Definition ArrayPtr_default : ArrayPtr := nullptr.

(** Modelled from the spec: [ArrayPtr(size)] allocates a block of [size]
    uninitialised slots at an address not used before. *)
Definition ArrayPtr_new (size : Z) : M ArrayPtr :=
  fun h => Ok (Ptr (Some (length h)) 0,
               h ++ [Some (replicate (Z.to_nat size) None)]).

(** Modelled from the spec: the destructor releases the owned block. *)
Definition ArrayPtr_delete (a : ArrayPtr) : M unit :=
  fun h =>
    match base a with
    | None => Ok (tt, h)
    | Some l =>
        match block_at h l with
        | Some _ => Ok (tt, <[l := None]> h)
        | None => Undefined
        end
    end.

(** Modelled from the spec: [Get()] is the start of the raw storage. *)
Definition Get (a : ArrayPtr) : ptr := a.

(** Modelled from the spec: [a.swap(b)] exchanges the two blocks; the
    result is the new [a] and the new [b]. *)
Definition ArrayPtr_swap (a b : ArrayPtr) : ArrayPtr * ArrayPtr := (b, a).

(** Modelled from the spec: [ArrayPtr(std::move(other))] takes the block
    and leaves [other] without storage; the result is the new buffer and
    the new [other]. *)
Definition ArrayPtr_move (other : ArrayPtr) : ArrayPtr * ArrayPtr :=
  (other, nullptr).

(** Modelled from the spec: [a = std::move(rhs)] releases the block of [a],
    takes the one of [rhs] and leaves [rhs] without storage. *)
Definition ArrayPtr_move_assign (a rhs : ArrayPtr) : M (ArrayPtr * ArrayPtr) :=
  ArrayPtr_delete a;;
  ret (rhs, nullptr).

(** Modelled from the spec: [a[index]] designates slot [index] of the
    block. *)
Definition ArrayPtr_index (a : ArrayPtr) (index : Z) : M ptr :=
  fun h =>
    match storage h a with
    | Some b =>
        if (0 <=? index) && (index <? Z.of_nat (length b))
        then Ok (a +p index, h)
        else Undefined
    | None => Undefined
    end.

End ArrayPtr.

(** ** SimpleVector *)

Record ReserveProxyObj : Type := { capacity : Z }.

(** The free function [Reserve(capacity_to_reserve)]. *)
Definition Reserve_proxy (capacity_to_reserve : Z) : ReserveProxyObj :=
  {| capacity := capacity_to_reserve |}.

Record SimpleVector : Type := {
  array_ : ArrayPtr;
  size_ : Z;
  capacity_ : Z
}.

Definition Iterator : Type := ptr.
Definition ConstIterator : Type := ptr.

Definition begin (this : SimpleVector) : Iterator := Get (array_ this).

Definition end_ (this : SimpleVector) : Iterator :=
  Get (array_ this) +p size_ this.

Definition cbegin (this : SimpleVector) : ConstIterator := begin this.

Definition cend (this : SimpleVector) : ConstIterator := end_ this.

Definition GetSize (this : SimpleVector) : Z := size_ this.

Definition GetCapacity (this : SimpleVector) : Z := capacity_ this.

Definition IsEmpty (this : SimpleVector) : bool := size_ this =? 0.

Definition set_array (this : SimpleVector) (a : ptr) : SimpleVector :=
  {| array_ := a; size_ := size_ this; capacity_ := capacity_ this |}.

Definition set_size (this : SimpleVector) (n : Z) : SimpleVector :=
  {| array_ := array_ this; size_ := n; capacity_ := capacity_ this |}.

Definition set_capacity (this : SimpleVector) (n : Z) : SimpleVector :=
  {| array_ := array_ this; size_ := size_ this; capacity_ := n |}.

Section SimpleVector.

Context {T : Type}.

(** The value of [Type()]. *)
Context (Type_ : T).

#[local] Abbreviation M := (M T).

(** *** Constructors and destructor *)

Definition SimpleVector_default : SimpleVector :=
  {| array_ := ArrayPtr_default; size_ := 0; capacity_ := 0 |}.

Definition SimpleVector_sized (size : Z) : M SimpleVector :=
  a <- ArrayPtr_new size;
  let this := {| array_ := a; size_ := size; capacity_ := size |} in
  std_fill (begin this) (end_ this) Type_;;
  ret this.

Definition SimpleVector_reserved (reserve : ReserveProxyObj) : M SimpleVector :=
  a <- ArrayPtr_new (capacity reserve);
  ret {| array_ := a; size_ := 0; capacity_ := capacity reserve |}.

Definition SimpleVector_filled (size : Z) (value : T) : M SimpleVector :=
  a <- ArrayPtr_new size;
  let this := {| array_ := a; size_ := size; capacity_ := size |} in
  std_fill (begin this) (end_ this) value;;
  ret this.

Definition SimpleVector_init (init : list T) : M SimpleVector :=
  let n := to_size_t (Z.of_nat (length init)) in
  a <- ArrayPtr_new n;
  let this := {| array_ := a; size_ := n; capacity_ := n |} in
  copy_list init (begin this);;
  ret this.

Definition SimpleVector_copy (other : SimpleVector) : M SimpleVector :=
  a <- ArrayPtr_new (size_ other);
  let this :=
    {| array_ := a; size_ := size_ other; capacity_ := size_ other |} in
  std_copy (begin other) (end_ other) (begin this);;
  ret this.

(** The result is the new container and the new state of [other]. *)
Definition SimpleVector_move (other : SimpleVector)
  : SimpleVector * SimpleVector :=
  let '(a, other_array) := ArrayPtr_move (array_ other) in
  let this :=
    {| array_ := a; size_ := size_ other; capacity_ := capacity_ other |} in
  let other := set_array other other_array in
  let other := set_size other 0 in
  let other := set_capacity other 0 in
  (this, other).

Definition SimpleVector_destroy (this : SimpleVector) : M unit :=
  ArrayPtr_delete (array_ this).

(** *** Modifiers *)

(** The result is the new [this] and the new [other]. *)
Definition swap (this other : SimpleVector) : SimpleVector * SimpleVector :=
  let '(a, b) := ArrayPtr_swap (array_ this) (array_ other) in
  ({| array_ := a; size_ := size_ other; capacity_ := capacity_ other |},
   {| array_ := b; size_ := size_ this; capacity_ := capacity_ this |}).

(** The end of each growth path: [array_.swap(new_array);
    capacity_ = new_capacity;] and the closing brace, where [new_array],
    which now holds the old block, is destroyed. *)
Definition adopt (this : SimpleVector) (new_array : ArrayPtr)
    (new_capacity : Z) : M SimpleVector :=
  let '(a, new_array) := ArrayPtr_swap (array_ this) new_array in
  let this := set_array this a in
  let this := set_capacity this new_capacity in
  ArrayPtr_delete new_array;;
  ret this.

Definition PushBack (this : SimpleVector) (item : T) : M SimpleVector :=
  this <-
    (if size_ this =? capacity_ this then
       let new_capacity :=
         if capacity_ this =? 0 then 1 else to_size_t (2 * capacity_ this) in
       new_array <- ArrayPtr_new new_capacity;
       std_move (begin this) (end_ this) (Get new_array);;
       adopt this new_array new_capacity
     else ret this);
  construct_at (Get (array_ this) +p size_ this) item;;
  ret (set_size this (to_size_t (size_ this + 1))).

Definition PopBack (NDEBUG : bool) (this : SimpleVector) : M SimpleVector :=
  assert NDEBUG (size_ this >? 0);;
  ret (set_size this (to_size_t (size_ this - 1))).

(** [Insert] takes its argument as a forwarding reference
    ([Container&& value]) and constructs the element from it at the
    placement [new] of line 99 or 106. [Insert] below is the call whose
    argument is not an element of the container (a temporary, or an object
    that lives in no block of the heap): the object referred to is the
    same before and after the elements are moved, so the call is given
    its value [value : T]. [Insert_lvalue], which follows, keeps the
    reference and reads it where the source does.

    Line 99 of the source forwards [value] as [std::forward<U>], and the
    template declares no [U]; the line is read as line 106 spells it,
    [std::forward<Container>]. *)
Definition Insert (this : SimpleVector) (pos : ConstIterator) (value : T)
  : M (SimpleVector * Iterator) :=
  d <- ptr_diff pos (begin this);
  let index := to_size_t d in
  this <-
    (if size_ this =? capacity_ this then
       let new_capacity :=
         if capacity_ this =? 0 then 1 else to_size_t (2 * capacity_ this) in
       new_array <- ArrayPtr_new new_capacity;
       std_move (begin this) (begin this +p index) (Get new_array);;
       construct_at (Get new_array +p index) value;;
       std_move (begin this +p index) (end_ this)
                (Get new_array +p index +p 1);;
       adopt this new_array new_capacity
     else
       std_move_backward (begin this +p index) (end_ this) (end_ this +p 1);;
       construct_at (Get (array_ this) +p index) value;;
       ret this);
  let this := set_size this (to_size_t (size_ this + 1)) in
  ret (this, begin this +p index).

(** [Insert] called with an lvalue: [Container] is a reference type and
    [value] refers to an object in the heap. The element is copy-constructed
    from that object when the placement [new] runs, that is after the
    elements before it (lines 98 and 105) have been moved. *)
Definition Insert_lvalue (this : SimpleVector) (pos : ConstIterator)
    (value : ptr) : M (SimpleVector * Iterator) :=
  d <- ptr_diff pos (begin this);
  let index := to_size_t d in
  this <-
    (if size_ this =? capacity_ this then
       let new_capacity :=
         if capacity_ this =? 0 then 1 else to_size_t (2 * capacity_ this) in
       new_array <- ArrayPtr_new new_capacity;
       std_move (begin this) (begin this +p index) (Get new_array);;
       x <- read value;
       construct_at (Get new_array +p index) x;;
       std_move (begin this +p index) (end_ this)
                (Get new_array +p index +p 1);;
       adopt this new_array new_capacity
     else
       std_move_backward (begin this +p index) (end_ this) (end_ this +p 1);;
       x <- read value;
       construct_at (Get (array_ this) +p index) x;;
       ret this);
  let this := set_size this (to_size_t (size_ this + 1)) in
  ret (this, begin this +p index).

Definition Erase (this : SimpleVector) (pos : ConstIterator)
  : M (SimpleVector * Iterator) :=
  d <- ptr_diff pos (begin this);
  let index := to_size_t d in
  (if index <? to_size_t (size_ this - 1) then
     std_move (begin this +p index +p 1) (end_ this) (begin this +p index);;
     ret tt
   else ret tt);;
  let this := set_size this (to_size_t (size_ this - 1)) in
  ret (this, begin this +p index).

Definition Reserve (this : SimpleVector) (new_capacity : Z) : M SimpleVector :=
  if new_capacity >? capacity_ this then
    new_array <- ArrayPtr_new new_capacity;
    std_move (begin this) (end_ this) (Get new_array);;
    adopt this new_array new_capacity
  else ret this.

Definition Clear (this : SimpleVector) : SimpleVector := set_size this 0.

(** [for (size_t i = from; i < to; ++i) new (p + i) Type();] *)
Fixpoint construct_loop (n : nat) (p : ptr) (i : Z) : M unit :=
  match n with
  | O => ret tt
  | S n' => construct_at (p +p i) Type_;; construct_loop n' p (i + 1)
  end.

Definition construct_range (p : ptr) (from to : Z) : M unit :=
  construct_loop (Z.to_nat (to - from)) p from.

Definition Resize (this : SimpleVector) (new_size : Z) : M SimpleVector :=
  this <-
    (if new_size >? capacity_ this then
       new_array <- ArrayPtr_new new_size;
       std_move (begin this) (end_ this) (Get new_array);;
       construct_range (Get new_array) (size_ this) new_size;;
       adopt this new_array new_size
     else
       (if new_size >? size_ this then
          construct_range (Get (array_ this)) (size_ this) new_size
        else ret tt);;
       ret this);
  ret (set_size this new_size).

(** *** Element access *)

Definition operator_index (NDEBUG : bool) (this : SimpleVector) (index : Z)
  : M ptr :=
  assert NDEBUG (index <? size_ this);;
  ArrayPtr_index (array_ this) index.

Definition At (this : SimpleVector) (index : Z) : M ptr :=
  if index >=? size_ this then throw (out_of_range "Index out of range")
  else ArrayPtr_index (array_ this) index.

End SimpleVector.

(** *** Comparison operators *)

Section Comparison.

Context {T : Type}.

(** [operator==] and [operator<] of [Type]. *)
Context (Type_eq Type_lt : T -> T -> bool).

#[local] Abbreviation M := (M T).

(** The loop of [std::equal(first1, last1, first2)]: [false] at the first
    pair of elements that [operator==] tells apart. *)
Fixpoint equal_loop (n : nat) (first1 first2 : ptr) : M bool :=
  match n with
  | O => ret true
  | S n' =>
      x <- read first1;
      y <- read first2;
      if Type_eq x y then equal_loop n' (first1 +p 1) (first2 +p 1)
      else ret false
  end.

Definition std_equal (first1 last1 first2 : ptr) : M bool :=
  n <- distance first1 last1;
  equal_loop n first1 first2.

(** The loop of [std::lexicographical_compare]: it runs while both ranges
    have elements, answers at the first pair that [operator<] orders, and
    otherwise answers whether the first range ended before the second. *)
Fixpoint lexicographical_compare_loop (n1 n2 : nat) (first1 first2 : ptr)
  : M bool :=
  match n1, n2 with
  | S n1', S n2' =>
      x <- read first1;
      y <- read first2;
      if Type_lt x y then ret true
      else if Type_lt y x then ret false
      else lexicographical_compare_loop n1' n2' (first1 +p 1) (first2 +p 1)
  | O, S _ => ret true
  | _, O => ret false
  end.

Definition std_lexicographical_compare (first1 last1 first2 last2 : ptr)
  : M bool :=
  n1 <- distance first1 last1;
  n2 <- distance first2 last2;
  lexicographical_compare_loop n1 n2 first1 first2.

(** [lhs == rhs]: the sizes are compared first, and the elements only when
    the sizes agree. *)
Definition operator_eq (lhs rhs : SimpleVector) : M bool :=
  if GetSize lhs =? GetSize rhs
  then std_equal (begin lhs) (end_ lhs) (begin rhs)
  else ret false.

Definition operator_ne (lhs rhs : SimpleVector) : M bool :=
  b <- operator_eq lhs rhs;
  ret (negb b).

Definition operator_lt (lhs rhs : SimpleVector) : M bool :=
  std_lexicographical_compare (begin lhs) (end_ lhs) (begin rhs) (end_ rhs).

Definition operator_le (lhs rhs : SimpleVector) : M bool :=
  b <- operator_lt rhs lhs;
  ret (negb b).

Definition operator_gt (lhs rhs : SimpleVector) : M bool :=
  operator_lt rhs lhs.

Definition operator_ge (lhs rhs : SimpleVector) : M bool :=
  b <- operator_lt lhs rhs;
  ret (negb b).

End Comparison.

(** ** Programs over several containers

    The objects of a program are the entries of a table; a reference to a
    container is its index, so [this != &rhs] is a comparison of indices.
    A call converts its integer arguments to [size_t]. *)

Abbreviation objects := (list SimpleVector).

Section Machine.

Context {T : Type}.

Context (Type_ : T).

#[local] Abbreviation M := (M T).

Inductive call : Type :=
| New_default
| New_sized (size : Z)
| New_reserved (capacity_to_reserve : Z)
| New_filled (size : Z) (value : T)
| New_init (init : list T)
| New_copy (other : nat)
| New_move (other : nat)
| Assign_copy (this rhs : nat)
| Assign_move (this rhs : nat)
| Call_PushBack (this : nat) (item : T)
| Call_PopBack (this : nat)
| Call_Insert (this : nat) (pos : ConstIterator) (value : T)
| Call_Erase (this : nat) (pos : ConstIterator)
| Call_swap (this other : nat)
| Call_Reserve (this : nat) (new_capacity : Z)
| Call_Resize (this : nat) (new_size : Z)
| Call_Clear (this : nat).

Definition object (objs : objects) (i : nat) : M SimpleVector :=
  match objs !! i with
  | Some v => ret v
  | None => undefined
  end.

(** [operator=(const SimpleVector& rhs)]; the temporary [copy] is destroyed
    at the end of its block. *)
Definition copy_assign (objs : objects) (this rhs : nat) : M objects :=
  t <- object objs this;
  r <- object objs rhs;
  if bool_decide (this <> rhs) then
    copy <- SimpleVector_copy r;
    let '(t, copy) := swap t copy in
    SimpleVector_destroy copy;;
    ret (<[this := t]> objs)
  else ret objs.

(** [operator=(SimpleVector&& rhs)]. *)
Definition move_assign (objs : objects) (this rhs : nat) : M objects :=
  t <- object objs this;
  r <- object objs rhs;
  if bool_decide (this <> rhs) then
    arrays <- ArrayPtr_move_assign (array_ t) (array_ r);
    let t := set_array t (fst arrays) in
    let r := set_array r (snd arrays) in
    let t := set_size t (size_ r) in
    let r := set_size r 0 in
    let t := set_capacity t (capacity_ r) in
    let r := set_capacity r 0 in
    ret (<[rhs := r]> (<[this := t]> objs))
  else ret objs.

Definition step (NDEBUG : bool) (c : call) (objs : objects) : M objects :=
  match c with
  | New_default => ret (objs ++ [SimpleVector_default])
  | New_sized size =>
      v <- SimpleVector_sized Type_ (to_size_t size);
      ret (objs ++ [v])
  | New_reserved capacity_to_reserve =>
      v <- SimpleVector_reserved (Reserve_proxy (to_size_t capacity_to_reserve));
      ret (objs ++ [v])
  | New_filled size value =>
      v <- SimpleVector_filled (to_size_t size) value;
      ret (objs ++ [v])
  | New_init init =>
      v <- SimpleVector_init init;
      ret (objs ++ [v])
  | New_copy other =>
      o <- object objs other;
      v <- SimpleVector_copy o;
      ret (objs ++ [v])
  | New_move other =>
      o <- object objs other;
      let '(v, o) := SimpleVector_move o in
      ret (<[other := o]> objs ++ [v])
  | Assign_copy this rhs => copy_assign objs this rhs
  | Assign_move this rhs => move_assign objs this rhs
  | Call_PushBack this item =>
      v <- object objs this;
      v <- PushBack v item;
      ret (<[this := v]> objs)
  | Call_PopBack this =>
      v <- object objs this;
      v <- PopBack NDEBUG v;
      ret (<[this := v]> objs)
  | Call_Insert this pos value =>
      v <- object objs this;
      r <- Insert v pos value;
      ret (<[this := fst r]> objs)
  | Call_Erase this pos =>
      v <- object objs this;
      r <- Erase v pos;
      ret (<[this := fst r]> objs)
  | Call_swap this other =>
      a <- object objs this;
      b <- object objs other;
      let '(a, b) := swap a b in
      ret (<[other := b]> (<[this := a]> objs))
  | Call_Reserve this new_capacity =>
      v <- object objs this;
      v <- Reserve v (to_size_t new_capacity);
      ret (<[this := v]> objs)
  | Call_Resize this new_size =>
      v <- object objs this;
      v <- Resize Type_ v (to_size_t new_size);
      ret (<[this := v]> objs)
  | Call_Clear this =>
      v <- object objs this;
      ret (<[this := Clear v]> objs)
  end.

Fixpoint run (NDEBUG : bool) (cs : list call) (objs : objects) : M objects :=
  match cs with
  | [] => ret objs
  | c :: cs' => objs <- step NDEBUG c objs; run NDEBUG cs' objs
  end.

(** [PushBack] of each of [items] in turn. *)
Fixpoint PushBack_all (this : SimpleVector) (items : list T)
  : M SimpleVector :=
  match items with
  | [] => ret this
  | item :: items' => this <- PushBack this item; PushBack_all this items'
  end.

(** The same, recording [GetSize()] and [GetCapacity()] after each call. *)
Fixpoint PushBack_trace (this : SimpleVector) (items : list T)
  : M (list (Z * Z)) :=
  match items with
  | [] => ret []
  | item :: items' =>
      this <- PushBack this item;
      rest <- PushBack_trace this items';
      ret ((GetSize this, GetCapacity this) :: rest)
  end.

(** The end of the scope of the objects of a program: each one is
    destroyed, the one constructed last first. *)
Fixpoint destroy_all (objs : objects) : M unit :=
  match objs with
  | [] => ret tt
  | v :: objs' => destroy_all objs';; SimpleVector_destroy v
  end.

End Machine.

Arguments call : clear implicits.

(** The value a call returns, without the heap it leaves. *)
Definition result {T A : Type} (o : outcome (A * heap T)) : outcome A :=
  match o with
  | Ok (a, _) => Ok a
  | AssertionFailed => AssertionFailed
  | Thrown e => Thrown e
  | Undefined => Undefined
  end.

(** * Specification vocabulary *)

Section Vocabulary.

Context {T : Type}.

Implicit Types (h : heap T) (b rest : block T) (l : nat) (xs : list T).

(** [splice dst d xs] is [dst] with the slots from [d] on overwritten by
    [xs]. *)
Definition splice {X : Type} (dst : list X) (d : nat) (xs : list X) : list X :=
  take d dst ++ xs ++ drop (d + length xs)%nat dst.

(** The representation invariant: [array_] points at the start of a live
    block of [capacity_] slots (no storage at all when [array_] is null),
    and [0 <= size_ <= capacity_]. *)
Definition wf (h : heap T) (this : SimpleVector) : bool :=
  (off (array_ this) =? 0)
  && (0 <=? size_ this) && (size_ this <=? capacity_ this)
  && (capacity_ this <=? SIZE_MAX)
  && match storage h (array_ this) with
     | Some b => Z.of_nat (length b) =? capacity_ this
     | None => false
     end.

(** The elements of a well-formed container: the values constructed in
    slots [0, size_). There is no such sequence when the representation
    invariant is broken or one of these slots is uninitialised. *)
Definition elements (h : heap T) (this : SimpleVector) : option (list T) :=
  if wf h this then
    match storage h (array_ this) with
    | Some b => mapM id (take (Z.to_nat (size_ this)) b)
    | None => None
    end
  else None.

(** [models h this xs rest]: the block of [this] is the live elements [xs]
    followed by the [rest] of the reserved slots. *)
Definition models (h : heap T) (this : SimpleVector) (xs : list T)
    (rest : block T) : Prop :=
  off (array_ this) = 0
  /\ storage h (array_ this) = Some ((Some <$> xs) ++ rest)
  /\ size_ this = Z.of_nat (length xs)
  /\ capacity_ this = Z.of_nat (length xs + length rest)
  /\ capacity_ this <= SIZE_MAX.

(** The heap outside the block of [a] is as it was; addresses may have
    been added. *)
Definition unchanged_outside (a : ptr) (h h' : heap T) : Prop :=
  (length h <= length h')%nat
  /\ forall l, base a <> Some l -> (l < length h)%nat -> h' !! l = h !! l.

(** [a'] is null, or its block is the block of [a] or a newly allocated
    one. *)
Definition same_or_fresh (a a' : ptr) (h : heap T) : Prop :=
  off a' = 0
  /\ (base a' = None \/ base a' = base a
      \/ exists l, base a' = Some l /\ (length h <= l)%nat).

(** The heap once the block of [a] has been released. *)
Definition release (a : ptr) (h : heap T) : heap T :=
  match base a with
  | Some l => <[l := None]> h
  | None => h
  end.

(** The capacity that [PushBack] and [Insert] leave behind. *)
Definition grown_capacity (this : SimpleVector) : Z :=
  if size_ this =? capacity_ this
  then Z.max 1 (2 * capacity_ this)
  else capacity_ this.

(** What a caller can observe of a container after a call: its size, its
    capacity and its elements. *)
Definition observe (o : outcome (SimpleVector * heap T))
  : outcome (Z * Z * option (list T)) :=
  match o with
  | Ok (this, h) => Ok (GetSize this, GetCapacity this, elements h this)
  | AssertionFailed => AssertionFailed
  | Thrown e => Thrown e
  | Undefined => Undefined
  end.

(** The container a call of [Insert] or [Erase] leaves, without the
    iterator it returns. *)
Definition drop_iterator (o : outcome (SimpleVector * Iterator * heap T))
  : outcome (SimpleVector * heap T) :=
  match o with
  | Ok (this, _, h) => Ok (this, h)
  | AssertionFailed => AssertionFailed
  | Thrown e => Thrown e
  | Undefined => Undefined
  end.

(** The calls of a step write only into the block at [a]: no block appears,
    disappears or changes its length, and the other blocks keep their
    contents. *)
Definition writes_to (a : option nat) (h h' : heap T) : Prop :=
  length h' = length h
  /\ (forall l, a <> Some l -> h' !! l = h !! l)
  /\ (forall l b, block_at h l = Some b ->
        exists b', block_at h' l = Some b' /\ length b' = length b).

(** The heap after an allocation of [c] slots. *)
Definition allocated (h : heap T) (c : Z) : heap T :=
  h ++ [Some (replicate (Z.to_nat c) None)].

(** What a call on [this] that returns normally guarantees about the
    container [this'] it leaves: [this'] is well formed, its block is the
    old one or a new one, and no other block has been touched. *)
Definition call_ok (h : heap T) (this : SimpleVector) (h' : heap T)
    (this' : SimpleVector) : Prop :=
  wf h' this' = true
  /\ unchanged_outside (array_ this) h h'
  /\ same_or_fresh (array_ this) (array_ this') h.

(** The invariant of a program state: every object is well formed and no
    two objects own the same block. *)
Definition store_wf (h : heap T) (objs : objects) : Prop :=
  (forall i v, objs !! i = Some v -> wf h v = true)
  /\ (forall i j vi vj l,
        i <> j -> objs !! i = Some vi -> objs !! j = Some vj ->
        base (array_ vi) = Some l -> base (array_ vj) <> Some l).

(** The objects of the table that a call may change: the object it is
    called on, and the source of a move or the other side of a [swap]. *)
Definition modifies (c : call T) : list nat :=
  match c with
  | New_default | New_sized _ | New_reserved _ | New_filled _ _
  | New_init _ | New_copy _ => []
  | New_move other => [other]
  | Assign_copy this _ => [this]
  | Assign_move this rhs => [this; rhs]
  | Call_swap this other => [this; other]
  | Call_PushBack this _ | Call_PopBack this | Call_Insert this _ _
  | Call_Erase this _ | Call_Reserve this _ | Call_Resize this _
  | Call_Clear this => [this]
  end.

(** The blocks that are live after a call on [this]: the block of the
    container it leaves, and blocks that were live before other than the
    one [this] had. *)
Definition live_after (h : heap T) (this : SimpleVector) (h' : heap T)
    (this' : SimpleVector) : Prop :=
  forall l, is_Some (block_at h' l) ->
    base (array_ this') = Some l
    \/ (is_Some (block_at h l) /\ base (array_ this) <> Some l).

(** The block at [l] is the block of an object of the table. *)
Definition owned (objs : objects) (l : nat) : Prop :=
  exists i v, objs !! i = Some v /\ base (array_ v) = Some l.

(** No block allocated at an address from [from] on has been left behind:
    each one that is live is the block of an object of the table. *)
Definition no_leak (from : nat) (h : heap T) (objs : objects) : Prop :=
  forall l, (from <= l)%nat -> is_Some (block_at h l) -> owned objs l.

(** The lexicographic order that an element order [lt] induces on
    sequences: a proper prefix comes first, and otherwise the first position
    where the elements are ordered decides. *)
Inductive lexicographic (lt : T -> T -> bool) : list T -> list T -> Prop :=
| lexicographic_prefix y ys : lexicographic lt [] (y :: ys)
| lexicographic_head x xs y ys :
    lt x y = true -> lexicographic lt (x :: xs) (y :: ys)
| lexicographic_tail x xs y ys :
    lt x y = false -> lt y x = false ->
    lexicographic lt xs ys -> lexicographic lt (x :: xs) (y :: ys).

End Vocabulary.

(** * Properties of the memory primitives *)

Section HeapFacts.

Context {T : Type}.

Implicit Types (h : heap T) (b src dst : block T) (l : nat) (p : ptr).

#[local] Open Scope nat_scope.


Lemma splice_length dst d xs :
  d + length xs <= length dst -> length (splice dst d xs) = length dst.
Proof.
  intros Hle. unfold splice.
  rewrite !length_app, length_take, length_drop. lia.
Qed.

Lemma splice_nil dst d : splice dst d [] = dst.
Proof.
  unfold splice. simpl. rewrite Nat.add_0_r. apply take_drop.
Qed.

Lemma block_at_Some h l b : block_at h l = Some b <-> h !! l = Some (Some b).
Proof.
  unfold block_at. destruct (h !! l) as [[b'|]|]; split; congruence.
Qed.

Lemma block_at_lt h l b : block_at h l = Some b -> l < length h.
Proof.
  rewrite block_at_Some. apply lookup_lt_Some.
Qed.

Lemma block_at_fresh h : block_at h (length h) = None.
Proof.
  destruct (block_at h (length h)) as [b|] eqn:E; [|done].
  apply block_at_lt in E. lia.
Qed.

Lemma block_at_alloc h b : block_at (h ++ [Some b]) (length h) = Some b.
Proof.
  apply block_at_Some. apply list_lookup_middle. done.
Qed.

Lemma block_at_alloc_old h x l :
  l < length h -> block_at (h ++ [x]) l = block_at h l.
Proof.
  intros Hl. unfold block_at. by rewrite lookup_app_l.
Qed.

Lemma block_at_insert_eq h l x :
  l < length h ->
  block_at (<[l := x]> h) l = x.
Proof.
  intros Hl. unfold block_at. rewrite list_lookup_insert_eq by done.
  by destruct x.
Qed.

Lemma block_at_insert_ne h l l' x :
  l <> l' -> block_at (<[l := x]> h) l' = block_at h l'.
Proof.
  intros Hne. unfold block_at. by rewrite list_lookup_insert_ne.
Qed.

Lemma heap_insert_id h l b : block_at h l = Some b -> <[l := Some b]> h = h.
Proof.
  rewrite block_at_Some. apply list_insert_id.
Qed.

Lemma load_at h p l o b s :
  base p = Some l -> off p = Z.of_nat o ->
  block_at h l = Some b -> b !! o = Some s ->
  load p h = Ok (s, h).
Proof.
  intros Hb Ho Hl Hs. unfold load. rewrite Hb, Hl, Ho.
  destruct (Z.leb_spec 0 (Z.of_nat o)); [|lia].
  by rewrite Nat2Z.id, Hs.
Qed.

Lemma store_at h p l o b s :
  base p = Some l -> off p = Z.of_nat o ->
  block_at h l = Some b -> o < length b ->
  store p s h = Ok (tt, <[l := Some (<[o := s]> b)]> h).
Proof.
  intros Hb Ho Hl Hlt. unfold store. rewrite Hb, Hl, Ho.
  destruct (Z.leb_spec 0 (Z.of_nat o)); [|lia].
  destruct (Z.ltb_spec (Z.of_nat o) (Z.of_nat (length b))); [|lia].
  by rewrite Nat2Z.id.
Qed.

Lemma bind_Ok {A B} (m : M T A) (k : A -> M T B) h a h' :
  m h = Ok (a, h') -> bind m k h = k a h'.
Proof.
  intros Hm. unfold bind. by rewrite Hm.
Qed.

(** One step of [splice]: writing the head of the source at [d], then the
    rest from [d + 1] on. *)
Lemma splice_cons dst d x xs :
  d < length dst ->
  splice (<[d := x]> dst) (S d) xs = splice dst d (x :: xs).
Proof.
  intros Hd. unfold splice.
  rewrite drop_insert_lt by lia.
  rewrite (take_S_r _ d x) by (by apply list_lookup_insert_eq).
  rewrite take_insert_ge by lia.
  rewrite <- app_assoc. simpl.
  by rewrite Nat.add_succ_r.
Qed.

(** The symmetric step, used back to front. *)
Lemma splice_snoc dst d x xs :
  d + length xs < length dst ->
  splice (<[d + length xs := x]> dst) d xs = splice dst d (xs ++ [x]).
Proof.
  intros Hd. unfold splice.
  rewrite take_insert_ge by lia.
  rewrite length_app. simpl.
  rewrite <- !app_assoc. f_equal. f_equal. simpl.
  rewrite (drop_S (<[d + length xs := x]> dst) x (d + length xs))
    by (by apply list_lookup_insert_eq).
  rewrite drop_insert_lt by lia.
  by replace (d + (length xs + 1)) with (S (d + length xs)) by lia.
Qed.

Lemma move_loop_across n :
  forall h first d_first l1 l2 o1 o2 src dst,
    l1 <> l2 ->
    base first = Some l1 -> off first = Z.of_nat o1 ->
    base d_first = Some l2 -> off d_first = Z.of_nat o2 ->
    block_at h l1 = Some src -> block_at h l2 = Some dst ->
    o1 + n <= length src -> o2 + n <= length dst ->
    move_loop n first d_first h
    = Ok (tt, <[l2 := Some (splice dst o2 (take n (drop o1 src)))]> h).
Proof.
  induction n as [|n IH];
    intros h first d_first l1 l2 o1 o2 src dst Hne Hb1 Ho1 Hb2 Ho2 Hsrc Hdst
      Hn1 Hn2.
  - simpl. unfold ret. rewrite splice_nil. by rewrite heap_insert_id.
  - destruct (lookup_lt_is_Some_2 src o1) as [x Hx]; [lia|].
    simpl.
    rewrite (bind_Ok _ _ h x h) by eauto using load_at.
    erewrite bind_Ok by (eapply store_at; eauto; lia).
    erewrite (IH _ _ _ l1 l2 (S o1) (S o2) src (<[o2 := x]> dst)); eauto.
    + rewrite list_insert_insert_eq. do 3 f_equal.
      rewrite splice_cons by lia.
      by rewrite (drop_S src x o1).
    + simpl. rewrite Ho1. lia.
    + simpl. rewrite Ho2. lia.
    + rewrite block_at_insert_ne by done. done.
    + apply block_at_insert_eq. eauto using block_at_lt.
    + lia.
    + rewrite length_insert. lia.
Qed.

Lemma move_loop_within n :
  forall h first d_first l o1 o2 b,
    base first = Some l -> off first = Z.of_nat o1 ->
    base d_first = Some l -> off d_first = Z.of_nat o2 ->
    block_at h l = Some b ->
    o2 <= o1 -> o1 + n <= length b ->
    move_loop n first d_first h
    = Ok (tt, <[l := Some (splice b o2 (take n (drop o1 b)))]> h).
Proof.
  induction n as [|n IH];
    intros h first d_first l o1 o2 b Hb1 Ho1 Hb2 Ho2 Hblk Hle Hn.
  - simpl. unfold ret. rewrite splice_nil. by rewrite heap_insert_id.
  - destruct (lookup_lt_is_Some_2 b o1) as [x Hx]; [lia|].
    simpl.
    rewrite (bind_Ok _ _ h x h) by eauto using load_at.
    erewrite bind_Ok by (eapply store_at; eauto; lia).
    erewrite (IH _ _ _ l (S o1) (S o2) (<[o2 := x]> b)); eauto.
    + rewrite list_insert_insert_eq. do 3 f_equal.
      rewrite drop_insert_lt by lia.
      rewrite splice_cons by lia.
      by rewrite (drop_S b x o1).
    + simpl. rewrite Ho1. lia.
    + simpl. rewrite Ho2. lia.
    + apply block_at_insert_eq. eauto using block_at_lt.
    + lia.
    + rewrite length_insert. lia.
Qed.

Lemma move_backward_loop_within n :
  forall h last d_last l o1 o2 b,
    base last = Some l -> off last = Z.of_nat (o1 + n) ->
    base d_last = Some l -> off d_last = Z.of_nat (o2 + n) ->
    block_at h l = Some b ->
    o1 <= o2 -> o2 + n <= length b ->
    move_backward_loop n last d_last h
    = Ok (tt, <[l := Some (splice b o2 (take n (drop o1 b)))]> h).
Proof.
  induction n as [|n IH];
    intros h last d_last l o1 o2 b Hb1 Ho1 Hb2 Ho2 Hblk Hle Hn.
  - simpl. unfold ret. rewrite splice_nil. by rewrite heap_insert_id.
  - destruct (lookup_lt_is_Some_2 b (o1 + n)) as [x Hx]; [lia|].
    simpl.
    rewrite (bind_Ok _ _ h x h)
      by (eapply load_at; eauto; simpl; lia).
    erewrite bind_Ok
      by (eapply (store_at _ _ l (o2 + n)); eauto; simpl; lia).
    erewrite (IH _ _ _ l o1 o2 (<[o2 + n := x]> b)); eauto.
    + rewrite list_insert_insert_eq. do 3 f_equal.
      rewrite drop_insert_ge by lia.
      rewrite take_insert_ge by lia.
      assert (Hlen : length (take n (drop o1 b)) = n)
        by (rewrite length_take, length_drop; lia).
      rewrite <- Hlen at 1.
      rewrite splice_snoc by (rewrite Hlen; lia).
      by rewrite (take_S_r (drop o1 b) n x) by (by rewrite lookup_drop).
    + simpl. rewrite Ho1. lia.
    + simpl. rewrite Ho2. lia.
    + apply block_at_insert_eq. eauto using block_at_lt.
    + rewrite length_insert. lia.
Qed.

End HeapFacts.

(** How the three moves used by [Insert] and [Erase] rearrange a block. *)
Section Shifts.

Context {X : Type}.

Implicit Types (A B R : list X) (x y z : X).

#[local] Open Scope nat_scope.

Lemma insert_middle A R x y : <[length A := y]> (A ++ x :: R) = A ++ y :: R.
Proof.
  by rewrite insert_app_r_alt, Nat.sub_diag by lia.
Qed.

Lemma take_middle A R x : take (S (length A)) (A ++ x :: R) = A ++ [x].
Proof.
  by rewrite take_app_ge, Nat.sub_succ_l, Nat.sub_diag by lia.
Qed.

Lemma drop_middle A R x n : drop (S (length A + n)) (A ++ x :: R) = drop n R.
Proof.
  rewrite drop_app_ge by lia.
  by replace (S (length A + n) - length A) with (S n) by lia.
Qed.

(** In place, back to front: [B] moves one slot to the right and [y]
    takes the slot it leaves. *)
Lemma shift_right_insert A B R y z :
  let blk := A ++ B ++ z :: R in
  <[length A := y]>
    (splice blk (S (length A)) (take (length B) (drop (length A) blk)))
  = A ++ y :: B ++ R.
Proof.
  intros blk. unfold blk, splice.
  rewrite drop_app_length, take_app_length.
  destruct B as [|x B]; simpl.
  - rewrite take_middle, drop_middle, drop_0, <- app_assoc. simpl.
    by rewrite insert_middle.
  - rewrite take_middle, <- app_assoc. simpl. rewrite insert_middle.
    do 3 f_equal.
    rewrite drop_middle. simpl.
    replace (S (length B)) with (S (length B + 0)) by lia.
    by rewrite drop_middle.
Qed.

(** Into a fresh block of [c] slots: [A], then [y], then [B]. *)
Lemma splice_around A B y z c :
  length A + length B < c ->
  let src := A ++ B in
  splice
    (<[length A := y]>
       (splice (replicate c z) 0 (take (length A) (drop 0 src))))
    (S (length A)) (take (length B) (drop (length A) src))
  = A ++ y :: B ++ replicate (c - length src - 1) z.
Proof.
  intros Hc src. unfold src, splice. simpl.
  rewrite drop_0, drop_app_length, !take_app_length.
  rewrite drop_replicate, (take_ge B) by done.
  replace (c - length A) with (S (c - length A - 1)) by lia. simpl.
  rewrite insert_middle, take_middle, drop_middle, drop_replicate.
  rewrite <- app_assoc, length_app. simpl.
  do 4 f_equal. lia.
Qed.

Lemma drop_shifted B R y :
  exists z, drop (length B) (y :: B ++ R) = z :: R.
Proof.
  revert y. induction B as [|x B IH]; intros y; simpl; eauto.
Qed.

(** In place, front to back: [B] moves one slot to the left, over [y];
    the last slot it occupied keeps what was moved from. *)
Lemma shift_left_erase A B R y :
  let blk := A ++ y :: B ++ R in
  exists z,
    splice blk (length A) (take (length B) (drop (S (length A)) blk))
    = A ++ B ++ z :: R.
Proof.
  intros blk. unfold blk, splice.
  destruct (drop_shifted B R y) as [z Hz]. exists z.
  rewrite take_app_length.
  replace (S (length A)) with (S (length A + 0)) by lia.
  rewrite drop_middle, drop_0, take_app_length, drop_app_add.
  by rewrite Hz.
Qed.

End Shifts.

Section AlgorithmFacts.

Context {T : Type}.

Implicit Types (h : heap T) (b src dst : block T) (l : nat) (p : ptr).

Lemma storage_base h p q : base p = base q -> storage h p = storage h q.
Proof.
  unfold storage. by intros ->.
Qed.

Lemma storage_Some_block h p l :
  base p = Some l -> storage h p = block_at h l.
Proof.
  unfold storage. by intros ->.
Qed.

Lemma valid_ptr_in h p b :
  storage h p = Some b -> 0 <= off p <= Z.of_nat (length b) ->
  valid_ptr h p = true.
Proof.
  intros Hs Ho. unfold valid_ptr. rewrite Hs.
  apply andb_true_intro. split; [apply Z.leb_le | apply Z.leb_le]; lia.
Qed.

Lemma ptr_diff_in h last first b :
  base last = base first -> storage h first = Some b ->
  0 <= off first <= Z.of_nat (length b) ->
  0 <= off last <= Z.of_nat (length b) ->
  ptr_diff last first h = Ok (off last - off first, h).
Proof.
  intros Hb Hs Hf Hl. unfold ptr_diff.
  rewrite (bool_decide_eq_true_2 _ Hb).
  rewrite (valid_ptr_in h last b), (valid_ptr_in h first b); try done.
  by rewrite (storage_base h last first).
Qed.

Lemma distance_in h first last b (o n : nat) :
  base first = base last -> storage h first = Some b ->
  off first = Z.of_nat o -> off last = Z.of_nat (o + n) ->
  (o + n <= length b)%nat ->
  distance first last h = Ok (n, h).
Proof.
  intros Hb Hs Hf Hl Hn. unfold distance.
  erewrite bind_Ok by (eapply (ptr_diff_in h last first b); eauto; lia).
  rewrite Hf, Hl.
  destruct (Z.leb_spec 0 (Z.of_nat (o + n) - Z.of_nat o)); [|lia].
  unfold ret. do 2 f_equal. lia.
Qed.

Lemma bind_Undefined {A B} (m : M T A) (k : A -> M T B) h :
  m h = Undefined -> bind m k h = Undefined.
Proof.
  intros Hm. unfold bind. by rewrite Hm.
Qed.

Lemma bind_Undefined_inner {A B C} (m : M T A) (f : A -> M T B)
    (g : A -> B -> M T C) h :
  bind m f h = Undefined ->
  bind m (fun a => bind (f a) (g a)) h = Undefined.
Proof.
  unfold bind. destruct (m h) as [[a h1]| | |]; try done. by intros ->.
Qed.

Lemma distance_reversed h first last :
  off last < off first -> distance first last h = Undefined.
Proof.
  intros Hlt. unfold distance, bind, ptr_diff.
  destruct (_ && _ && _); [|done].
  by destruct (Z.leb_spec 0 (off last - off first)); [lia|].
Qed.

Lemma std_move_across h first last d_first l2 (o1 o2 n : nat) src dst :
  base first = base last -> base first <> Some l2 ->
  storage h first = Some src ->
  off first = Z.of_nat o1 -> off last = Z.of_nat (o1 + n) ->
  (o1 + n <= length src)%nat ->
  base d_first = Some l2 -> off d_first = Z.of_nat o2 ->
  block_at h l2 = Some dst -> (o2 + n <= length dst)%nat ->
  std_move first last d_first h
  = Ok (d_first +p Z.of_nat n,
        <[l2 := Some (splice dst o2 (take n (drop o1 src)))]> h).
Proof.
  intros Hb Hne Hs Hf Hl Hn Hd Hdo Hdst Hdn. unfold std_move.
  erewrite bind_Ok by (eapply distance_in; eauto).
  destruct (base first) as [l1|] eqn:Hbf.
  - rewrite (storage_Some_block h first l1 Hbf) in Hs.
    erewrite bind_Ok; [done|].
    eapply (move_loop_across n h first d_first l1 l2); eauto.
  - unfold storage in Hs. rewrite Hbf in Hs. injection Hs as <-.
    simpl in Hn. assert (n = 0%nat) as -> by lia.
    simpl. unfold bind, ret.
    by rewrite take_0, splice_nil, heap_insert_id.
Qed.

Lemma std_move_within h first last d_first l (o1 o2 n : nat) b :
  base first = Some l -> base last = Some l -> base d_first = Some l ->
  block_at h l = Some b ->
  off first = Z.of_nat o1 -> off last = Z.of_nat (o1 + n) ->
  off d_first = Z.of_nat o2 ->
  (o2 <= o1)%nat -> (o1 + n <= length b)%nat ->
  std_move first last d_first h
  = Ok (d_first +p Z.of_nat n,
        <[l := Some (splice b o2 (take n (drop o1 b)))]> h).
Proof.
  intros Hf Hla Hd Hblk Hfo Hlo Hdo Hle Hn. unfold std_move.
  erewrite bind_Ok
    by (eapply (distance_in h first last b); eauto;
        [congruence | by rewrite (storage_Some_block h first l)]).
  erewrite bind_Ok; [done|].
  eapply move_loop_within; eauto.
Qed.

Lemma std_move_backward_within h first last d_last l (o1 o2 n : nat) b :
  base first = Some l -> base last = Some l -> base d_last = Some l ->
  block_at h l = Some b ->
  off first = Z.of_nat o1 -> off last = Z.of_nat (o1 + n) ->
  off d_last = Z.of_nat (o2 + n) ->
  (o1 <= o2)%nat -> (o2 + n <= length b)%nat ->
  std_move_backward first last d_last h
  = Ok (d_last +p - Z.of_nat n,
        <[l := Some (splice b o2 (take n (drop o1 b)))]> h).
Proof.
  intros Hf Hla Hd Hblk Hfo Hlo Hdo Hle Hn. unfold std_move_backward.
  erewrite bind_Ok
    by (eapply (distance_in h first last b); eauto;
        [congruence | by rewrite (storage_Some_block h first l) | lia]).
  erewrite bind_Ok; [done|].
  eapply move_backward_loop_within; eauto.
Qed.

End AlgorithmFacts.

(** * What a call that returns normally has done to the heap *)

Section Footprints.

Context {T : Type}.

Implicit Types (h : heap T) (b : block T) (l : nat) (p : ptr).

Lemma bind_inv {A B} (m : M T A) (k : A -> M T B) h r :
  bind m k h = Ok r -> exists a h1, m h = Ok (a, h1) /\ k a h1 = Ok r.
Proof.
  unfold bind. destruct (m h) as [[a h1]| | |]; try done. eauto.
Qed.

Lemma ret_inv {A} (a : A) h r : ret a h = Ok r -> r = (a, h).
Proof.
  unfold ret. by intros [= <-].
Qed.

Lemma writes_to_refl a h : writes_to a h h.
Proof.
  split_and!; eauto.
Qed.

Lemma writes_to_trans a h h1 h2 :
  writes_to a h h1 -> writes_to a h1 h2 -> writes_to a h h2.
Proof.
  intros (Hlen1 & Hsame1 & Hlive1) (Hlen2 & Hsame2 & Hlive2). split_and!.
  - congruence.
  - intros l Hl. by rewrite Hsame2, Hsame1.
  - intros l b Hb. destruct (Hlive1 l b Hb) as (b1 & Hb1 & Hlb1).
    destruct (Hlive2 l b1 Hb1) as (b2 & Hb2 & Hlb2).
    exists b2. split; [done|congruence].
Qed.

Lemma store_inv p s h u h' :
  store p s h = Ok (u, h') ->
  exists l b,
    base p = Some l /\ block_at h l = Some b
    /\ 0 <= off p < Z.of_nat (length b)
    /\ h' = <[l := Some (<[Z.to_nat (off p) := s]> b)]> h.
Proof.
  unfold store. destruct (base p) as [l|]; [|done].
  destruct (block_at h l) as [b|] eqn:Hb; [|done].
  destruct (Z.leb_spec 0 (off p)); [|done].
  destruct (Z.ltb_spec (off p) (Z.of_nat (length b))); [|done].
  intros [= <-]. by exists l, b.
Qed.

Lemma writes_to_insert h l b b' :
  block_at h l = Some b -> length b' = length b ->
  writes_to (Some l) h (<[l := Some b']> h).
Proof.
  intros Hb Hlen. split_and!.
  - apply length_insert.
  - intros l' Hne. apply list_lookup_insert_ne. congruence.
  - intros l' b0 Hb0. destruct (decide (l' = l)) as [->|Hne].
    + exists b'. rewrite block_at_insert_eq by (by eapply block_at_lt).
      split; [done|congruence].
    + exists b0. by rewrite block_at_insert_ne.
Qed.

Lemma store_writes p s h u h' :
  store p s h = Ok (u, h') -> writes_to (base p) h h'.
Proof.
  intros (l & b & -> & Hb & _ & ->)%store_inv.
  apply (writes_to_insert h l b); [done|apply length_insert].
Qed.

Lemma load_inv p h s h' : load p h = Ok (s, h') -> h' = h.
Proof.
  unfold load. destruct (base p) as [l|]; [|done].
  destruct (block_at h l) as [b|]; [|done].
  destruct (0 <=? off p); [|done].
  destruct (b !! Z.to_nat (off p)); [|done]. by intros [= _ <-].
Qed.

Lemma valid_ptr_inv h p :
  valid_ptr h p = true ->
  exists b, storage h p = Some b /\ 0 <= off p <= Z.of_nat (length b).
Proof.
  unfold valid_ptr. destruct (storage h p) as [b|]; [|done].
  intros [H1 H2]%andb_prop. exists b. split; [done|lia].
Qed.

Lemma ptr_diff_inv last first h d h' :
  ptr_diff last first h = Ok (d, h') ->
  h' = h /\ d = off last - off first /\ base last = base first
  /\ exists b, storage h first = Some b
       /\ 0 <= off first <= Z.of_nat (length b)
       /\ 0 <= off last <= Z.of_nat (length b).
Proof.
  unfold ptr_diff.
  destruct (_ && _ && _) eqn:Hc; [|done].
  apply andb_prop in Hc as [[Hb Hl]%andb_prop Hf].
  apply bool_decide_eq_true_1 in Hb.
  apply valid_ptr_inv in Hl as (bl & Hsl & Hol).
  apply valid_ptr_inv in Hf as (bf & Hsf & Hof).
  rewrite (storage_base h last first Hb), Hsf in Hsl. injection Hsl as <-.
  intros [= <- <-]. split_and!; try done. by exists bf.
Qed.

Lemma distance_inv first last h n h' :
  distance first last h = Ok (n, h') ->
  h' = h /\ Z.of_nat n = off last - off first /\ base last = base first
  /\ exists b, storage h first = Some b
       /\ 0 <= off first <= Z.of_nat (length b)
       /\ 0 <= off last <= Z.of_nat (length b).
Proof.
  unfold distance.
  intros (d & h1 & (-> & -> & Hb & Hv)%ptr_diff_inv & Hk)%bind_inv.
  destruct (Z.leb_spec 0 (off last - off first)); [|done].
  apply ret_inv in Hk as [= -> ->]. split_and!; try done. lia.
Qed.

Lemma move_loop_writes n :
  forall first d_first h u h',
    move_loop n first d_first h = Ok (u, h') ->
    writes_to (base d_first) h h'.
Proof.
  induction n as [|n IH]; intros first d_first h u h' Hrun; simpl in Hrun.
  - apply ret_inv in Hrun as [= _ <-]. apply writes_to_refl.
  - apply bind_inv in Hrun as (x & h1 & ->%load_inv & Hrun).
    apply bind_inv in Hrun as ([] & h2 & Hst%store_writes & Hrun).
    apply IH in Hrun. by eapply writes_to_trans.
Qed.

Lemma move_backward_loop_writes n :
  forall last d_last h u h',
    move_backward_loop n last d_last h = Ok (u, h') ->
    writes_to (base d_last) h h'.
Proof.
  induction n as [|n IH]; intros last d_last h u h' Hrun; simpl in Hrun.
  - apply ret_inv in Hrun as [= _ <-]. apply writes_to_refl.
  - apply bind_inv in Hrun as (x & h1 & ->%load_inv & Hrun).
    apply bind_inv in Hrun as ([] & h2 & Hst%store_writes & Hrun).
    apply IH in Hrun. by eapply writes_to_trans.
Qed.

Lemma fill_loop_writes n :
  forall first (value : T) h u h',
    fill_loop n first value h = Ok (u, h') ->
    writes_to (base first) h h'.
Proof.
  induction n as [|n IH]; intros first value h u h' Hrun; simpl in Hrun.
  - apply ret_inv in Hrun as [= _ <-]. apply writes_to_refl.
  - apply bind_inv in Hrun as ([] & h2 & Hst%store_writes & Hrun).
    apply IH in Hrun. by eapply writes_to_trans.
Qed.

Lemma copy_list_writes (init : list T) :
  forall d_first h u h',
    copy_list init d_first h = Ok (u, h') ->
    writes_to (base d_first) h h'.
Proof.
  induction init as [|x init IH]; intros d_first h u h' Hrun; simpl in Hrun.
  - apply ret_inv in Hrun as [= _ <-]. apply writes_to_refl.
  - apply bind_inv in Hrun as ([] & h2 & Hst%store_writes & Hrun).
    apply IH in Hrun. by eapply writes_to_trans.
Qed.

Lemma construct_loop_writes (Type_ : T) n :
  forall p (i : Z) h u h',
    construct_loop Type_ n p i h = Ok (u, h') ->
    writes_to (base p) h h'.
Proof.
  induction n as [|n IH]; intros p i h u h' Hrun; simpl in Hrun.
  - apply ret_inv in Hrun as [= _ <-]. apply writes_to_refl.
  - apply bind_inv in Hrun as ([] & h2 & Hst%store_writes & Hrun).
    apply IH in Hrun. by eapply writes_to_trans.
Qed.

(** A loop that ran at least once stayed inside the destination block. *)
Lemma move_loop_bounds n :
  forall first d_first h u h',
    move_loop n first d_first h = Ok (u, h') ->
    n <> 0%nat ->
    exists l b,
      base d_first = Some l /\ block_at h l = Some b
      /\ 0 <= off d_first
      /\ off d_first + Z.of_nat n <= Z.of_nat (length b).
Proof.
  induction n as [|n IH]; intros first d_first h u h' Hrun Hn; [done|].
  simpl in Hrun.
  apply bind_inv in Hrun as (x & h1 & ->%load_inv & Hrun).
  apply bind_inv in Hrun as ([] & h2 & Hst & Hrun).
  apply store_inv in Hst as (l & b & Hb & Hblk & Hoff & ->).
  exists l, b. split_and!; try done; try lia.
  destruct n as [|n]; [lia|].
  apply IH in Hrun as (l' & b' & Hb' & Hblk' & Hoff' & Hlen'); [|done].
  simpl in Hb', Hoff', Hlen'. rewrite Hb in Hb'. injection Hb' as <-.
  rewrite block_at_insert_eq in Hblk' by (by eapply block_at_lt).
  injection Hblk' as <-. rewrite length_insert in Hlen'. lia.
Qed.

Lemma std_move_inv first last d_first h p h' :
  std_move first last d_first h = Ok (p, h') ->
  writes_to (base d_first) h h'
  /\ off first <= off last
  /\ (off first < off last ->
      exists l b,
        base d_first = Some l /\ block_at h l = Some b
        /\ 0 <= off d_first
        /\ off d_first + (off last - off first) <= Z.of_nat (length b)).
Proof.
  unfold std_move.
  intros (n & h1 & (-> & Hn & _)%distance_inv & Hrun)%bind_inv.
  apply bind_inv in Hrun as ([] & h2 & Hloop & [= _ <-]%ret_inv).
  split_and!; [by eapply move_loop_writes|lia|].
  intros Hlt. rewrite <- Hn. eapply move_loop_bounds; [done|lia].
Qed.

Lemma std_move_backward_inv first last d_last h p h' :
  std_move_backward first last d_last h = Ok (p, h') ->
  writes_to (base d_last) h h' /\ off first <= off last.
Proof.
  unfold std_move_backward.
  intros (n & h1 & (-> & Hn & _)%distance_inv & Hrun)%bind_inv.
  apply bind_inv in Hrun as ([] & h2 & Hloop & [= _ <-]%ret_inv).
  split; [by eapply move_backward_loop_writes|lia].
Qed.

Lemma std_fill_inv first last (value : T) h u h' :
  std_fill first last value h = Ok (u, h') -> writes_to (base first) h h'.
Proof.
  unfold std_fill.
  intros (n & h1 & (-> & _)%distance_inv & Hrun)%bind_inv.
  by eapply fill_loop_writes.
Qed.

Lemma ArrayPtr_delete_inv a h u h' :
  ArrayPtr_delete a h = Ok (u, h') ->
  h' = release a h /\ is_Some (storage h a).
Proof.
  unfold ArrayPtr_delete, release, storage.
  destruct (base a) as [l|]; [|intros [= <-]; eauto].
  destruct (block_at h l) as [b|]; [|done]. intros [= <-]. eauto.
Qed.

Lemma adopt_inv this new_array (c : Z) h this' h' :
  adopt this new_array c h = Ok (this', h') ->
  this' = {| array_ := new_array; size_ := size_ this; capacity_ := c |}
  /\ h' = release (array_ this) h.
Proof.
  unfold adopt. simpl.
  intros ([] & h1 & [-> _]%ArrayPtr_delete_inv & [= -> ->]%ret_inv)%bind_inv.
  done.
Qed.

End Footprints.

(** * The abstraction: which sequence a container holds *)

Section Abstraction.

Context {T : Type}.

Implicit Types (h : heap T) (b rest : block T) (l : nat) (xs : list T).


Lemma mapM_id_Some (b : block T) xs :
  mapM id b = Some xs <-> b = Some <$> xs.
Proof.
  split.
  - intros Hm. symmetry. apply (mapM_fmap_Some_inv id Some b xs Hm).
    intros x y Hx. by symmetry.
  - intros ->. by apply mapM_fmap_Some.
Qed.

Lemma models_wf h this xs rest : models h this xs rest -> wf h this = true.
Proof.
  intros (Ho & Hs & Hn & Hc & Hmax). unfold wf. rewrite Hs.
  rewrite length_app, length_fmap.
  repeat (apply andb_true_intro; split);
    first [apply Z.eqb_eq | apply Z.leb_le]; lia.
Qed.

Lemma models_elements h this xs rest :
  models h this xs rest -> elements h this = Some xs.
Proof.
  intros Hm. unfold elements. rewrite (models_wf h this xs rest Hm).
  destruct Hm as (Ho & Hs & Hn & Hc & Hmax). rewrite Hs, Hn, Nat2Z.id.
  apply mapM_id_Some.
  by rewrite take_app_length' by (by rewrite length_fmap).
Qed.

Lemma elements_models h this xs :
  elements h this = Some xs -> exists rest, models h this xs rest.
Proof.
  unfold elements, wf. intros He.
  destruct (storage h (array_ this)) as [b|] eqn:Hs;
    [|by rewrite andb_false_r in He].
  destruct (_ && _) eqn:Hwf in He; [|done].
  repeat (apply andb_prop in Hwf as [Hwf ?]).
  apply mapM_id_Some in He.
  assert (Hlen : length xs = Z.to_nat (size_ this)).
  { apply (f_equal length) in He.
    rewrite length_take, length_fmap in He. lia. }
  exists (drop (Z.to_nat (size_ this)) b).
  unfold models. rewrite Hs, <- He, take_drop, length_drop.
  split_and!; first [lia | done].
Qed.

Lemma unchanged_outside_refl a h : unchanged_outside a h h.
Proof.
  by split.
Qed.

Lemma unchanged_outside_alloc a h h1 x :
  unchanged_outside a h h1 -> unchanged_outside a h (h1 ++ [x]).
Proof.
  intros [Hlen Hsame]. split.
  - rewrite length_app. lia.
  - intros l Hne Hl. rewrite lookup_app_l by lia. by apply Hsame.
Qed.

Lemma unchanged_outside_own a h h1 l x :
  unchanged_outside a h h1 -> base a = Some l ->
  unchanged_outside a h (<[l := x]> h1).
Proof.
  intros [Hlen Hsame] Hb. split.
  - by rewrite length_insert.
  - intros l' Hne Hl. rewrite list_lookup_insert_ne by congruence.
    by apply Hsame.
Qed.

Lemma unchanged_outside_fresh a h h1 l x :
  unchanged_outside a h h1 -> (length h <= l)%nat ->
  unchanged_outside a h (<[l := x]> h1).
Proof.
  intros [Hlen Hsame] Hb. split.
  - by rewrite length_insert.
  - intros l' Hne Hl. rewrite list_lookup_insert_ne by lia.
    by apply Hsame.
Qed.

Lemma storage_unchanged a h h' p :
  unchanged_outside a h h' -> base p <> base a ->
  is_Some (storage h p) -> storage h' p = storage h p.
Proof.
  intros [Hlen Hsame] Hne [b Hb]. unfold storage in *.
  destruct (base p) as [l|]; [|done].
  unfold block_at. rewrite Hsame; [done|congruence|].
  by apply block_at_lt in Hb.
Qed.

Lemma storage_null h p : base p = None -> storage h p = Some [].
Proof.
  unfold storage. by intros ->.
Qed.

(** A container that owns no block, or another block than [a], is not
    affected by a call that works on [a]. *)
Lemma elements_unchanged a h h' other :
  unchanged_outside a h h' ->
  base (array_ other) = None \/ base (array_ other) <> base a ->
  is_Some (elements h other) ->
  elements h' other = elements h other.
Proof.
  intros Hu Hne [xs He]. unfold elements, wf in *.
  destruct (storage h (array_ other)) as [b|] eqn:Hs;
    [|by rewrite andb_false_r in He].
  assert (storage h' (array_ other) = Some b) as ->; [|done].
  destruct (base (array_ other)) as [l|] eqn:Hb.
  - rewrite <- Hs. apply (storage_unchanged a); [done| |by rewrite Hs].
    destruct Hne as [|Hne]; [done|]. by rewrite Hb.
  - rewrite storage_null in * by done. done.
Qed.

End Abstraction.

(** * The member functions on a well-formed container *)

Section MemberFacts.

Context {T : Type}.

Implicit Types (h : heap T) (b rest : block T) (l : nat) (xs : list T).
Implicit Types (this : SimpleVector).


Lemma ArrayPtr_new_at h (c : Z) :
  ArrayPtr_new c h
  = Ok (Ptr (Some (length h)) 0,
        h ++ [Some (replicate (Z.to_nat c) None)]).
Proof.
  done.
Qed.

Lemma ArrayPtr_delete_release h a b :
  storage h a = Some b -> ArrayPtr_delete a h = Ok (tt, release a h).
Proof.
  unfold storage, ArrayPtr_delete, release.
  destruct (base a) as [l|]; [|done]. by intros ->.
Qed.

Lemma block_at_release a h l :
  base a <> Some l -> block_at (release a h) l = block_at h l.
Proof.
  unfold release. intros Hne. destruct (base a) as [l'|]; [|done].
  apply block_at_insert_ne. congruence.
Qed.

Lemma unchanged_outside_release a h h1 :
  unchanged_outside a h h1 -> unchanged_outside a h (release a h1).
Proof.
  unfold release. intros Hu. destruct (base a) as [l|] eqn:Hb; [|done].
  by apply unchanged_outside_own.
Qed.

Lemma storage_alloc_old h p x b :
  storage h p = Some b -> storage (h ++ [x]) p = Some b.
Proof.
  unfold storage. destruct (base p) as [l|]; [|done].
  intros Hb. rewrite block_at_alloc_old; [done|]. by eapply block_at_lt.
Qed.

Lemma storage_insert_ne h p l x :
  base p <> Some l -> storage (<[l := x]> h) p = storage h p.
Proof.
  unfold storage. intros Hne. destruct (base p) as [l'|]; [|done].
  apply block_at_insert_ne. congruence.
Qed.

Lemma storage_base_lt h p l b :
  base p = Some l -> storage h p = Some b -> (l < length h)%nat.
Proof.
  intros Hb. rewrite (storage_Some_block h p l Hb). apply block_at_lt.
Qed.

Lemma adopt_release h this new_array c b :
  storage h (array_ this) = Some b ->
  adopt this new_array c h
  = Ok ({| array_ := new_array; size_ := size_ this; capacity_ := c |},
        release (array_ this) h).
Proof.
  intros Hs. unfold adopt. simpl.
  by erewrite bind_Ok by (by eapply ArrayPtr_delete_release).
Qed.

(** Slots [0, n) of a fresh block overwritten by the elements [xs]. *)
Lemma splice_fresh (c : nat) xs :
  (length xs <= c)%nat ->
  splice (replicate c None) 0 (Some <$> xs)
  = (Some <$> xs) ++ replicate (c - length xs) (None : slot T).
Proof.
  intros Hle. unfold splice. simpl.
  by rewrite length_fmap, drop_replicate.
Qed.

Lemma models_base_lt h this xs rest l :
  models h this xs rest -> base (array_ this) = Some l ->
  (l < length h)%nat.
Proof.
  intros (_ & Hs & _) Hb. by eapply storage_base_lt.
Qed.

Lemma models_base_fresh h this xs rest :
  models h this xs rest -> base (array_ this) <> Some (length h).
Proof.
  intros Hm Hb. pose proof (models_base_lt _ _ _ _ _ Hm Hb). lia.
Qed.

(** Moving to a larger block: the code shared by [Reserve] and the growth
    branch of [PushBack]. *)
Lemma reallocate_spec h this xs rest (c : Z) :
  models h this xs rest ->
  Z.of_nat (length xs) <= c <= SIZE_MAX ->
  let this' :=
    {| array_ := Ptr (Some (length h)) 0; size_ := size_ this;
       capacity_ := c |} in
  exists h',
    (new_array <- ArrayPtr_new c;
     std_move (begin this) (end_ this) (Get new_array);;
     adopt this new_array c) h = Ok (this', h')
    /\ models h' this' xs (replicate (Z.to_nat c - length xs) None)
    /\ unchanged_outside (array_ this) h h'.
Proof.
  intros Hm Hc this'.
  pose proof (models_base_fresh _ _ _ _ Hm) as Hfresh.
  destruct Hm as (Ho & Hs & Hn & Hcap & Hmax).
  set (L := length h) in *.
  set (h1 := h ++ [Some (replicate (Z.to_nat c) None)]).
  set (h2 := <[L := Some ((Some <$> xs)
                          ++ replicate (Z.to_nat c - length xs) None)]> h1).
  exists (release (array_ this) h2).
  assert (Hmove :
    std_move (begin this) (end_ this) (Ptr (Some L) 0) h1
    = Ok (Ptr (Some L) 0 +p Z.of_nat (length xs), h2)).
  { unfold h2. rewrite <- splice_fresh by lia.
    assert (take (length xs) (drop 0 ((Some <$> xs) ++ rest))
            = Some <$> xs) as <-
      by (simpl; apply take_app_length'; by rewrite length_fmap).
    eapply (std_move_across h1 _ _ _ L 0 0); try done.
    - by apply storage_alloc_old.
    - unfold end_, Get. simpl. lia.
    - rewrite length_app, length_fmap. lia.
    - apply block_at_alloc.
    - rewrite length_replicate. lia. }
  split; [|split].
  - erewrite bind_Ok by apply ArrayPtr_new_at.
    erewrite bind_Ok by exact Hmove.
    apply (adopt_release h2 this _ c ((Some <$> xs) ++ rest)).
    unfold h2. rewrite storage_insert_ne by done.
    by apply storage_alloc_old.
  - unfold models, this'. simpl. split_and!; try lia.
    + unfold storage. simpl. rewrite block_at_release by done.
      unfold h2. rewrite block_at_insert_eq; [done|].
      unfold h1. rewrite length_app. simpl. lia.
    + rewrite length_replicate. lia.
  - apply unchanged_outside_release, unchanged_outside_fresh; [|done].
    apply unchanged_outside_alloc, unchanged_outside_refl.
Qed.

Lemma SIZE_MAX_eq : SIZE_MAX = 18446744073709551615.
Proof.
  done.
Qed.

Lemma to_size_t_id z : 0 <= z <= SIZE_MAX -> to_size_t z = z.
Proof.
  unfold to_size_t, SIZE_MAX. intros Hz. apply Z.mod_small. lia.
Qed.

Lemma unchanged_outside_trans a a' h h1 h2 :
  unchanged_outside a h h1 -> unchanged_outside a' h1 h2 ->
  same_or_fresh a a' h ->
  unchanged_outside a h h2.
Proof.
  intros [Hlen1 Hsame1] [Hlen2 Hsame2] [_ Hbase]. split; [lia|].
  intros l Hne Hl. rewrite Hsame2, Hsame1; try done; [|lia].
  destruct Hbase as [->|[->|(l' & -> & Hl')]]; [done..|].
  intros [= ->]. lia.
Qed.

Lemma same_or_fresh_refl a h : off a = 0 -> same_or_fresh a a h.
Proof.
  intros Ho. split; [done|]. right. by left.
Qed.

Lemma same_or_fresh_new a h : same_or_fresh a (Ptr (Some (length h)) 0) h.
Proof.
  split; [done|]. right. right. by exists (length h).
Qed.

(** Constructing one more element in the first reserved slot. *)
Lemma construct_at_end h this xs r rest x :
  models h this xs (r :: rest) ->
  exists h',
    construct_at (Get (array_ this) +p size_ this) x h = Ok (tt, h')
    /\ models h' (set_size this (size_ this + 1)) (xs ++ [x]) rest
    /\ unchanged_outside (array_ this) h h'.
Proof.
  intros (Ho & Hs & Hn & Hcap & Hmax).
  destruct (base (array_ this)) as [l|] eqn:Hb;
    [|by rewrite storage_null in Hs by done; destruct xs].
  rewrite (storage_Some_block h _ l Hb) in Hs.
  eexists. split; [|split].
  - unfold construct_at. eapply (store_at h _ l (length xs)); try done.
    + unfold Get. simpl. lia.
    + rewrite length_app, length_fmap. simpl. lia.
  - unfold models, set_size, storage. simpl. rewrite Hb.
    rewrite block_at_insert_eq by (by eapply block_at_lt).
    rewrite length_app in *. simpl in *.
    split_and!; try lia.
    rewrite <- (length_fmap Some xs) at 1.
    rewrite insert_app_r_alt, Nat.sub_diag by lia. simpl.
    by rewrite fmap_app, <- app_assoc.
  - apply unchanged_outside_own; [apply unchanged_outside_refl|done].
Qed.

Lemma Reserve_grow h this xs rest (c : Z) :
  models h this xs rest ->
  capacity_ this < c <= SIZE_MAX ->
  let this' :=
    {| array_ := Ptr (Some (length h)) 0; size_ := size_ this;
       capacity_ := c |} in
  exists h',
    Reserve this c h = Ok (this', h')
    /\ models h' this' xs (replicate (Z.to_nat c - length xs) None)
    /\ unchanged_outside (array_ this) h h'.
Proof.
  intros Hm Hc. unfold Reserve.
  destruct (Z.gtb_spec c (capacity_ this)); [|lia].
  apply (reallocate_spec h this xs rest); [done|].
  destruct Hm as (_ & _ & _ & Hcap & _). lia.
Qed.

Lemma Reserve_keep h this (c : Z) :
  c <= capacity_ this -> Reserve this c h = Ok (this, h).
Proof.
  intros Hc. unfold Reserve.
  by destruct (Z.gtb_spec c (capacity_ this)); [lia|].
Qed.


Lemma PushBack_spec h this xs rest x :
  models h this xs rest ->
  (size_ this = capacity_ this -> 2 * capacity_ this <= SIZE_MAX) ->
  exists this' h' rest',
    PushBack this x h = Ok (this', h')
    /\ models h' this' (xs ++ [x]) rest'
    /\ capacity_ this' = grown_capacity this
    /\ unchanged_outside (array_ this) h h'
    /\ same_or_fresh (array_ this) (array_ this') h.
Proof.
  intros Hm Hwrap. unfold PushBack, grown_capacity.
  pose proof Hm as (Ho & Hs & Hn & Hcap & Hmax).
  destruct (Z.eqb_spec (size_ this) (capacity_ this)) as [Hfull|Hroom].
  - specialize (Hwrap Hfull).
    set (c := if capacity_ this =? 0 then 1 else to_size_t (2 * capacity_ this)).
    assert (Hc : c = Z.max 1 (2 * capacity_ this)).
    { unfold c. destruct (Z.eqb_spec (capacity_ this) 0) as [->|]; [done|].
      rewrite to_size_t_id by lia. lia. }
    destruct (reallocate_spec h this xs rest c Hm) as (h1 & Hrun & Hm1 & Hu1);
      [pose proof SIZE_MAX_eq; lia|].
    erewrite bind_Ok by exact Hrun.
    destruct (Z.to_nat c - length xs)%nat as [|k] eqn:Hk; [lia|].
    destruct (construct_at_end h1 _ xs None (replicate k None) x Hm1)
      as (h2 & Hrun2 & Hm2 & Hu2).
    erewrite bind_Ok by exact Hrun2.
    eexists _, h2, _. split; [done|]. simpl in *. split; [|split; [|split]].
    + rewrite to_size_t_id by (pose proof SIZE_MAX_eq; lia). exact Hm2.
    + done.
    + eapply unchanged_outside_trans; eauto using same_or_fresh_new.
    + apply same_or_fresh_new.
  - destruct rest as [|r rest]; [simpl in *; lia|].
    erewrite bind_Ok by done.
    destruct (construct_at_end h this xs r rest x Hm)
      as (h2 & Hrun2 & Hm2 & Hu2).
    erewrite bind_Ok by exact Hrun2.
    eexists _, h2, _. split; [done|]. split; [|split; [|split]].
    + rewrite to_size_t_id; [exact Hm2|].
      simpl in Hcap. lia.
    + done.
    + done.
    + by apply same_or_fresh_refl.
Qed.

Lemma models_base_Some h this xs rest :
  models h this xs rest -> (0 < length xs + length rest)%nat ->
  exists l, base (array_ this) = Some l.
Proof.
  intros (_ & Hs & _) Hpos.
  destruct (base (array_ this)) as [l|] eqn:Hb; [by exists l|].
  rewrite storage_null in Hs by done. injection Hs as Hs.
  apply (f_equal length) in Hs.
  rewrite length_app, length_fmap in Hs. simpl in Hs. lia.
Qed.

Lemma models_storage_at h this xs rest (k : Z) :
  models h this xs rest ->
  storage h (begin this +p k) = Some ((Some <$> xs) ++ rest).
Proof.
  intros (_ & Hs & _). by rewrite (storage_base h _ (array_ this)).
Qed.

Lemma Insert_spec h this xs1 xs2 rest x :
  models h this (xs1 ++ xs2) rest ->
  (size_ this = capacity_ this -> 2 * capacity_ this <= SIZE_MAX) ->
  exists this' h' rest',
    Insert this (begin this +p Z.of_nat (length xs1)) x h
    = Ok ((this', begin this' +p Z.of_nat (length xs1)), h')
    /\ models h' this' (xs1 ++ x :: xs2) rest'
    /\ capacity_ this' = grown_capacity this
    /\ unchanged_outside (array_ this) h h'
    /\ same_or_fresh (array_ this) (array_ this') h
    /\ (size_ this = capacity_ this
        -> array_ this' = Ptr (Some (length h)) 0).
Proof.
  intros Hm Hwrap. unfold Insert, grown_capacity.
  pose proof (models_base_fresh _ _ _ _ Hm) as Hfresh.
  pose proof (fun k => models_storage_at h this _ rest k Hm) as Hst.
  pose proof Hm as (Ho & Hs & Hn & Hcap & Hmax).
  set (b := (Some <$> xs1 ++ xs2) ++ rest) in *.
  set (i := length xs1).
  assert (Hlen : length b = (i + length xs2 + length rest)%nat)
    by (unfold b, i; rewrite !length_app, length_fmap, length_app; lia).
  rewrite length_app in Hn, Hcap. fold i in Hn, Hcap.
  erewrite bind_Ok
    by (eapply (ptr_diff_in h _ _ b); [done|apply (Hst 0)|..];
        unfold begin, Get; simpl; lia).
  assert (to_size_t (off (begin this +p Z.of_nat i) - off (begin this))
          = Z.of_nat i) as ->.
  { unfold begin, Get. simpl. rewrite to_size_t_id; lia. }
  assert (Hsz : to_size_t (size_ this + 1) = size_ this + 1).
  { apply to_size_t_id.
    destruct (Z.eq_dec (size_ this) (capacity_ this)) as [E|E];
      [specialize (Hwrap E)|]; pose proof SIZE_MAX_eq; lia. }
  destruct (Z.eqb_spec (size_ this) (capacity_ this)) as [Hfull|Hroom].
  - specialize (Hwrap Hfull).
    assert (rest = []) as -> by (destruct rest; [done|simpl in *; lia]).
    set (c := if capacity_ this =? 0 then 1 else to_size_t (2 * capacity_ this)).
    assert (Hc : c = Z.max 1 (2 * capacity_ this)).
    { unfold c. destruct (Z.eqb_spec (capacity_ this) 0) as [->|]; [done|].
      rewrite to_size_t_id by lia. lia. }
    set (L := length h) in *.
    set (h1 := h ++ [Some (replicate (Z.to_nat c) None)]).
    set (blk2 := splice (replicate (Z.to_nat c) None) 0 (take i (drop 0 b))).
    set (h2 := <[L := Some blk2]> h1).
    set (blk3 := <[i := Some x]> blk2).
    set (h3 := <[L := Some blk3]> h2).
    set (blk4 := splice blk3 (S i) (take (length xs2) (drop i b))).
    set (h4 := <[L := Some blk4]> h3).
    assert (HL : (L < length h1)%nat)
      by (unfold h1; rewrite length_app; simpl; lia).
    assert (Hlen2 : length blk2 = Z.to_nat c).
    { unfold blk2. rewrite splice_length; rewrite ?length_replicate; [done|].
      rewrite length_take, length_drop. lia. }
    assert (Hst1 : forall k, storage h1 (begin this +p k) = Some b)
      by (intros k; by apply storage_alloc_old).
    erewrite (bind_Ok _ _ h
                {| array_ := Ptr (Some L) 0; size_ := size_ this;
                   capacity_ := c |} (release (array_ this) h4)).
    2:{ erewrite bind_Ok by apply ArrayPtr_new_at.
        erewrite (bind_Ok _ _ h1 _ h2).
        2:{ eapply (std_move_across h1 _ _ _ L 0 0 i b); try done.
            - apply (Hst1 0).
            - unfold begin, Get. simpl. lia.
            - lia.
            - apply block_at_alloc.
            - rewrite length_replicate. lia. }
        erewrite (bind_Ok _ _ h2 _ h3).
        2:{ eapply (store_at h2 _ L i blk2); try done.
            - by apply block_at_insert_eq.
            - lia. }
        erewrite (bind_Ok _ _ h3 _ h4).
        2:{ eapply (std_move_across h3 _ _ _ L i (S i) (length xs2) b);
              try done.
            - unfold h3, h2. rewrite !storage_insert_ne by done. apply Hst1.
            - unfold begin, Get. simpl. lia.
            - unfold end_, Get. simpl. lia.
            - lia.
            - simpl. lia.
            - apply block_at_insert_eq. unfold h2. by rewrite length_insert.
            - unfold blk3. rewrite length_insert. lia. }
        apply (adopt_release h4 this _ c b).
        unfold h4, h3, h2. rewrite !storage_insert_ne by done.
        apply (Hst1 0). }
    eexists _, _, (replicate (Z.to_nat c - length (xs1 ++ xs2) - 1) None).
    split; [done|]. simpl. split; [|split; [|split; [|split]]]; [| | | |done].
    + unfold models. simpl. rewrite Hsz.
      rewrite !length_app, length_replicate. simpl.
      split_and!; try (pose proof SIZE_MAX_eq; lia).
      unfold storage. simpl. rewrite block_at_release by done.
      unfold h4. rewrite block_at_insert_eq
        by (unfold h3, h2; by rewrite !length_insert).
      f_equal. unfold blk4, blk3, blk2, b, i.
      rewrite app_nil_r, !fmap_app. simpl.
      rewrite <- (length_fmap Some xs1), <- (length_fmap Some xs2).
      rewrite splice_around by (rewrite !length_fmap; lia).
      by rewrite <- app_assoc, length_app.
    + done.
    + apply unchanged_outside_release.
      do 3 (apply unchanged_outside_fresh; [|done]).
      apply unchanged_outside_alloc, unchanged_outside_refl.
    + apply same_or_fresh_new.
  - destruct rest as [|r rest]; [simpl in *; lia|].
    destruct (models_base_Some _ _ _ _ Hm) as [l Hb]; [simpl; lia|].
    pose proof Hs as Hblk. rewrite (storage_Some_block h _ l Hb) in Hblk.
    set (blk1 := splice b (S i) (take (length xs2) (drop i b))).
    set (h1 := <[l := Some blk1]> h).
    assert (Hl : (l < length h)%nat) by (by eapply block_at_lt).
    erewrite (bind_Ok _ _ h this (<[l := Some (<[i := Some x]> blk1)]> h1)).
    2:{ erewrite (bind_Ok _ _ h _ h1).
        2:{ eapply (std_move_backward_within h _ _ _ l i (S i)
                      (length xs2) b); try done.
            - unfold begin, Get. simpl. lia.
            - unfold end_, Get. simpl. lia.
            - unfold end_, Get. simpl. lia.
            - lia.
            - simpl in *. lia. }
        erewrite bind_Ok; [done|].
        eapply (store_at h1 _ l i blk1); try done.
        - unfold Get. simpl. lia.
        - by apply block_at_insert_eq.
        - unfold blk1. rewrite splice_length;
            rewrite ?length_take, ?length_drop; simpl in *; lia. }
    eexists _, _, rest. split; [done|]. simpl.
    split; [|split; [|split; [|split]]]; [| | | |done].
    + unfold models, storage. simpl. rewrite Hsz, Hb.
      rewrite !length_app in *. simpl in *.
      split_and!; try lia.
      unfold h1. rewrite list_insert_insert_eq, block_at_insert_eq by done.
      f_equal. unfold blk1, b, i.
      rewrite !fmap_app. simpl.
      rewrite <- (length_fmap Some xs1), <- (length_fmap Some xs2).
      rewrite <- !app_assoc.
      by rewrite shift_right_insert.
    + done.
    + do 2 (apply unchanged_outside_own; [|done]).
      apply unchanged_outside_refl.
    + by apply same_or_fresh_refl.
Qed.

Lemma Erase_spec h this xs1 y xs2 rest :
  models h this (xs1 ++ y :: xs2) rest ->
  let this' := set_size this (size_ this - 1) in
  exists h' rest',
    Erase this (begin this +p Z.of_nat (length xs1)) h
    = Ok ((this', begin this' +p Z.of_nat (length xs1)), h')
    /\ models h' this' (xs1 ++ xs2) rest'
    /\ unchanged_outside (array_ this) h h'.
Proof.
  intros Hm this'. unfold Erase.
  pose proof (fun k => models_storage_at h this _ rest k Hm) as Hst.
  pose proof Hm as (Ho & Hs & Hn & Hcap & Hmax).
  set (b := (Some <$> xs1 ++ y :: xs2) ++ rest) in *.
  set (i := length xs1).
  assert (Hlen : length b = (i + S (length xs2) + length rest)%nat)
    by (unfold b, i; rewrite !length_app, length_fmap, length_app; done).
  rewrite length_app in Hn, Hcap. simpl in Hn, Hcap. fold i in Hn, Hcap.
  erewrite bind_Ok
    by (eapply (ptr_diff_in h _ _ b); [done|apply (Hst 0)|..];
        unfold begin, Get; simpl; lia).
  assert (to_size_t (off (begin this +p Z.of_nat i) - off (begin this))
          = Z.of_nat i) as ->.
  { unfold begin, Get. simpl. rewrite to_size_t_id; lia. }
  assert (Hsz : to_size_t (size_ this - 1) = size_ this - 1).
  { apply to_size_t_id. lia. }
  rewrite Hsz. fold this'.
  destruct (models_base_Some _ _ _ _ Hm) as [l Hb];
    [rewrite length_app; simpl; lia|].
  pose proof Hs as Hblk. rewrite (storage_Some_block h _ l Hb) in Hblk.
  destruct (Z.ltb_spec (Z.of_nat i) (size_ this - 1)) as [Hmid|Hlast].
  - destruct (shift_left_erase (Some <$> xs1) (Some <$> xs2) rest (Some y))
      as [z Hz].
    rewrite !length_fmap in Hz. fold i in Hz.
    erewrite (bind_Ok _ _ h tt).
    2:{ erewrite bind_Ok; [done|].
        eapply (std_move_within h _ _ _ l (S i) i (length xs2) b);
          try done.
        - unfold begin, Get. simpl. lia.
        - unfold end_, Get. simpl. lia.
        - unfold begin, Get. simpl. lia.
        - lia.
        - lia. }
    eexists _, (z :: rest). split; [done|]. split.
    + unfold models, this', storage. simpl. rewrite Hb.
      rewrite block_at_insert_eq by (by eapply block_at_lt).
      rewrite !length_app. simpl.
      split_and!; try lia.
      f_equal. unfold b. rewrite !fmap_app, <- !app_assoc. exact Hz.
    + apply unchanged_outside_own; [apply unchanged_outside_refl|done].
  - assert (xs2 = []) as -> by (destruct xs2; [done|simpl in *; lia]).
    erewrite (bind_Ok _ _ h tt h) by done.
    eexists _, (Some y :: rest). split; [done|]. split.
    + unfold models, this'. simpl. rewrite Hs.
      rewrite !length_app in *. simpl in *.
      split_and!; try lia.
      f_equal. unfold b. by rewrite app_nil_r, fmap_app, <- app_assoc.
    + apply unchanged_outside_refl.
Qed.

(** [Erase] at the end position of a container that is not empty: no
    element is moved and the size goes down by one. *)
Lemma Erase_end h this xs y rest :
  models h this (xs ++ [y]) rest ->
  let this' := set_size this (size_ this - 1) in
  Erase this (end_ this) h = Ok ((this', end_ this), h)
  /\ models h this' xs (Some y :: rest).
Proof.
  intros Hm this'. unfold Erase.
  pose proof (fun k => models_storage_at h this _ rest k Hm) as Hst.
  pose proof Hm as (Ho & Hs & Hn & Hcap & Hmax).
  rewrite length_app in Hn, Hcap. simpl in Hn, Hcap.
  erewrite bind_Ok.
  2:{ eapply (ptr_diff_in h _ _ _); [done|apply (Hst 0)|..];
        rewrite !length_app, length_fmap, length_app;
        unfold begin, end_, Get; simpl; lia. }
  assert (to_size_t (off (end_ this) - off (begin this)) = size_ this) as ->.
  { unfold begin, end_, Get. simpl. rewrite to_size_t_id; lia. }
  rewrite (to_size_t_id (size_ this - 1)) by lia. fold this'.
  destruct (Z.ltb_spec (size_ this) (size_ this - 1)); [lia|].
  split.
  - erewrite (bind_Ok _ _ h tt h) by done.
    by unfold ret, begin, end_, Get, this'.
  - unfold models, this'. simpl. rewrite Hs, fmap_app, <- app_assoc.
    simpl in *. split_and!; try lia. done.
Qed.

(** [Erase] on an empty container: the range handed to [std::move] starts
    after its end. *)
Lemma Erase_empty h this rest :
  models h this [] rest ->
  Erase this (end_ this) h = Undefined.
Proof.
  intros Hm. unfold Erase.
  pose proof (fun k => models_storage_at h this _ rest k Hm) as Hst.
  pose proof Hm as (Ho & Hs & Hn & Hcap & Hmax). simpl in *.
  erewrite bind_Ok
    by (eapply (ptr_diff_in h _ _ _); [done|apply (Hst 0)|..];
        unfold begin, end_, Get; simpl; lia).
  assert (to_size_t (off (end_ this) - off (begin this)) = 0) as ->.
  { unfold begin, end_, Get. simpl. rewrite to_size_t_id; lia. }
  rewrite Hn.
  replace (0 <? to_size_t (0 - 1)) with true by done.
  do 2 (apply bind_Undefined). unfold std_move.
  apply bind_Undefined, distance_reversed.
  unfold begin, end_, Get. simpl. lia.
Qed.

Lemma SimpleVector_copy_spec h other xs rest :
  models h other xs rest ->
  let this :=
    {| array_ := Ptr (Some (length h)) 0; size_ := size_ other;
       capacity_ := size_ other |} in
  exists h',
    SimpleVector_copy other h = Ok (this, h')
    /\ models h' this xs []
    /\ unchanged_outside (array_ this) h h'.
Proof.
  intros Hm this. unfold SimpleVector_copy, std_copy.
  pose proof (models_base_fresh _ _ _ _ Hm) as Hfresh.
  pose proof Hm as (Ho & Hs & Hn & Hcap & Hmax).
  set (n := length xs) in *.
  set (h1 := h ++ [Some (replicate (Z.to_nat (size_ other)) None)]).
  set (blk := splice (replicate (Z.to_nat (size_ other)) (None : slot T)) 0
                (take n (drop 0 ((Some <$> xs) ++ rest)))).
  exists (<[length h := Some blk]> h1).
  split; [|split].
  - erewrite bind_Ok by apply ArrayPtr_new_at.
    erewrite bind_Ok; [done|].
    eapply (std_move_across h1 _ _ _ (length h) 0 0 n); try done.
    + by apply storage_alloc_old.
    + unfold end_, Get. simpl. lia.
    + rewrite length_app, length_fmap. lia.
    + apply block_at_alloc.
    + rewrite length_replicate. lia.
  - unfold models, this, storage. simpl.
    rewrite block_at_insert_eq
      by (unfold h1; rewrite length_app; simpl; lia).
    split_and!; try lia.
    f_equal. unfold blk. rewrite drop_0.
    rewrite take_app_length' by (by rewrite length_fmap).
    rewrite splice_fresh by (fold n; lia).
    fold n. by replace (Z.to_nat (size_ other) - n)%nat with 0%nat by lia.
  - apply unchanged_outside_fresh; [|done].
    apply unchanged_outside_alloc, unchanged_outside_refl.
Qed.

End MemberFacts.

(** * Every call keeps the representation invariant *)

Section Invariant.

Context {T : Type}.

Context (Type_ : T).

Implicit Types (h : heap T) (b : block T) (l : nat) (this : SimpleVector).

Lemma to_size_t_range z : 0 <= to_size_t z <= SIZE_MAX.
Proof.
  unfold to_size_t, SIZE_MAX.
  pose proof (Z.mod_pos_bound z (2 ^ 64)). lia.
Qed.

Lemma wf_inv h this :
  wf h this = true ->
  off (array_ this) = 0
  /\ 0 <= size_ this <= capacity_ this
  /\ capacity_ this <= SIZE_MAX
  /\ exists b, storage h (array_ this) = Some b
       /\ Z.of_nat (length b) = capacity_ this.
Proof.
  unfold wf. destruct (storage h (array_ this)) as [b|];
    [|by rewrite andb_false_r].
  intros Hwf. repeat (apply andb_prop in Hwf as [Hwf ?]).
  split_and!; try lia. exists b. split; [done|lia].
Qed.

Lemma wf_intro h this b :
  off (array_ this) = 0 ->
  0 <= size_ this <= capacity_ this ->
  capacity_ this <= SIZE_MAX ->
  storage h (array_ this) = Some b ->
  Z.of_nat (length b) = capacity_ this ->
  wf h this = true.
Proof.
  intros Ho Hs Hc Hst Hlen. unfold wf. rewrite Hst.
  repeat (apply andb_true_intro; split);
    first [apply Z.eqb_eq | apply Z.leb_le]; lia.
Qed.

Lemma wf_base_lt h this l :
  wf h this = true -> base (array_ this) = Some l -> (l < length h)%nat.
Proof.
  intros (_ & _ & _ & b & Hs & _)%wf_inv Hb. by eapply storage_base_lt.
Qed.

Lemma wf_default h : wf h SimpleVector_default = true.
Proof.
  done.
Qed.

Lemma writes_to_length a h h' l b b' :
  writes_to a h h' -> block_at h l = Some b -> block_at h' l = Some b' ->
  length b' = length b.
Proof.
  intros (_ & _ & Hlive) Hb Hb'.
  destruct (Hlive l b Hb) as (b0 & Hb0 & Hlen). congruence.
Qed.

Lemma writes_to_storage a h h' p b :
  writes_to a h h' -> storage h p = Some b ->
  exists b', storage h' p = Some b' /\ length b' = length b.
Proof.
  intros (_ & _ & Hlive). unfold storage.
  destruct (base p) as [l|]; [apply Hlive|]. intros [= <-]. by exists [].
Qed.

Lemma writes_to_unchanged p h h' :
  writes_to (base p) h h' -> unchanged_outside p h h'.
Proof.
  intros (Hlen & Hsame & _). split; [lia|]. intros l Hne _. by apply Hsame.
Qed.

Lemma call_ok_refl h this : wf h this = true -> call_ok h this h this.
Proof.
  intros Hwf. split_and!; [done|apply unchanged_outside_refl|].
  apply same_or_fresh_refl. by apply wf_inv in Hwf as (? & _).
Qed.

(** A call that wrote into the block of [this] only and left a size within
    the capacity. *)
Lemma same_ok h this h' (size' : Z) :
  wf h this = true ->
  writes_to (base (array_ this)) h h' ->
  0 <= size' <= capacity_ this ->
  call_ok h this h' (set_size this size').
Proof.
  intros Hwf Hw Hs.
  pose proof Hwf as (Ho & _ & Hc & b & Hst & Hlen)%wf_inv.
  destruct (writes_to_storage _ _ _ _ _ Hw Hst) as (b' & Hst' & Hlen').
  split_and!.
  - apply (wf_intro _ _ b'); simpl; try done. lia.
  - by apply writes_to_unchanged.
  - by apply same_or_fresh_refl.
Qed.

(** A call that allocated a block of [c] slots, wrote into it only,
    released the block of [this] and wrote into the new block again. *)
Lemma grow_block h this (c : Z) h2 :
  wf h this = true ->
  writes_to (Some (length h)) (allocated h c) h2 ->
  exists b,
    block_at h2 (length h) = Some b
    /\ block_at (release (array_ this) h2) (length h) = Some b
    /\ length b = Z.to_nat c.
Proof.
  intros Hwf (_ & _ & Hlive).
  destruct (Hlive (length h) _ (block_at_alloc h _)) as (b & Hb & Hlen).
  exists b. rewrite length_replicate in Hlen. split_and!; try done.
  rewrite block_at_release; [done|].
  intros Hb'. apply (wf_base_lt h) in Hb'; [lia|done].
Qed.

Lemma grow_ok h this (c : Z) h2 h3 (size' : Z) :
  wf h this = true ->
  writes_to (Some (length h)) (allocated h c) h2 ->
  writes_to (Some (length h)) (release (array_ this) h2) h3 ->
  0 <= size' <= c -> c <= SIZE_MAX ->
  call_ok h this h3
    {| array_ := Ptr (Some (length h)) 0; size_ := size'; capacity_ := c |}.
Proof.
  intros Hwf Hw2 Hw3 Hs Hc.
  destruct (grow_block h this c h2 Hwf Hw2) as (b & _ & Hb & Hlen).
  pose proof Hw3 as (Hlen3 & Hsame3 & Hlive3).
  destruct (Hlive3 _ _ Hb) as (b3 & Hb3 & Hlen3').
  pose proof Hw2 as (Hlen2 & Hsame2 & _).
  split_and!.
  - apply (wf_intro _ _ b3); simpl; try done; lia.
  - apply (writes_to_unchanged (Ptr (Some (length h)) 0)) in Hw3.
    assert (Hu : unchanged_outside (array_ this) h (release (array_ this) h2)).
    { apply unchanged_outside_release. split.
      - rewrite Hlen2. unfold allocated. rewrite length_app. lia.
      - intros l Hne Hl. rewrite Hsame2 by (intros [= <-]; lia).
        unfold allocated. by rewrite lookup_app_l. }
    eapply (unchanged_outside_trans _ (Ptr (Some (length h)) 0)); try done.
    apply same_or_fresh_new.
  - apply same_or_fresh_new.
Qed.

Lemma ArrayPtr_new_inv (c : Z) h a h' :
  ArrayPtr_new c h = Ok (a, h') ->
  a = Ptr (Some (length h)) 0 /\ h' = allocated h c.
Proof.
  by intros [= <- <-].
Qed.

Lemma PushBack_ok h this x this' h' :
  wf h this = true ->
  PushBack this x h = Ok (this', h') ->
  call_ok h this h' this'.
Proof.
  intros Hwf Hrun. unfold PushBack in Hrun.
  pose proof Hwf as (Ho & Hsz & Hc & b & Hst & Hlen)%wf_inv.
  apply bind_inv in Hrun as (this1 & h1 & Hgrow & Hrun).
  apply bind_inv in Hrun as ([] & h2 & Hcons & [= -> ->]%ret_inv).
  pose proof (store_writes _ _ _ _ _ Hcons) as Hw.
  apply store_inv in Hcons as (l & b1 & Hb & Hblk & Hoff & _).
  unfold Get in *. simpl in Hb, Hoff, Hw.
  destruct (size_ this =? capacity_ this).
  - apply bind_inv in Hgrow as (a & h0 & [-> ->]%ArrayPtr_new_inv & Hgrow).
    apply bind_inv in Hgrow as (p & h3 & (Hw3 & _)%std_move_inv & Hgrow).
    apply adopt_inv in Hgrow as [-> ->]. simpl in *.
    destruct (grow_block h this _ h3 Hwf Hw3) as (b3 & _ & Hb3 & Hlen3).
    injection Hb as <-. rewrite Hb3 in Hblk. injection Hblk as <-.
    set (c := if capacity_ this =? 0 then 1 else _) in *.
    assert (Hc' : 0 <= c <= SIZE_MAX).
    { unfold c. destruct (capacity_ this =? 0); [|apply to_size_t_range].
      pose proof SIZE_MAX_eq. lia. }
    rewrite to_size_t_id by lia.
    apply (grow_ok h this c h3); try done; lia.
  - apply ret_inv in Hgrow as [= -> ->].
    rewrite (storage_Some_block h _ l Hb), Hblk in Hst. injection Hst as <-.
    rewrite to_size_t_id by lia.
    apply same_ok; [done|done|lia].
Qed.

Lemma PopBack_ok h this this' h' :
  wf h this = true ->
  PopBack false this h = Ok (this', h') ->
  call_ok h this h' this'.
Proof.
  intros Hwf Hrun. unfold PopBack, assert in Hrun.
  pose proof Hwf as (Ho & Hsz & Hc & _)%wf_inv.
  destruct (Z.gtb_spec (size_ this) 0); [|done].
  apply bind_inv in Hrun as ([] & h1 & [= ->]%ret_inv & [= -> ->]%ret_inv).
  rewrite to_size_t_id by lia.
  apply same_ok; [done|apply writes_to_refl|lia].
Qed.

Lemma Insert_ok h this pos x this' it h' :
  wf h this = true ->
  Insert this pos x h = Ok ((this', it), h') ->
  call_ok h this h' this'.
Proof.
  intros Hwf Hrun. unfold Insert in Hrun.
  pose proof Hwf as (Ho & Hsz & Hc & b & Hst & Hlen)%wf_inv.
  apply bind_inv in Hrun as (d & h0 & Hd & Hrun).
  apply ptr_diff_inv in Hd as (-> & -> & Hbase & b0 & Hst0 & _ & Hpos).
  unfold begin, end_, Get in *. rewrite Hst in Hst0. injection Hst0 as <-.
  rewrite Ho, Z.sub_0_r in Hrun.
  rewrite (to_size_t_id (off pos)) in Hrun by lia.
  apply bind_inv in Hrun as (this1 & h1 & Hbody & [= -> -> ->]%ret_inv).
  destruct (Z.eqb_spec (size_ this) (capacity_ this)) as [Hfull|Hroom].
  - apply bind_inv in Hbody as (a & h2 & [-> ->]%ArrayPtr_new_inv & Hbody).
    apply bind_inv in Hbody as (p1 & h3 & (Hw3 & _)%std_move_inv & Hbody).
    apply bind_inv in Hbody as ([] & h4 & Hcons & Hbody).
    pose proof (store_writes _ _ _ _ _ Hcons) as Hw4.
    apply store_inv in Hcons as (l & b3 & Hb & Hblk3 & Hoff & _).
    apply bind_inv in Hbody as (p2 & h5 & (Hw5 & Hle & Hin)%std_move_inv
                                  & Hbody).
    apply adopt_inv in Hbody as [-> ->]. simpl in *.
    injection Hb as <-.
    destruct (grow_block h this _ h3 Hwf Hw3) as (b3' & Hb3 & _ & Hlen3).
    rewrite Hb3 in Hblk3. injection Hblk3 as <-.
    set (c := if capacity_ this =? 0 then 1 else _) in *.
    assert (Hc' : 0 <= c <= SIZE_MAX).
    { unfold c. destruct (capacity_ this =? 0); [|apply to_size_t_range].
      pose proof SIZE_MAX_eq. lia. }
    assert (Hfit : size_ this + 1 <= c).
    { destruct (Z.eq_dec (off pos) (size_ this)) as [Heq|Hne]; [lia|].
      destruct Hin as (l & b4 & [= <-] & Hblk4 & _ & Hlen4); [lia|].
      rewrite (writes_to_length _ _ _ _ _ _ Hw4 Hb3 Hblk4) in Hlen4. lia. }
    rewrite to_size_t_id by lia.
    apply (grow_ok h this c h5 _); try done; try lia.
    + eapply writes_to_trans; [|exact Hw5].
      eapply writes_to_trans; [exact Hw3|exact Hw4].
    + apply writes_to_refl.
  - apply bind_inv in Hbody as (p1 & h2 & (Hw2 & _)%std_move_backward_inv
                                  & Hbody).
    apply bind_inv in Hbody as ([] & h3 & Hw3%store_writes
                                  & [= -> ->]%ret_inv).
    simpl in Hw2, Hw3.
    rewrite to_size_t_id by lia.
    apply same_ok; [done|by eapply writes_to_trans|lia].
Qed.

Lemma Erase_ok h this pos this' it h' :
  wf h this = true ->
  Erase this pos h = Ok ((this', it), h') ->
  call_ok h this h' this'.
Proof.
  intros Hwf Hrun. unfold Erase in Hrun.
  pose proof Hwf as (Ho & Hsz & Hc & b & Hst & Hlen)%wf_inv.
  apply bind_inv in Hrun as (d & h0 & Hd & Hrun).
  apply ptr_diff_inv in Hd as (-> & -> & Hbase & b0 & Hst0 & _ & Hpos).
  unfold begin, end_, Get in *. rewrite Hst in Hst0. injection Hst0 as <-.
  rewrite Ho, Z.sub_0_r in Hrun.
  rewrite (to_size_t_id (off pos)) in Hrun by lia.
  apply bind_inv in Hrun as ([] & h1 & Hbody & [= -> -> ->]%ret_inv).
  pose proof (to_size_t_range (size_ this - 1)) as Hrange.
  destruct (Z.ltb_spec (off pos) (to_size_t (size_ this - 1))) as [Hlt|Hge].
  - apply bind_inv in Hbody as (p & h2 & (Hw & Hle & _)%std_move_inv
                                 & [= ->]%ret_inv).
    simpl in Hw, Hle.
    rewrite to_size_t_id by lia.
    apply same_ok; [done|done|lia].
  - apply ret_inv in Hbody as [= ->].
    apply same_ok; [done|apply writes_to_refl|].
    destruct (Z.eq_dec (size_ this) 0) as [Hz|Hnz]; [lia|].
    rewrite to_size_t_id by lia. lia.
Qed.

Lemma Reserve_ok h this (c : Z) this' h' :
  wf h this = true ->
  c <= SIZE_MAX ->
  Reserve this c h = Ok (this', h') ->
  call_ok h this h' this'.
Proof.
  intros Hwf Hmax Hrun. unfold Reserve in Hrun.
  pose proof Hwf as (Ho & Hsz & Hc & _)%wf_inv.
  destruct (Z.gtb_spec c (capacity_ this)).
  - apply bind_inv in Hrun as (a & h2 & [-> ->]%ArrayPtr_new_inv & Hrun).
    apply bind_inv in Hrun as (p & h3 & (Hw3 & _)%std_move_inv & Hrun).
    apply adopt_inv in Hrun as [-> ->].
    apply (grow_ok h this c h3); try done; try lia. apply writes_to_refl.
  - apply ret_inv in Hrun as [= -> ->]. by apply call_ok_refl.
Qed.

Lemma Resize_ok h this (n : Z) this' h' :
  wf h this = true ->
  0 <= n <= SIZE_MAX ->
  Resize Type_ this n h = Ok (this', h') ->
  call_ok h this h' this'.
Proof.
  intros Hwf Hn Hrun. unfold Resize, construct_range in Hrun.
  pose proof Hwf as (Ho & Hsz & Hc & _)%wf_inv.
  apply bind_inv in Hrun as (this1 & h1 & Hbody & [= -> ->]%ret_inv).
  destruct (Z.gtb_spec n (capacity_ this)).
  - apply bind_inv in Hbody as (a & h2 & [-> ->]%ArrayPtr_new_inv & Hbody).
    apply bind_inv in Hbody as (p & h3 & (Hw3 & _)%std_move_inv & Hbody).
    apply bind_inv in Hbody as ([] & h4 & Hw4%construct_loop_writes & Hbody).
    apply adopt_inv in Hbody as [-> ->]. simpl in *.
    apply (grow_ok h this n h4); try done; try lia.
    + by eapply writes_to_trans.
    + apply writes_to_refl.
  - apply bind_inv in Hbody as ([] & h2 & Hfill & [= -> ->]%ret_inv).
    apply same_ok; [done| |lia].
    destruct (n >? size_ this).
    + by apply construct_loop_writes in Hfill.
    + apply ret_inv in Hfill as [= ->]. apply writes_to_refl.
Qed.

Lemma Clear_ok h this : wf h this = true -> call_ok h this h (Clear this).
Proof.
  intros Hwf. pose proof Hwf as (_ & Hsz & _)%wf_inv.
  apply same_ok; [done|apply writes_to_refl|lia].
Qed.

(** A constructor leaves a well-formed container in a new block. *)
Lemma constructed_ok h (c : Z) h2 (size' : Z) :
  writes_to (Some (length h)) (allocated h c) h2 ->
  0 <= size' <= c -> c <= SIZE_MAX ->
  call_ok h SimpleVector_default h2
    {| array_ := Ptr (Some (length h)) 0; size_ := size'; capacity_ := c |}.
Proof.
  intros Hw Hs Hc.
  apply (grow_ok h SimpleVector_default c h2 h2); try done.
  apply writes_to_refl.
Qed.

Lemma SimpleVector_sized_ok h (n : Z) this h' :
  0 <= n <= SIZE_MAX ->
  SimpleVector_sized Type_ n h = Ok (this, h') ->
  call_ok h SimpleVector_default h' this.
Proof.
  intros Hn Hrun. unfold SimpleVector_sized in Hrun.
  apply bind_inv in Hrun as (a & h2 & [-> ->]%ArrayPtr_new_inv & Hrun).
  apply bind_inv in Hrun as ([] & h3 & Hw%std_fill_inv & [= -> ->]%ret_inv).
  apply constructed_ok; [done|lia..].
Qed.

Lemma SimpleVector_filled_ok h (n : Z) (value : T) this h' :
  0 <= n <= SIZE_MAX ->
  SimpleVector_filled n value h = Ok (this, h') ->
  call_ok h SimpleVector_default h' this.
Proof.
  intros Hn Hrun. unfold SimpleVector_filled in Hrun.
  apply bind_inv in Hrun as (a & h2 & [-> ->]%ArrayPtr_new_inv & Hrun).
  apply bind_inv in Hrun as ([] & h3 & Hw%std_fill_inv & [= -> ->]%ret_inv).
  apply constructed_ok; [done|lia..].
Qed.

Lemma SimpleVector_reserved_ok h (c : Z) this h' :
  0 <= c <= SIZE_MAX ->
  SimpleVector_reserved (Reserve_proxy c) h = Ok (this, h') ->
  call_ok h SimpleVector_default h' this.
Proof.
  intros Hn Hrun. unfold SimpleVector_reserved in Hrun.
  apply bind_inv in Hrun as (a & h2 & [-> ->]%ArrayPtr_new_inv
                               & [= -> ->]%ret_inv).
  apply constructed_ok; [apply writes_to_refl|simpl; lia..].
Qed.

Lemma SimpleVector_init_ok h (init : list T) this h' :
  SimpleVector_init init h = Ok (this, h') ->
  call_ok h SimpleVector_default h' this.
Proof.
  intros Hrun. unfold SimpleVector_init in Hrun.
  pose proof (to_size_t_range (Z.of_nat (length init))).
  apply bind_inv in Hrun as (a & h2 & [-> ->]%ArrayPtr_new_inv & Hrun).
  apply bind_inv in Hrun as ([] & h3 & Hw%copy_list_writes
                               & [= -> ->]%ret_inv).
  apply constructed_ok; [done|lia..].
Qed.

Lemma SimpleVector_copy_inv h other this h' :
  SimpleVector_copy other h = Ok (this, h') ->
  this = {| array_ := Ptr (Some (length h)) 0; size_ := size_ other;
            capacity_ := size_ other |}
  /\ writes_to (Some (length h)) (allocated h (size_ other)) h'.
Proof.
  intros Hrun. unfold SimpleVector_copy, std_copy in Hrun.
  apply bind_inv in Hrun as (a & h2 & [-> ->]%ArrayPtr_new_inv & Hrun).
  apply bind_inv in Hrun as (p & h3 & (Hw & _)%std_move_inv
                               & [= -> ->]%ret_inv).
  done.
Qed.

Lemma SimpleVector_copy_ok h other this h' :
  wf h other = true ->
  SimpleVector_copy other h = Ok (this, h') ->
  call_ok h SimpleVector_default h' this.
Proof.
  intros (_ & Hsz & Hc & _)%wf_inv [-> Hw]%SimpleVector_copy_inv.
  apply constructed_ok; [done|lia..].
Qed.

(** ** Program states *)

Implicit Types (objs : objects).

Lemma SimpleVector_eta this :
  {| array_ := array_ this; size_ := size_ this;
     capacity_ := capacity_ this |} = this.
Proof.
  by destruct this.
Qed.

Lemma wf_empty h :
  wf h {| array_ := nullptr; size_ := 0; capacity_ := 0 |} = true.
Proof.
  done.
Qed.

Lemma object_inv objs i h v h' :
  object objs i h = Ok (v, h') -> objs !! i = Some v /\ h' = h.
Proof.
  unfold object. destruct (objs !! i) as [v0|]; [|done].
  by intros [= -> ->]%ret_inv.
Qed.

(** A call on one container does not affect a container with another
    block. *)
Lemma call_ok_frame h this h' this' other :
  call_ok h this h' this' ->
  wf h other = true ->
  (forall l, base (array_ other) = Some l -> base (array_ this) <> Some l) ->
  wf h' other = true.
Proof.
  intros (_ & Hu & _) Hwf Hne.
  pose proof Hwf as (Ho & Hsz & Hc & b & Hst & Hlen)%wf_inv.
  apply (wf_intro _ _ b); try done.
  destruct (base (array_ other)) as [l|] eqn:Hb.
  - rewrite <- Hst.
    apply (storage_unchanged (array_ this));
      [done | rewrite Hb; intros E; by apply (Hne l) | by rewrite Hst].
  - by rewrite storage_null in * by done.
Qed.

Lemma store_wf_update h objs i v h' v' :
  store_wf h objs -> objs !! i = Some v -> call_ok h v h' v' ->
  store_wf h' (<[i := v']> objs).
Proof.
  intros [Hwf Hdist] Hi Hok. split.
  - intros k u [(-> & -> & _)|[Hne Hk]]%list_lookup_insert_Some.
    + by destruct Hok.
    + eapply call_ok_frame; eauto.
  - destruct Hok as (_ & _ & _ & Hbase).
    assert (Hnew : forall k u l,
              k <> i -> objs !! k = Some u ->
              base (array_ v') = Some l -> base (array_ u) <> Some l).
    { intros k u l Hne Hk Hl Hu.
      destruct Hbase as [Hnull|[Hsame|(l' & Hl' & Hfresh)]].
      - congruence.
      - rewrite Hsame in Hl. by eapply (Hdist i k).
      - rewrite Hl in Hl'. injection Hl' as <-.
        pose proof (wf_base_lt h u l (Hwf k u Hk) Hu). lia. }
    intros k1 k2 u1 u2 l Hne
      [(-> & -> & _)|[Hne1 Hk1]]%list_lookup_insert_Some
      [(-> & -> & _)|[Hne2 Hk2]]%list_lookup_insert_Some Hl; try done.
    + apply (Hnew k2 u2 l); [congruence|done..].
    + intros Hl2. apply (Hnew k1 u1 l); [congruence|done..].
    + by apply (Hdist k1 k2 u1 u2 l).
Qed.

Lemma store_wf_new h objs h' v' :
  store_wf h objs -> call_ok h SimpleVector_default h' v' ->
  store_wf h' (objs ++ [v']).
Proof.
  intros [Hwf Hdist] Hok. split.
  - intros k u [[_ Hk]|[_ <-]]%lookup_snoc_Some.
    + eapply call_ok_frame; eauto.
    + by destruct Hok.
  - destruct Hok as (_ & _ & _ & Hbase).
    assert (Hnew : forall k u l,
              objs !! k = Some u ->
              base (array_ v') = Some l -> base (array_ u) <> Some l).
    { intros k u l Hk Hl Hu.
      destruct Hbase as [Hnull|[Hsame|(l' & Hl' & Hfresh)]].
      - congruence.
      - by rewrite Hsame in Hl.
      - rewrite Hl in Hl'. injection Hl' as <-.
        pose proof (wf_base_lt h u l (Hwf k u Hk) Hu). lia. }
    intros k1 k2 u1 u2 l Hne
      [[_ Hk1]|[-> <-]]%lookup_snoc_Some [[_ Hk2]|[-> <-]]%lookup_snoc_Some
      Hl; try done.
    + by apply (Hdist k1 k2 u1 u2 l).
    + intros Hl2. by apply (Hnew k1 u1 l).
    + by apply (Hnew k2 u2 l).
Qed.

Lemma store_wf_move h objs j o :
  store_wf h objs -> objs !! j = Some o ->
  store_wf h
    (<[j := {| array_ := nullptr; size_ := 0; capacity_ := 0 |}]> objs ++ [o]).
Proof.
  intros [Hwf Hdist] Hj. split.
  - intros k u [[_ [(-> & <- & _)|[Hne Hk]]%list_lookup_insert_Some]
               |[_ <-]]%lookup_snoc_Some; eauto using wf_empty.
  - intros k1 k2 u1 u2 l Hne
      [[_ [(-> & <- & _)|[Hne1 Hk1]]%list_lookup_insert_Some]
      |[Hlen1 <-]]%lookup_snoc_Some
      [[_ [(-> & <- & _)|[Hne2 Hk2]]%list_lookup_insert_Some]
      |[Hlen2 <-]]%lookup_snoc_Some Hl; try done.
    + by apply (Hdist k1 k2 u1 u2 l).
    + intros Hl2. by apply (Hdist k1 j u1 o l).
    + by apply (Hdist j k2 o u2 l).
    + congruence.
Qed.


Lemma released_ok h this :
  wf h this = true ->
  call_ok h this (release (array_ this) h)
    {| array_ := nullptr; size_ := 0; capacity_ := 0 |}.
Proof.
  intros Hwf. split_and!; [apply wf_empty| |].
  - apply unchanged_outside_release, unchanged_outside_refl.
  - split; [done|by left].
Qed.

(** Exchanging two entries of the table. *)
Lemma store_wf_swap h objs i j (a b : SimpleVector) :
  store_wf h objs -> objs !! i = Some a -> objs !! j = Some b ->
  store_wf h (<[j := a]> (<[i := b]> objs)).
Proof.
  intros [Hwf Hdist] Hi Hj.
  destruct (decide (i = j)) as [->|Hij].
  { rewrite Hi in Hj. injection Hj as <-.
    by rewrite list_insert_insert_eq, list_insert_id. }
  split.
  - intros k u [(-> & <- & _)|[Hne [(-> & <- & _)|[Hne' Hk]]
      %list_lookup_insert_Some]]%list_lookup_insert_Some; eauto.
  - intros k1 k2 u1 u2 l Hne
      [(-> & <- & _)|[Hne1 [(-> & <- & _)|[Hne1' Hk1]]
         %list_lookup_insert_Some]]%list_lookup_insert_Some
      [(-> & <- & _)|[Hne2 [(-> & <- & _)|[Hne2' Hk2]]
         %list_lookup_insert_Some]]%list_lookup_insert_Some Hl; try done;
      match goal with
      | Hl : base (array_ ?v1) = Some l |- base (array_ ?v2) <> Some l =>
          refine (Hdist _ _ v1 v2 l _ _ _ Hl); [|eassumption|eassumption];
          congruence
      end.
Qed.

Lemma step_ok (c : call T) objs h objs' h' :
  store_wf h objs ->
  step Type_ false c objs h = Ok (objs', h') ->
  store_wf h' objs'.
Proof.
  intros Hst Hrun. pose proof Hst as [Hwf Hdist].
  destruct c; simpl in Hrun.
  - apply ret_inv in Hrun as [= -> ->].
    apply (store_wf_new h); [done|]. apply call_ok_refl. apply wf_default.
  - apply bind_inv in Hrun as (v & h1 & Hv & [= -> ->]%ret_inv).
    apply (store_wf_new h); [done|].
    eapply SimpleVector_sized_ok; [apply to_size_t_range|done].
  - apply bind_inv in Hrun as (v & h1 & Hv & [= -> ->]%ret_inv).
    apply (store_wf_new h); [done|].
    eapply SimpleVector_reserved_ok; [apply to_size_t_range|done].
  - apply bind_inv in Hrun as (v & h1 & Hv & [= -> ->]%ret_inv).
    apply (store_wf_new h); [done|].
    eapply SimpleVector_filled_ok; [apply to_size_t_range|done].
  - apply bind_inv in Hrun as (v & h1 & Hv & [= -> ->]%ret_inv).
    apply (store_wf_new h); [done|]. by eapply SimpleVector_init_ok.
  - apply bind_inv in Hrun as (o & h0 & [Ho ->]%object_inv & Hrun).
    apply bind_inv in Hrun as (v & h1 & Hv & [= -> ->]%ret_inv).
    apply (store_wf_new h); [done|]. eapply SimpleVector_copy_ok; eauto.
  - apply bind_inv in Hrun as (o & h0 & [Ho ->]%object_inv & Hrun).
    unfold SimpleVector_move in Hrun. simpl in Hrun.
    apply ret_inv in Hrun as [= -> ->].
    rewrite SimpleVector_eta. by apply store_wf_move.
  - unfold copy_assign in Hrun.
    apply bind_inv in Hrun as (t & h0 & [Ht ->]%object_inv & Hrun).
    apply bind_inv in Hrun as (r & h0 & [Hr ->]%object_inv & Hrun).
    destruct (bool_decide (this <> rhs));
      [|by apply ret_inv in Hrun as [= -> ->]].
    apply bind_inv in Hrun as (copy & h1 & [-> Hw]%SimpleVector_copy_inv
                                 & Hrun).
    simpl in Hrun.
    apply bind_inv in Hrun as ([] & h2 & [-> _]%ArrayPtr_delete_inv
                                 & [= -> ->]%ret_inv).
    pose proof (wf_inv _ _ (Hwf _ _ Hr)) as (_ & Hsz & Hc & _).
    eapply store_wf_update; [done..|].
    apply (grow_ok h t (size_ r) h1); eauto; try lia.
    apply writes_to_refl.
  - unfold move_assign in Hrun.
    apply bind_inv in Hrun as (t & h0 & [Ht ->]%object_inv & Hrun).
    apply bind_inv in Hrun as (r & h0 & [Hr ->]%object_inv & Hrun).
    destruct (bool_decide_reflect (this <> rhs)) as [Hne|_];
      [|by apply ret_inv in Hrun as [= -> ->]].
    unfold ArrayPtr_move_assign in Hrun.
    apply bind_inv in Hrun as (arrays & h1 & Hmove & [= -> ->]%ret_inv).
    apply bind_inv in Hmove as ([] & h2 & [-> _]%ArrayPtr_delete_inv
                                  & [= -> ->]%ret_inv).
    unfold set_capacity, set_size, set_array. simpl.
    rewrite SimpleVector_eta.
    assert (Hst1 : store_wf (release (array_ t) h)
                     (<[this := {| array_ := nullptr; size_ := 0;
                                   capacity_ := 0 |}]> objs)).
    { eapply store_wf_update; [done..|]. apply released_ok. eauto. }
    rewrite <- (list_insert_insert_eq objs this r
                  {| array_ := nullptr; size_ := 0; capacity_ := 0 |}).
    apply store_wf_swap; [done| |].
    + apply list_lookup_insert_eq. by eapply lookup_lt_Some.
    + by rewrite list_lookup_insert_ne.
  - apply bind_inv in Hrun as (v & h0 & [Hv ->]%object_inv & Hrun).
    apply bind_inv in Hrun as (v' & h1 & Hcall & [= -> ->]%ret_inv).
    eapply store_wf_update; [done..|]. eapply PushBack_ok; eauto.
  - apply bind_inv in Hrun as (v & h0 & [Hv ->]%object_inv & Hrun).
    apply bind_inv in Hrun as (v' & h1 & Hcall & [= -> ->]%ret_inv).
    eapply store_wf_update; [done..|]. eapply PopBack_ok; eauto.
  - apply bind_inv in Hrun as (v & h0 & [Hv ->]%object_inv & Hrun).
    apply bind_inv in Hrun as ([v' it] & h1 & Hcall & [= -> ->]%ret_inv).
    eapply store_wf_update; [done..|]. eapply Insert_ok; eauto.
  - apply bind_inv in Hrun as (v & h0 & [Hv ->]%object_inv & Hrun).
    apply bind_inv in Hrun as ([v' it] & h1 & Hcall & [= -> ->]%ret_inv).
    eapply store_wf_update; [done..|]. eapply Erase_ok; eauto.
  - apply bind_inv in Hrun as (a & h0 & [Ha ->]%object_inv & Hrun).
    apply bind_inv in Hrun as (b & h0 & [Hb ->]%object_inv & Hrun).
    unfold swap in Hrun. simpl in Hrun.
    apply ret_inv in Hrun as [= -> ->].
    rewrite !SimpleVector_eta. by apply store_wf_swap.
  - apply bind_inv in Hrun as (v & h0 & [Hv ->]%object_inv & Hrun).
    apply bind_inv in Hrun as (v' & h1 & Hcall & [= -> ->]%ret_inv).
    eapply store_wf_update; [done..|].
    eapply Reserve_ok; eauto. apply to_size_t_range.
  - apply bind_inv in Hrun as (v & h0 & [Hv ->]%object_inv & Hrun).
    apply bind_inv in Hrun as (v' & h1 & Hcall & [= -> ->]%ret_inv).
    eapply store_wf_update; [done..|].
    eapply Resize_ok; eauto. apply to_size_t_range.
  - apply bind_inv in Hrun as (v & h0 & [Hv ->]%object_inv
                                 & [= -> ->]%ret_inv).
    eapply store_wf_update; [done..|]. apply Clear_ok. eauto.
Qed.

Lemma run_ok (cs : list (call T)) :
  forall objs h objs' h',
    store_wf h objs ->
    run Type_ false cs objs h = Ok (objs', h') ->
    store_wf h' objs'.
Proof.
  induction cs as [|c cs IH]; intros objs h objs' h' Hst Hrun;
    simpl in Hrun.
  - by apply ret_inv in Hrun as [= -> ->].
  - apply bind_inv in Hrun as (objs1 & h1 & Hstep & Hrun).
    eapply IH; [|done]. by eapply step_ok.
Qed.

(** A call that passes its assertions does the same when they are
    compiled out. *)
Lemma step_NDEBUG (c : call T) objs h r :
  step Type_ false c objs h = Ok r -> step Type_ true c objs h = Ok r.
Proof.
  destruct c; try done. simpl. intros Hrun.
  apply bind_inv in Hrun as (v & h0 & Hv & Hrun).
  apply bind_inv in Hrun as (v' & h1 & Hcall & Hrun).
  erewrite bind_Ok by exact Hv. erewrite bind_Ok; [exact Hrun|].
  unfold PopBack, assert in *. by destruct (size_ v >? 0).
Qed.

Lemma run_NDEBUG (cs : list (call T)) :
  forall objs h r,
    run Type_ false cs objs h = Ok r -> run Type_ true cs objs h = Ok r.
Proof.
  induction cs as [|c cs IH]; intros objs h r Hrun; [done|].
  simpl in *. apply bind_inv in Hrun as (objs1 & h1 & Hstep & Hrun).
  erewrite bind_Ok by (by apply step_NDEBUG). by apply IH.
Qed.

End Invariant.

(** * The claims *)

Section Claims.

Context {T : Type}.

Context (Type_ : T).

Implicit Types (h : heap T) (xs ys : list T) (this : SimpleVector).

Lemma models_load h this xs rest (i : nat) x :
  models h this xs rest -> xs !! i = Some x ->
  load (begin this +p Z.of_nat i) h = Ok (Some x, h).
Proof.
  intros Hm Hx.
  destruct (models_base_Some _ _ _ _ Hm) as [l Hb].
  { apply lookup_lt_Some in Hx. lia. }
  destruct Hm as (Ho & Hs & _).
  rewrite (storage_Some_block h _ l Hb) in Hs.
  eapply (load_at h _ l i); try done.
  - unfold begin, Get. simpl. lia.
  - rewrite lookup_app_l by (rewrite length_fmap; by eapply lookup_lt_Some).
    by rewrite list_lookup_fmap, Hx.
Qed.

Lemma models_size h this xs rest :
  models h this xs rest -> size_ this = Z.of_nat (length xs).
Proof.
  by intros (_ & _ & Hn & _).
Qed.

(** [Insert] of a value that is not an element of the container, at
    index [i] of a container that holds [xs], with [0 <= i <= size]: the
    call returns normally, the size grows by one, the
    new sequence is [xs] with [x] put in at index [i] (the elements before
    [i] keep their index, those from [i] on move up by one, in order), the
    returned iterator is [begin() + i] and points at [x], and the capacity
    is doubled (one for an empty block) exactly when the container was
    full, in which case the elements are in a newly allocated block. The
    doubling is required not to wrap in [size_t]. *)
Theorem Insert_at_index h this xs (i : nat) x :
  elements h this = Some xs ->
  (i <= length xs)%nat ->
  (size_ this = capacity_ this -> 2 * capacity_ this <= SIZE_MAX) ->
  exists this' h' ys,
    Insert this (begin this +p Z.of_nat i) x h
    = Ok ((this', begin this' +p Z.of_nat i), h')
    /\ elements h' this' = Some ys
    /\ size_ this' = size_ this + 1
    /\ ys = take i xs ++ x :: drop i xs
    /\ ys !! i = Some x
    /\ (forall j, (j < i)%nat -> ys !! j = xs !! j)
    /\ (forall j, (i <= j)%nat -> ys !! S j = xs !! j)
    /\ load (begin this' +p Z.of_nat i) h' = Ok (Some x, h')
    /\ capacity_ this' = grown_capacity this
    /\ (size_ this = capacity_ this -> base (array_ this') = Some (length h)).
Proof.
  intros He Hi Hwrap.
  destruct (elements_models _ _ _ He) as [rest Hm].
  pose proof (models_size _ _ _ _ Hm) as Hn.
  assert (Hlen : length (take i xs) = i) by (by apply length_take_le).
  rewrite <- (take_drop i xs) in Hm.
  destruct (Insert_spec h this _ _ rest x Hm Hwrap)
    as (this' & h' & rest' & Hrun & Hm' & Hcap & _ & _ & Hnew).
  rewrite Hlen in Hrun.
  pose proof (models_size _ _ _ _ Hm') as Hn'.
  assert (Hat : (take i xs ++ x :: drop i xs) !! i = Some x)
    by (by apply list_lookup_middle).
  exists this', h', (take i xs ++ x :: drop i xs).
  split_and!; try done.
  - by eapply models_elements.
  - rewrite Hn', Hn, length_app, Hlen. simpl. rewrite length_drop. lia.
  - intros j Hj. rewrite lookup_app_l by lia. by apply lookup_take_lt.
  - intros j Hj. rewrite lookup_app_r by lia. rewrite Hlen.
    replace (S j - i)%nat with (S (j - i)) by lia. simpl.
    rewrite lookup_drop. f_equal. lia.
  - by eapply models_load.
  - intros Hfull. by rewrite (Hnew Hfull).
Qed.

(** C6. [Erase] at index [i] of a container that holds [xs], with
    [i < size]: the call returns normally, the size goes down by one, the
    capacity stays, the new sequence is [xs] without its element at index
    [i], and the returned iterator is [begin() + i]: it points at the
    element that followed the erased one, or is [end()] when the erased
    element was the last. *)
Theorem Erase_at_index h this xs (i : nat) :
  elements h this = Some xs ->
  (i < length xs)%nat ->
  exists this' h' ys,
    Erase this (begin this +p Z.of_nat i) h
    = Ok ((this', begin this' +p Z.of_nat i), h')
    /\ elements h' this' = Some ys
    /\ size_ this' = size_ this - 1
    /\ capacity_ this' = capacity_ this
    /\ ys = take i xs ++ drop (S i) xs
    /\ (forall y, xs !! S i = Some y ->
          load (begin this' +p Z.of_nat i) h' = Ok (Some y, h'))
    /\ (S i = length xs -> begin this' +p Z.of_nat i = end_ this').
Proof.
  intros He Hi.
  destruct (elements_models _ _ _ He) as [rest Hm].
  pose proof (models_size _ _ _ _ Hm) as Hn.
  destruct (lookup_lt_is_Some_2 xs i Hi) as [y Hy].
  assert (Hlen : length (take i xs) = i) by (apply length_take_le; lia).
  rewrite <- (take_drop_middle xs i y Hy) in Hm.
  destruct (Erase_spec h this _ y _ rest Hm) as (h' & rest' & Hrun & Hm' & _).
  rewrite Hlen in Hrun.
  eexists _, h', _. split; [exact Hrun|].
  split_and!; try done.
  - by eapply models_elements.
  - intros z Hz. eapply models_load; [exact Hm'|].
    rewrite lookup_app_r by lia. rewrite Hlen, Nat.sub_diag.
    by rewrite lookup_drop, Nat.add_0_r.
  - intros Hlast. unfold begin, end_, Get, set_size. simpl.
    do 2 f_equal. lia.
Qed.

(** C7. [Reserve(new_capacity)] on a container that holds [xs]: when
    [new_capacity <= capacity] nothing changes at all; when
    [new_capacity > capacity] the capacity becomes exactly [new_capacity]
    while the size and the elements stay; in both cases the capacity does
    not go down and a second [Reserve(new_capacity)] changes nothing. *)
Theorem Reserve_capacity h this xs (new_capacity : Z) :
  elements h this = Some xs ->
  new_capacity <= SIZE_MAX ->
  (new_capacity <= capacity_ this ->
     Reserve this new_capacity h = Ok (this, h))
  /\ exists this' h',
       Reserve this new_capacity h = Ok (this', h')
       /\ elements h' this' = Some xs
       /\ size_ this' = size_ this
       /\ capacity_ this' = Z.max (capacity_ this) new_capacity
       /\ Reserve this' new_capacity h' = Ok (this', h').
Proof.
  intros He Hmax. split; [apply Reserve_keep|].
  destruct (Z.le_gt_cases new_capacity (capacity_ this)) as [Hle|Hgt].
  - exists this, h. rewrite Reserve_keep by done.
    split_and!; try done. lia.
  - destruct (elements_models _ _ _ He) as [rest Hm].
    destruct (Reserve_grow h this xs rest new_capacity Hm)
      as (h' & Hrun & Hm' & _); [lia|].
    eexists _, h'. split; [exact Hrun|]. simpl.
    split_and!; try done.
    + by eapply models_elements.
    + lia.
    + by apply Reserve_keep.
Qed.

(** C4. [At(index)] throws [std::out_of_range("Index out of range")]
    exactly when [index >= size]; [At] contains no [assert], so its model
    has no build mode to depend on. In particular [At(size())] and
    [At(size() + 5)] throw, and on a container that holds [xs ++ [x]] the
    call [At(size() - 1)] returns a reference to the slot of the last
    element [x]. *)
Theorem At_out_of_range h this (index : Z) :
  (At this index h = Thrown (out_of_range "Index out of range")
   <-> size_ this <= index)
  /\ At this (size_ this) h = Thrown (out_of_range "Index out of range")
  /\ At this (size_ this + 5) h = Thrown (out_of_range "Index out of range")
  /\ (forall xs x,
        elements h this = Some (xs ++ [x]) ->
        At this (size_ this - 1) h = Ok (begin this +p (size_ this - 1), h)
        /\ load (begin this +p (size_ this - 1)) h = Ok (Some x, h)).
Proof.
  assert (Hthrow : forall k, size_ this <= k ->
            At this k h = Thrown (out_of_range "Index out of range")).
  { intros k Hk. unfold At.
    by destruct (Z.geb_spec k (size_ this)); [|lia]. }
  split_and!.
  - split; [|apply Hthrow].
    unfold At. destruct (Z.geb_spec index (size_ this)); [lia|].
    unfold ArrayPtr_index.
    destruct (storage h (array_ this)); [|done]. by destruct (_ && _).
  - apply Hthrow. lia.
  - apply Hthrow. lia.
  - intros xs x He.
    destruct (elements_models _ _ _ He) as [rest Hm].
    pose proof (models_size _ _ _ _ Hm) as Hn.
    rewrite length_app in Hn. simpl in Hn.
    assert (Hlast : size_ this - 1 = Z.of_nat (length xs)) by lia.
    split.
    + unfold At. destruct (Z.geb_spec (size_ this - 1) (size_ this)); [lia|].
      destruct Hm as (_ & Hs & _ & Hcap & _). unfold ArrayPtr_index.
      rewrite Hs, length_app, length_fmap.
      destruct (Z.leb_spec 0 (size_ this - 1)); [|lia].
      destruct (Z.ltb_spec (size_ this - 1)
                  (Z.of_nat (length (xs ++ [x]) + length rest))); [done|].
      rewrite length_app in *. simpl in *. lia.
    + rewrite Hlast. eapply models_load; [exact Hm|].
      by apply list_lookup_middle.
Qed.

Lemma grown_capacity_eq this (s c : Z) :
  size_ this = s -> capacity_ this = c ->
  grown_capacity this = if s =? c then Z.max 1 (2 * c) else c.
Proof.
  unfold grown_capacity. by intros -> ->.
Qed.

Lemma models_default h :
  models h SimpleVector_default [] ([] : block T).
Proof.
  unfold models. simpl. by split_and!.
Qed.

(** One [PushBack] on a container that holds [xs]. *)
Lemma PushBack_step h this xs rest x :
  models h this xs rest ->
  (size_ this = capacity_ this -> 2 * capacity_ this <= SIZE_MAX) ->
  exists this' h' rest',
    PushBack this x h = Ok (this', h')
    /\ models h' this' (xs ++ [x]) rest'
    /\ size_ this' = size_ this + 1
    /\ capacity_ this' = grown_capacity this.
Proof.
  intros Hm Hwrap.
  destruct (PushBack_spec h this xs rest x Hm Hwrap)
    as (this' & h' & rest' & Hrun & Hm' & Hcap & _).
  exists this', h', rest'. split_and!; try done.
  rewrite (models_size _ _ _ _ Hm), (models_size _ _ _ _ Hm'), length_app.
  simpl. lia.
Qed.

Lemma PushBack_all_spec items :
  forall h this xs rest,
    models h this xs rest ->
    2 * Z.of_nat (length xs + length items) <= SIZE_MAX ->
    exists this' h' rest',
      PushBack_all this items h = Ok (this', h')
      /\ models h' this' (xs ++ items) rest'.
Proof.
  induction items as [|x items IH]; intros h this xs rest Hm Hmax.
  - exists this, h, rest. by rewrite app_nil_r.
  - simpl in Hmax.
    destruct (PushBack_step h this xs rest x Hm)
      as (this1 & h1 & rest1 & Hrun & Hm1 & _).
    { intros Hfull. destruct Hm as (_ & _ & Hn & _). lia. }
    destruct (IH h1 this1 (xs ++ [x]) rest1 Hm1)
      as (this' & h' & rest' & Hrun' & Hm').
    { rewrite length_app. simpl. lia. }
    exists this', h', rest'. simpl.
    erewrite bind_Ok by exact Hrun.
    by rewrite <- app_assoc in Hm'.
Qed.

(** C2. Starting from a default-constructed container (size 0, capacity
    0), after the elements [items] have been pushed in turn the container
    holds [items], and one more [PushBack(x)] returns normally, keeps the
    elements in order, constructs [x] in slot [size], increments the size,
    and changes the capacity to [max(1, 2 * capacity)] exactly when it
    found [size == capacity]. Five pushes give the capacities 1, 2, 4, 4, 8
    and the sizes 1 to 5. The number of elements is required to stay where
    the doubling does not wrap in [size_t]. *)
Theorem PushBack_from_default h0 (items : list T) (x : T) :
  2 * Z.of_nat (length items) <= SIZE_MAX ->
  (exists this h,
     PushBack_all SimpleVector_default items h0 = Ok (this, h)
     /\ elements h this = Some items
     /\ exists this' h',
          PushBack this x h = Ok (this', h')
          /\ elements h' this' = Some (items ++ [x])
          /\ load (begin this' +p size_ this) h' = Ok (Some x, h')
          /\ size_ this' = size_ this + 1
          /\ capacity_ this'
             = if size_ this =? capacity_ this
               then Z.max 1 (2 * capacity_ this)
               else capacity_ this)
  /\ (forall a b c d e : T,
        result (PushBack_trace SimpleVector_default [a; b; c; d; e] h0)
        = Ok [(1, 1); (2, 2); (3, 4); (4, 4); (5, 8)]).
Proof.
  intros Hmax. split.
  - destruct (PushBack_all_spec items h0 _ [] [] (models_default h0))
      as (this & h & rest & Hrun & Hm); [simpl; lia|].
    simpl in Hm. exists this, h. split_and!; [done|by eapply models_elements|].
    pose proof (models_size _ _ _ _ Hm) as Hn.
    destruct (PushBack_step h this items rest x Hm)
      as (this' & h' & rest' & Hrun' & Hm' & Hsz & Hcap).
    { intros Hfull. lia. }
    exists this', h'. split_and!; try done.
    + by eapply models_elements.
    + rewrite Hn. eapply models_load; [exact Hm'|].
      by apply list_lookup_middle.
  - intros a b c d e. pose proof SIZE_MAX_eq as HM.
    destruct (PushBack_step h0 _ [] [] a (models_default h0))
      as (v1 & h1 & r1 & Hrun1 & Hm1 & Hs1 & Hc1); [simpl; lia|].
    rewrite (grown_capacity_eq _ 0 0) in Hc1 by done.
    simpl in Hs1, Hc1.
    destruct (PushBack_step h1 v1 _ r1 b Hm1)
      as (v2 & h2 & r2 & Hrun2 & Hm2 & Hs2 & Hc2); [lia|].
    rewrite (grown_capacity_eq _ _ _ Hs1 Hc1) in Hc2. rewrite Hs1 in Hs2.
    simpl in Hs2, Hc2.
    destruct (PushBack_step h2 v2 _ r2 c Hm2)
      as (v3 & h3 & r3 & Hrun3 & Hm3 & Hs3 & Hc3); [lia|].
    rewrite (grown_capacity_eq _ _ _ Hs2 Hc2) in Hc3. rewrite Hs2 in Hs3.
    simpl in Hs3, Hc3.
    destruct (PushBack_step h3 v3 _ r3 d Hm3)
      as (v4 & h4 & r4 & Hrun4 & Hm4 & Hs4 & Hc4); [lia|].
    rewrite (grown_capacity_eq _ _ _ Hs3 Hc3) in Hc4. rewrite Hs3 in Hs4.
    simpl in Hs4, Hc4.
    destruct (PushBack_step h4 v4 _ r4 e Hm4)
      as (v5 & h5 & r5 & Hrun5 & Hm5 & Hs5 & Hc5); [lia|].
    rewrite (grown_capacity_eq _ _ _ Hs4 Hc4) in Hc5. rewrite Hs4 in Hs5.
    simpl in Hs5, Hc5.
    unfold PushBack_trace.
    erewrite bind_Ok by exact Hrun1. erewrite bind_Ok.
    2:{ erewrite bind_Ok by exact Hrun2. erewrite bind_Ok.
        2:{ erewrite bind_Ok by exact Hrun3. erewrite bind_Ok.
            2:{ erewrite bind_Ok by exact Hrun4. erewrite bind_Ok.
                2:{ erewrite bind_Ok by exact Hrun5.
                    erewrite bind_Ok by done. done. }
                done. }
            done. }
        done. }
    unfold ret, result, GetSize, GetCapacity.
    by rewrite Hs1, Hc1, Hs2, Hc2, Hs3, Hc3, Hs4, Hc4, Hs5, Hc5.
Qed.

(** C3, as the code has it. In a debug build [PopBack] on an empty
    container and [operator[]] with [index >= size] stop at their
    [assert]. [Erase] contains no [assert]: at the end position of a
    container that holds [xs ++ [x]] it returns normally in every build,
    leaving [xs], and on an empty container its behaviour is undefined. *)
Theorem contract_checks h this :
  (size_ this = 0 -> PopBack false this h = AssertionFailed)
  /\ (forall index,
        size_ this <= index ->
        operator_index false this index h = AssertionFailed)
  /\ (forall xs x,
        elements h this = Some (xs ++ [x]) ->
        Erase this (end_ this) h
        = Ok ((set_size this (size_ this - 1), end_ this), h)
        /\ elements h (set_size this (size_ this - 1)) = Some xs)
  /\ (elements h this = Some [] -> Erase this (end_ this) h = Undefined).
Proof.
  split_and!.
  - intros Hn. unfold PopBack, assert. by rewrite Hn.
  - intros index Hi. unfold operator_index, assert.
    by destruct (Z.ltb_spec index (size_ this)); [lia|].
  - intros xs x He.
    destruct (elements_models _ _ _ He) as [rest Hm].
    destruct (Erase_end h this xs x rest Hm) as [Hrun Hm'].
    split; [done|]. by eapply models_elements.
  - intros He.
    destruct (elements_models _ _ _ He) as [rest Hm].
    by eapply Erase_empty.
Qed.

(** C8. Copy construction from a container that holds [xs] returns a new
    container with the same size, capacity equal to that size, the same
    elements, in a block of its own; a [PushBack] on the copy (which
    doubles, and is required not to wrap in [size_t]) leaves the original
    with its size, its capacity and its elements. *)
Theorem copy_is_deep h other xs x :
  elements h other = Some xs ->
  2 * size_ other <= SIZE_MAX ->
  exists this h1,
    SimpleVector_copy other h = Ok (this, h1)
    /\ size_ this = size_ other
    /\ capacity_ this = size_ other
    /\ elements h1 this = Some xs
    /\ elements h1 other = Some xs
    /\ base (array_ this) <> base (array_ other)
    /\ exists this' h2,
         PushBack this x h1 = Ok (this', h2)
         /\ elements h2 this' = Some (xs ++ [x])
         /\ elements h2 other = Some xs
         /\ forall NDEBUG,
              run Type_ NDEBUG [New_copy 0; Call_PushBack 1 x] [other] h
              = Ok ([other; this'], h2).
Proof.
  intros He Hmax.
  destruct (elements_models _ _ _ He) as [rest Hm].
  pose proof (models_base_fresh _ _ _ _ Hm) as Hfresh.
  destruct (SimpleVector_copy_spec h other xs rest Hm)
    as (h1 & Hcopy & Hm1 & Hu1).
  set (this := {| array_ := Ptr (Some (length h)) 0; size_ := size_ other;
                  capacity_ := size_ other |}) in *.
  assert (He1 : elements h1 other = Some xs).
  { rewrite <- He.
    apply (elements_unchanged (array_ this));
      [done | right; simpl; congruence | by rewrite He]. }
  destruct (PushBack_spec h1 this xs [] x Hm1)
    as (this' & h2 & rest' & Hpush & Hm2 & _ & Hu2 & _); [done|].
  exists this, h1. split_and!; try done.
  - by eapply models_elements.
  - exists this', h2. split_and!; try done.
    + by eapply models_elements.
    + rewrite <- He1.
      apply (elements_unchanged (array_ this));
        [done | right; simpl; congruence | by rewrite He1].
    + intros NDEBUG. simpl. unfold object. simpl.
      erewrite bind_Ok.
      2:{ erewrite bind_Ok by done. erewrite bind_Ok by exact Hcopy. done. }
      simpl. erewrite bind_Ok.
      2:{ erewrite bind_Ok by done. erewrite bind_Ok by exact Hpush. done. }
      done.
Qed.

Lemma to_size_t_wrap z :
  SIZE_MAX < z <= 2 * SIZE_MAX -> to_size_t z = z - SIZE_MAX - 1.
Proof.
  unfold to_size_t, SIZE_MAX. intros Hz. symmetry.
  apply (Z.mod_unique_pos z (2 ^ 64) 1); lia.
Qed.

(** A loop that runs past the end of its destination block. *)
Lemma move_loop_overflow n :
  forall h first d_first l1 l2 (o1 o2 : nat) (src dst : block T),
    l1 <> l2 ->
    base first = Some l1 -> off first = Z.of_nat o1 ->
    base d_first = Some l2 -> off d_first = Z.of_nat o2 ->
    block_at h l1 = Some src -> block_at h l2 = Some dst ->
    (o1 + n <= length src)%nat ->
    (o2 <= length dst < o2 + n)%nat ->
    move_loop n first d_first h = Undefined.
Proof.
  induction n as [|n IH];
    intros h first d_first l1 l2 o1 o2 src dst Hne Hb1 Ho1 Hb2 Ho2 Hsrc Hdst
      Hn1 Hn2; [lia|].
  destruct (lookup_lt_is_Some_2 src o1) as [x Hx]; [lia|].
  simpl. rewrite (bind_Ok _ _ h x h) by eauto using load_at.
  destruct (decide (o2 < length dst)%nat) as [Hlt|Hge].
  - erewrite bind_Ok by (eapply store_at; eauto).
    eapply (IH _ _ _ l1 l2 (S o1) (S o2) src (<[o2 := x]> dst)); eauto.
    + simpl. lia.
    + simpl. lia.
    + by rewrite block_at_insert_ne.
    + apply block_at_insert_eq. by eapply block_at_lt.
    + lia.
    + rewrite length_insert. lia.
  - apply bind_Undefined. unfold store. rewrite Hb2, Hdst, Ho2.
    destruct (Z.leb_spec 0 (Z.of_nat o2)); [|lia].
    by destruct (Z.ltb_spec (Z.of_nat o2) (Z.of_nat (length dst))); [lia|].
Qed.

(** When the doubled capacity wraps, the new block is too short for the
    elements and the first [std::move] into it runs past its end. *)
Lemma growth_overflow h this xs rest (k : nat) :
  models h this xs rest ->
  size_ this = capacity_ this ->
  SIZE_MAX < 2 * capacity_ this ->
  let c := to_size_t (2 * capacity_ this) in
  (Z.to_nat c < k <= length xs)%nat ->
  bind (ArrayPtr_new c)
    (fun new_array : ArrayPtr =>
       std_move (begin this) (begin this +p Z.of_nat k) (Get new_array)) h
  = Undefined.
Proof.
  intros Hm Hfull Hwrap c Hk.
  pose proof (models_base_fresh _ _ _ _ Hm) as Hfresh.
  destruct (models_base_Some _ _ _ _ Hm) as [l Hb]; [lia|].
  destruct Hm as (Ho & Hs & Hn & Hcap & Hmax).
  rewrite (storage_Some_block h _ l Hb) in Hs.
  erewrite bind_Ok by apply ArrayPtr_new_at.
  set (h1 := h ++ [Some (replicate (Z.to_nat c) None)]).
  assert (Hs1 : block_at h1 l = Some ((Some <$> xs) ++ rest)).
  { unfold h1. rewrite block_at_alloc_old; [done|]. by eapply block_at_lt. }
  unfold std_move.
  erewrite bind_Ok.
  2:{ eapply (distance_in h1 _ _ _ 0 k); try done.
      - by rewrite (storage_Some_block h1 _ l).
      - unfold begin, Get. simpl. lia.
      - rewrite length_app, length_fmap. lia. }
  apply bind_Undefined.
  eapply (move_loop_overflow k h1 _ _ l (length h) 0 0); try done.
  - congruence.
  - apply block_at_alloc.
  - rewrite length_app, length_fmap. lia.
  - rewrite length_replicate. lia.
Qed.

Lemma wrapped_capacity this :
  0 <= capacity_ this <= SIZE_MAX ->
  SIZE_MAX < 2 * capacity_ this ->
  0 <= to_size_t (2 * capacity_ this) < capacity_ this
  /\ (capacity_ this =? 0) = false.
Proof.
  intros Hc Hwrap. rewrite to_size_t_wrap by lia.
  pose proof SIZE_MAX_eq. split; [lia|]. apply Z.eqb_neq. lia.
Qed.

Lemma PushBack_wrap h this xs rest x :
  models h this xs rest ->
  size_ this = capacity_ this ->
  SIZE_MAX < 2 * capacity_ this ->
  PushBack this x h = Undefined.
Proof.
  intros Hm Hfull Hwrap. unfold PushBack.
  pose proof Hm as (Ho & Hs & Hn & Hcap & Hmax).
  destruct (wrapped_capacity this) as [Hc Hz]; [lia..|].
  rewrite Hfull, Z.eqb_refl, Hz.
  apply bind_Undefined, bind_Undefined_inner.
  assert (end_ this = begin this +p Z.of_nat (length xs)) as ->
    by (unfold begin, end_; by rewrite Hn).
  eapply growth_overflow; eauto. lia.
Qed.

Lemma Insert_end_wrap h this xs rest x :
  models h this xs rest ->
  size_ this = capacity_ this ->
  SIZE_MAX < 2 * capacity_ this ->
  Insert this (end_ this) x h = Undefined.
Proof.
  intros Hm Hfull Hwrap. unfold Insert.
  pose proof (fun k => models_storage_at h this _ rest k Hm) as Hst.
  pose proof Hm as (Ho & Hs & Hn & Hcap & Hmax).
  destruct (wrapped_capacity this) as [Hc Hz]; [lia..|].
  erewrite bind_Ok.
  2:{ eapply (ptr_diff_in h _ _ _); [done|apply (Hst 0)|..];
        rewrite length_app, length_fmap;
        unfold begin, end_, Get; simpl; lia. }
  assert (to_size_t (off (end_ this) - off (begin this))
          = Z.of_nat (length xs)) as ->.
  { unfold begin, end_, Get. simpl. rewrite to_size_t_id; lia. }
  rewrite Hfull, Z.eqb_refl, Hz.
  apply bind_Undefined, bind_Undefined_inner.
  eapply growth_overflow; eauto. lia.
Qed.

(** C10. On a container that holds [xs], [Insert(end(), x)] and
    [PushBack(x)] have the same outcome: both return normally and leave the
    same size, the same capacity and the same elements [xs ++ [x]] (or, for
    a full container of more than [SIZE_MAX / 2] slots, both run past the
    end of the wrapped allocation); the iterator that [Insert] returns is
    [begin() + old size] and points at [x]. *)
Theorem Insert_at_end_is_PushBack h this xs x :
  elements h this = Some xs ->
  observe (drop_iterator (Insert this (end_ this) x h))
  = observe (PushBack this x h)
  /\ ((size_ this = capacity_ this -> 2 * capacity_ this <= SIZE_MAX) ->
      observe (PushBack this x h)
      = Ok (size_ this + 1, grown_capacity this, Some (xs ++ [x])))
  /\ (forall this' it h',
        Insert this (end_ this) x h = Ok ((this', it), h') ->
        it = begin this' +p size_ this
        /\ load it h' = Ok (Some x, h')).
Proof.
  intros He.
  destruct (elements_models _ _ _ He) as [rest Hm].
  pose proof (models_size _ _ _ _ Hm) as Hn.
  assert (Hend : end_ this = begin this +p Z.of_nat (length xs))
    by (unfold begin, end_; by rewrite Hn).
  destruct (decide (size_ this = capacity_ this
                    /\ SIZE_MAX < 2 * capacity_ this)) as [[Hfull Hwrap]|Hok].
  - rewrite (PushBack_wrap h this xs rest x), (Insert_end_wrap h this xs rest x)
      by done.
    split_and!; [done|intros Hno; specialize (Hno Hfull); lia|done].
  - assert (Hwrap : size_ this = capacity_ this ->
                    2 * capacity_ this <= SIZE_MAX) by lia.
    destruct (PushBack_step h this xs rest x Hm Hwrap)
      as (v2 & h2 & r2 & Hpush & Hm2 & Hs2 & Hc2).
    rewrite <- (app_nil_r xs) in Hm.
    destruct (Insert_spec h this xs [] rest x Hm Hwrap)
      as (v1 & h1 & r1 & Hins & Hm1 & Hc1 & _).
    rewrite <- Hend in Hins.
    pose proof (models_size _ _ _ _ Hm1) as Hs1.
    rewrite length_app in Hs1. simpl in Hs1.
    rewrite Hins, Hpush. simpl. unfold GetSize, GetCapacity.
    rewrite (models_elements _ _ _ _ Hm1), (models_elements _ _ _ _ Hm2).
    rewrite Hs1, Hc1, Hs2, Hc2, Hn.
    split_and!.
    + do 3 f_equal. lia.
    + done.
    + intros this' it h' [= <- <- <-]. split; [done|].
      eapply models_load; [exact Hm1|]. by apply list_lookup_middle.
Qed.

Lemma elements_eta h this :
  elements h {| array_ := array_ this; size_ := size_ this;
                capacity_ := capacity_ this |}
  = elements h this.
Proof.
  by rewrite SimpleVector_eta.
Qed.

(** C9. Move construction from a container [v] that holds [xs] gives the
    new container the size, the capacity and the elements of [v] and
    leaves [v] with size 0 and capacity 0. Move assignment of [v] (object
    [j]) to another object [i] of the program (a well-formed container that
    owns another block) does the same for the assigned object; move
    assignment of an object to itself changes nothing. *)
Theorem move_transfers_ownership h (objs : objects) (i j : nat) d v xs :
  elements h v = Some xs ->
  objs !! i = Some d ->
  objs !! j = Some v ->
  i <> j ->
  wf h d = true ->
  (forall l, base (array_ v) = Some l -> base (array_ d) <> Some l) ->
  (exists this other,
     SimpleVector_move v = (this, other)
     /\ size_ this = size_ v /\ capacity_ this = capacity_ v
     /\ elements h this = Some xs
     /\ size_ other = 0 /\ capacity_ other = 0
     /\ elements h other = Some [])
  /\ (exists d' v' h',
        move_assign (T:=T) objs i j h
        = Ok (<[j := v']> (<[i := d']> objs), h')
        /\ size_ d' = size_ v /\ capacity_ d' = capacity_ v
        /\ elements h' d' = Some xs
        /\ size_ v' = 0 /\ capacity_ v' = 0
        /\ elements h' v' = Some [])
  /\ move_assign (T:=T) objs j j h = Ok (objs, h).
Proof.
  intros He Hi Hj Hij Hwf Hown. split_and!.
  - eexists _, _. split; [done|]. simpl. rewrite elements_eta.
    by split_and!.
  - apply wf_inv in Hwf as (_ & _ & _ & b & Hst & _).
    exists {| array_ := array_ v; size_ := size_ v; capacity_ := capacity_ v |},
      {| array_ := nullptr; size_ := 0; capacity_ := 0 |},
      (release (array_ d) h).
    split_and!; try done.
    + unfold move_assign, object. rewrite Hi, Hj.
      erewrite bind_Ok by done. erewrite bind_Ok by done.
      rewrite (bool_decide_eq_true_2 _ Hij).
      unfold ArrayPtr_move_assign.
      erewrite (bind_Ok _ _ h (array_ v, nullptr) (release (array_ d) h));
        [done|].
      by erewrite bind_Ok by (by eapply ArrayPtr_delete_release).
    + rewrite elements_eta, <- He.
      apply (elements_unchanged (array_ d)).
      * apply unchanged_outside_release, unchanged_outside_refl.
      * destruct (base (array_ v)) as [l|] eqn:Hb; [|by left].
        right. intros E. by apply (Hown l).
      * by rewrite He.
  - unfold move_assign, object. rewrite Hj.
    erewrite bind_Ok by done. erewrite bind_Ok by done.
    by rewrite bool_decide_eq_false_2 by (by intros ?).
Qed.

(** C5, as the code has it. Every program of constructor calls,
    assignments and member calls that runs to completion with assertions
    enabled ends in a state where each container has
    [0 <= size <= capacity], is well formed, and owns a block of its own;
    the same program reaches the same state with assertions compiled
    out. *)
Theorem invariant_of_completed_runs (cs : list (call T)) h0 objs h :
  run Type_ false cs [] h0 = Ok (objs, h) ->
  (forall this, this ∈ objs -> 0 <= size_ this <= capacity_ this)
  /\ store_wf h objs
  /\ run Type_ true cs [] h0 = Ok (objs, h).
Proof.
  intros Hrun.
  assert (Hst : store_wf h objs).
  { eapply run_ok; [|exact Hrun]. by split. }
  split_and!; [|done|by apply run_NDEBUG].
  intros this (k & Hk)%list_elem_of_lookup.
  destruct Hst as [Hwf _].
  by apply Hwf, wf_inv in Hk as (_ & Hsz & _).
Qed.

End Claims.

(** * The claims on concrete containers *)

Lemma Insert_at_index_witness :
  let h : heap Z := [Some [Some 1; Some 2; Some 3; None]] in
  let v := {| array_ := Ptr (Some 0%nat) 0; size_ := 3; capacity_ := 4 |} in
  elements h v = Some [1; 2; 3]
  /\ (1 <= length [1; 2; 3])%nat
  /\ (size_ v = capacity_ v -> 2 * capacity_ v <= SIZE_MAX)
  /\ exists this' h',
       Insert v (begin v +p 1) 9 h = Ok ((this', begin this' +p 1), h')
       /\ elements h' this' = Some [1; 9; 2; 3]
       /\ size_ this' = 4.
Proof.
  intros h v.
  assert (H1 : elements h v = Some [1; 2; 3]) by reflexivity.
  assert (H2 : (1 <= length [1; 2; 3])%nat) by (simpl; lia).
  assert (H3 : size_ v = capacity_ v -> 2 * capacity_ v <= SIZE_MAX)
    by (simpl; lia).
  split_and!; try done.
  destruct (Insert_at_index h v [1; 2; 3] 1 9 H1 H2 H3)
    as (this' & h' & ys & Hrun & He & Hs & -> & _).
  by exists this', h'.
Defined.

(** C1. [Insert] does not always leave the value it was given at index
    [i]. In a container with a spare slot the elements from [i] on are
    moved up first (line 105) and the element is constructed from the
    argument afterwards (line 106); an argument that refers to an element
    of the container after position [i] has changed by then. On the
    container 1, 2, 3 of capacity 4, [v.Insert(v.begin(), v[2])] is given
    the element 3 and leaves 2, 1, 2, 3: the size is 4, the elements 1, 2,
    3 are at indices 1 to 3, and the element at index 0, to which the
    returned iterator points, is 2. The other paths do put 3 there: the
    same call on the full container 1, 2, 3 of capacity 3 goes through
    lines 95 to 103, where the argument is read before the elements from
    [i] on are moved, and leaves 3, 1, 2, 3 in a block of capacity 6; so
    does the call that is given the value 3 itself. *)
Theorem Insert_of_own_element_is_shifted (NDEBUG : bool) :
  let h : heap Z := [Some [Some 1; Some 2; Some 3; None]] in
  let v := {| array_ := Ptr (Some 0%nat) 0; size_ := 3; capacity_ := 4 |} in
  let h_full : heap Z := [Some [Some 1; Some 2; Some 3]] in
  let v_full :=
    {| array_ := Ptr (Some 0%nat) 0; size_ := 3; capacity_ := 3 |} in
  let Insert_own (this : SimpleVector) : M Z (SimpleVector * Iterator) :=
    value <- operator_index NDEBUG this 2;
    Insert_lvalue this (begin this) value in
  elements h v = Some [1; 2; 3]
  /\ (value <- operator_index NDEBUG v 2; read value) h = Ok (3, h)
  /\ (exists this' h',
        Insert_own v h = Ok ((this', begin this'), h')
        /\ elements h' this' = Some [2; 1; 2; 3]
        /\ size_ this' = 4 /\ capacity_ this' = 4
        /\ read (begin this') h' = Ok (2, h')
        /\ elements h' this' <> Some (take 0 [1; 2; 3] ++ 3 :: drop 0 [1; 2; 3]))
  /\ elements h_full v_full = Some [1; 2; 3]
  /\ (exists this' h',
        Insert_own v_full h_full = Ok ((this', begin this'), h')
        /\ elements h' this' = Some [3; 1; 2; 3]
        /\ size_ this' = 4 /\ capacity_ this' = 6
        /\ read (begin this') h' = Ok (3, h'))
  /\ (exists this' h',
        Insert v (begin v) 3 h = Ok ((this', begin this'), h')
        /\ elements h' this' = Some [3; 1; 2; 3]
        /\ read (begin this') h' = Ok (3, h')).
Proof.
  intros h v h_full v_full Insert_own.
  assert (Hown :
    exists this' h',
      Insert_own v h = Ok ((this', begin this'), h')
      /\ elements h' this' = Some [2; 1; 2; 3]
      /\ size_ this' = 4 /\ capacity_ this' = 4
      /\ read (begin this') h' = Ok (2, h')
      /\ elements h' this'
         <> Some (take 0 [1; 2; 3] ++ 3 :: drop 0 [1; 2; 3])).
  { exists {| array_ := Ptr (Some 0%nat) 0; size_ := 4; capacity_ := 4 |},
      [Some [Some 2; Some 1; Some 2; Some 3]].
    destruct NDEBUG; vm_compute; split_and!; congruence. }
  assert (Hfull :
    exists this' h',
      Insert_own v_full h_full = Ok ((this', begin this'), h')
      /\ elements h' this' = Some [3; 1; 2; 3]
      /\ size_ this' = 4 /\ capacity_ this' = 6
      /\ read (begin this') h' = Ok (3, h')).
  { exists {| array_ := Ptr (Some 1%nat) 0; size_ := 4; capacity_ := 6 |},
      [None; Some [Some 3; Some 1; Some 2; Some 3; None; None]].
    destruct NDEBUG; vm_compute; split_and!; congruence. }
  assert (Hvalue :
    exists this' h',
      Insert v (begin v) 3 h = Ok ((this', begin this'), h')
      /\ elements h' this' = Some [3; 1; 2; 3]
      /\ read (begin this') h' = Ok (3, h')).
  { exists {| array_ := Ptr (Some 0%nat) 0; size_ := 4; capacity_ := 4 |},
      [Some [Some 3; Some 1; Some 2; Some 3]].
    vm_compute; split_and!; congruence. }
  split_and!; [reflexivity | by destruct NDEBUG | exact Hown | reflexivity
              | exact Hfull | exact Hvalue].
Qed.

Lemma PushBack_from_default_witness :
  2 * Z.of_nat (length [4; 5; 6]) <= SIZE_MAX
  /\ exists this h,
       PushBack_all SimpleVector_default [4; 5; 6] [] = Ok (this, h)
       /\ elements h this = Some [4; 5; 6]
       /\ observe (PushBack this 7 h) = Ok (4, 4, Some [4; 5; 6; 7]).
Proof.
  assert (H1 : 2 * Z.of_nat (length [4; 5; 6]) <= SIZE_MAX)
    by (pose proof SIZE_MAX_eq; simpl; lia).
  split; [done|].
  destruct (PushBack_from_default [] [4; 5; 6] 7 H1)
    as [(this & h & Hrun & He & _) _].
  exists this, h. split_and!; try done.
  by injection Hrun as <- <-.
Defined.

Lemma contract_checks_witness :
  let h : heap Z := [Some [Some 1; Some 2; Some 3; None]] in
  let v := {| array_ := Ptr (Some 0%nat) 0; size_ := 3; capacity_ := 4 |} in
  elements h v = Some ([1; 2] ++ [3])
  /\ Erase v (end_ v) h = Ok ((set_size v 2, end_ v), h)
  /\ (forall T h, PopBack (T:=T) false SimpleVector_default h
                  = AssertionFailed)
  /\ operator_index false v 3 h = AssertionFailed.
Proof.
  intros h v.
  assert (H1 : elements h v = Some ([1; 2] ++ [3])) by reflexivity.
  destruct (contract_checks h v) as (_ & Hidx & Herase & _).
  destruct (Herase _ _ H1) as [Hrun _].
  split_and!;
    [exact H1 | exact Hrun
    | intros T h'; by apply (contract_checks h' SimpleVector_default)
    | apply Hidx; simpl; lia].
Defined.

(** C3 as stated fails: in a debug build [Erase] at the end position of a
    container that holds 1, 2, 3 is not stopped by an assertion; it returns
    and the container has lost its last element. *)
Lemma Erase_end_is_not_asserted :
  let h : heap Z := [Some [Some 1; Some 2; Some 3]] in
  let v := {| array_ := Ptr (Some 0%nat) 0; size_ := 3; capacity_ := 3 |} in
  elements h v = Some [1; 2; 3]
  /\ Erase v (end_ v) h <> AssertionFailed
  /\ observe (drop_iterator (Erase v (end_ v) h)) = Ok (2, 3, Some [1; 2]).
Proof.
  intros h v. by split_and!.
Defined.

Lemma At_out_of_range_witness :
  let h : heap Z := [Some [Some 1; Some 2; Some 3; None]] in
  let v := {| array_ := Ptr (Some 0%nat) 0; size_ := 3; capacity_ := 4 |} in
  elements h v = Some ([1; 2] ++ [3])
  /\ At v 3 h = Thrown (out_of_range "Index out of range")
  /\ At v 8 h = Thrown (out_of_range "Index out of range")
  /\ At v 2 h = Ok (begin v +p 2, h)
  /\ load (begin v +p 2) h = Ok (Some 3, h).
Proof.
  intros h v.
  assert (H1 : elements h v = Some ([1; 2] ++ [3])) by reflexivity.
  destruct (At_out_of_range h v 3) as (_ & H3 & H8 & Hlast).
  destruct (Hlast _ _ H1) as [Hat Hload].
  by split_and!.
Defined.

Lemma Erase_at_index_witness :
  let h : heap Z := [Some [Some 1; Some 2; Some 3; None]] in
  let v := {| array_ := Ptr (Some 0%nat) 0; size_ := 3; capacity_ := 4 |} in
  elements h v = Some [1; 2; 3]
  /\ (1 < length [1; 2; 3])%nat
  /\ exists this' h',
       Erase v (begin v +p 1) h = Ok ((this', begin this' +p 1), h')
       /\ elements h' this' = Some [1; 3]
       /\ size_ this' = 2
       /\ load (begin this' +p 1) h' = Ok (Some 3, h').
Proof.
  intros h v.
  assert (H1 : elements h v = Some [1; 2; 3]) by reflexivity.
  assert (H2 : (1 < length [1; 2; 3])%nat) by (simpl; lia).
  split_and!; try done.
  destruct (Erase_at_index h v [1; 2; 3] 1 H1 H2)
    as (this' & h' & ys & Hrun & He & Hs & _ & -> & Hnext & _).
  exists this', h'. split_and!; try done. by apply Hnext.
Defined.

Lemma Reserve_capacity_witness :
  let h : heap Z := [Some [Some 1; Some 2; Some 3; None]] in
  let v := {| array_ := Ptr (Some 0%nat) 0; size_ := 3; capacity_ := 4 |} in
  elements h v = Some [1; 2; 3]
  /\ 8 <= SIZE_MAX
  /\ exists this' h',
       Reserve v 8 h = Ok (this', h')
       /\ elements h' this' = Some [1; 2; 3]
       /\ size_ this' = 3 /\ capacity_ this' = 8
       /\ Reserve this' 8 h' = Ok (this', h').
Proof.
  intros h v.
  assert (H1 : elements h v = Some [1; 2; 3]) by reflexivity.
  assert (H2 : 8 <= SIZE_MAX) by (pose proof SIZE_MAX_eq; lia).
  split_and!; try done.
  destruct (Reserve_capacity h v [1; 2; 3] 8 H1 H2)
    as (_ & this' & h' & Hrun & He & Hs & Hc & Hagain).
  by exists this', h'.
Defined.

Lemma copy_is_deep_witness :
  let h : heap Z := [Some [Some 1; Some 2; Some 3; None]] in
  let v := {| array_ := Ptr (Some 0%nat) 0; size_ := 3; capacity_ := 4 |} in
  elements h v = Some [1; 2; 3]
  /\ 2 * size_ v <= SIZE_MAX
  /\ exists this h1 this' h2,
       SimpleVector_copy v h = Ok (this, h1)
       /\ capacity_ this = 3
       /\ PushBack this 9 h1 = Ok (this', h2)
       /\ elements h2 this' = Some [1; 2; 3; 9]
       /\ elements h2 v = Some [1; 2; 3].
Proof.
  intros h v.
  assert (H1 : elements h v = Some [1; 2; 3]) by reflexivity.
  assert (H2 : 2 * size_ v <= SIZE_MAX)
    by (pose proof SIZE_MAX_eq; simpl; lia).
  split_and!; try done.
  destruct (copy_is_deep 0 h v [1; 2; 3] 9 H1 H2)
    as (this & h1 & Hcopy & _ & Hc & _ & _ & _
        & this' & h2 & Hpush & He' & Hv & _).
  by exists this, h1, this', h2.
Defined.

Lemma move_transfers_ownership_witness :
  let h : heap Z := [Some [Some 7]; Some [Some 1; Some 2; None]] in
  let d := {| array_ := Ptr (Some 0%nat) 0; size_ := 1; capacity_ := 1 |} in
  let v := {| array_ := Ptr (Some 1%nat) 0; size_ := 2; capacity_ := 3 |} in
  elements h v = Some [1; 2]
  /\ [d; v] !! 0%nat = Some d
  /\ [d; v] !! 1%nat = Some v
  /\ 0%nat <> 1%nat
  /\ wf h d = true
  /\ (forall l, base (array_ v) = Some l -> base (array_ d) <> Some l)
  /\ exists d' v' h',
       move_assign [d; v] 0 1 h = Ok ([d'; v'], h')
       /\ elements h' d' = Some [1; 2] /\ capacity_ d' = 3
       /\ size_ v' = 0 /\ capacity_ v' = 0.
Proof.
  intros h d v.
  assert (H1 : elements h v = Some [1; 2]) by reflexivity.
  assert (H2 : [d; v] !! 0%nat = Some d) by reflexivity.
  assert (H3 : [d; v] !! 1%nat = Some v) by reflexivity.
  assert (H4 : 0%nat <> 1%nat) by lia.
  assert (H5 : wf h d = true) by reflexivity.
  assert (H6 : forall l, base (array_ v) = Some l -> base (array_ d) <> Some l)
    by (simpl; congruence).
  split_and!; try done.
  destruct (move_transfers_ownership h [d; v] 0 1 d v [1; 2] H1 H2 H3 H4 H5 H6)
    as (_ & (d' & v' & h' & Hrun & _ & Hc & He & Hs' & Hc' & _) & _).
  by exists d', v', h'.
Defined.

Lemma Insert_at_end_is_PushBack_witness :
  let h : heap Z := [Some [Some 1; Some 2; Some 3; None]] in
  let v := {| array_ := Ptr (Some 0%nat) 0; size_ := 3; capacity_ := 4 |} in
  elements h v = Some [1; 2; 3]
  /\ observe (drop_iterator (Insert v (end_ v) 9 h))
     = observe (PushBack v 9 h)
  /\ observe (PushBack v 9 h) = Ok (4, 4, Some [1; 2; 3; 9]).
Proof.
  intros h v.
  assert (H1 : elements h v = Some [1; 2; 3]) by reflexivity.
  destruct (Insert_at_end_is_PushBack h v [1; 2; 3] 9 H1) as (Hsame & _).
  by split_and!.
Defined.

Lemma invariant_of_completed_runs_witness :
  let cs : list (call Z) :=
    [New_init [1; 2]; New_copy 0; Call_PushBack 1 5; Assign_move 0 1;
     Call_PopBack 0] in
  let objs :=
    [{| array_ := Ptr (Some 2%nat) 0; size_ := 2; capacity_ := 4 |};
     {| array_ := nullptr; size_ := 0; capacity_ := 0 |}] in
  let h : heap Z := [None; None; Some [Some 1; Some 2; Some 5; None]] in
  run 0 false cs [] [] = Ok (objs, h)
  /\ (forall this, this ∈ objs -> 0 <= size_ this <= capacity_ this)
  /\ run 0 true cs [] [] = Ok (objs, h).
Proof.
  intros cs objs h.
  assert (H1 : run 0 false cs [] [] = Ok (objs, h)) by reflexivity.
  destruct (invariant_of_completed_runs 0 cs [] objs h H1) as (Hinv & _ & Hrel).
  by split_and!.
Defined.

(** C5 as stated fails: with assertions compiled out, [PopBack] on a
    default-constructed container returns normally and leaves
    [size = SIZE_MAX] above [capacity = 0]. *)
Lemma PopBack_NDEBUG_breaks_invariant :
  let this :=
    {| array_ := nullptr; size_ := 18446744073709551615; capacity_ := 0 |} in
  run (T:=Z) 0 true [New_default; Call_PopBack 0] [] [] = Ok ([this], [])
  /\ ~ (0 <= size_ this <= capacity_ this).
Proof.
  intros this. split; [reflexivity|]. simpl. lia.
Defined.

(** * Further properties of the member functions *)

Section LoopFacts.

Context {T : Type}.

Implicit Types (h : heap T) (b : block T) (l : nat) (p : ptr).

Lemma fill_loop_within n :
  forall h first l (o : nat) b (value : T),
    base first = Some l -> off first = Z.of_nat o ->
    block_at h l = Some b -> (o + n <= length b)%nat ->
    fill_loop n first value h
    = Ok (tt, <[l := Some (splice b o (replicate n (Some value)))]> h).
Proof.
  induction n as [|n IH]; intros h first l o b value Hb Ho Hblk Hn.
  - simpl. unfold ret. by rewrite splice_nil, heap_insert_id.
  - simpl. erewrite bind_Ok by (eapply store_at; eauto; lia).
    erewrite (IH _ _ l (S o) (<[o := Some value]> b)); eauto.
    + rewrite list_insert_insert_eq. do 3 f_equal.
      by rewrite splice_cons by lia.
    + simpl. rewrite Ho. lia.
    + apply block_at_insert_eq. by eapply block_at_lt.
    + rewrite length_insert. lia.
Qed.

Lemma copy_list_within (init : list T) :
  forall h d_first l (o : nat) b,
    base d_first = Some l -> off d_first = Z.of_nat o ->
    block_at h l = Some b -> (o + length init <= length b)%nat ->
    copy_list init d_first h
    = Ok (tt, <[l := Some (splice b o (Some <$> init))]> h).
Proof.
  induction init as [|x init IH]; intros h d_first l o b Hb Ho Hblk Hn.
  - simpl. unfold ret. by rewrite splice_nil, heap_insert_id.
  - simpl in *. erewrite bind_Ok by (eapply store_at; eauto; lia).
    erewrite (IH _ _ l (S o) (<[o := Some x]> b)); eauto.
    + rewrite list_insert_insert_eq. do 3 f_equal.
      by rewrite splice_cons by lia.
    + simpl. rewrite Ho. lia.
    + apply block_at_insert_eq. by eapply block_at_lt.
    + rewrite length_insert. lia.
Qed.

Lemma construct_loop_within (Type_ : T) n :
  forall h p l (i : Z) (o : nat) b,
    base p = Some l -> off p = 0 -> i = Z.of_nat o ->
    block_at h l = Some b -> (o + n <= length b)%nat ->
    construct_loop Type_ n p i h
    = Ok (tt, <[l := Some (splice b o (replicate n (Some Type_)))]> h).
Proof.
  induction n as [|n IH]; intros h p l i o b Hb Ho Hi Hblk Hn.
  - simpl. unfold ret. by rewrite splice_nil, heap_insert_id.
  - simpl. unfold construct_at.
    erewrite bind_Ok by (eapply (store_at _ _ l o); eauto; simpl; lia).
    erewrite (IH _ _ l _ (S o) (<[o := Some Type_]> b)); eauto.
    + rewrite list_insert_insert_eq. do 3 f_equal.
      by rewrite splice_cons by lia.
    + lia.
    + apply block_at_insert_eq. by eapply block_at_lt.
    + rewrite length_insert. lia.
Qed.

End LoopFacts.

(** ** Constructors *)

Section Construction.

Context {T : Type}.

Context (Type_ : T).

Implicit Types (h : heap T) (xs ys : list T) (this other : SimpleVector).

(** A container that holds a sequence keeps it when a call works on a
    block allocated later. *)
Lemma elements_fresh h h' other ys :
  unchanged_outside (Ptr (Some (length h)) 0) h h' ->
  elements h other = Some ys -> elements h' other = Some ys.
Proof.
  intros Hu He. rewrite <- He.
  apply (elements_unchanged (Ptr (Some (length h)) 0)); [done| |by rewrite He].
  destruct (elements_models _ _ _ He) as [rest Hm].
  right. simpl. by apply models_base_fresh in Hm.
Qed.

Lemma SimpleVector_filled_spec h (size : Z) (value : T) :
  0 <= size <= SIZE_MAX ->
  let this :=
    {| array_ := Ptr (Some (length h)) 0; size_ := size; capacity_ := size |} in
  exists h',
    SimpleVector_filled size value h = Ok (this, h')
    /\ models h' this (replicate (Z.to_nat size) value) []
    /\ unchanged_outside (array_ this) h h'.
Proof.
  intros Hs this. unfold SimpleVector_filled.
  set (n := Z.to_nat size).
  set (h1 := h ++ [Some (replicate n None)]).
  set (blk := splice (replicate n (None : slot T)) 0 (replicate n (Some value))).
  exists (<[length h := Some blk]> h1).
  assert (Hblk : blk = (Some <$> replicate n value) ++ []).
  { unfold blk. rewrite <- fmap_replicate.
    rewrite splice_fresh by (by rewrite length_replicate).
    by rewrite length_replicate, Nat.sub_diag. }
  split_and!.
  - erewrite bind_Ok by apply ArrayPtr_new_at.
    erewrite bind_Ok; [done|]. unfold std_fill.
    erewrite bind_Ok.
    2:{ eapply (distance_in h1 _ _ (replicate n None) 0 n); try done.
        - unfold storage. simpl. apply block_at_alloc.
        - unfold end_, Get. simpl. lia.
        - by rewrite length_replicate. }
    eapply (fill_loop_within n h1 _ (length h) 0); try done.
    + apply block_at_alloc.
    + by rewrite length_replicate.
  - unfold models, this, storage. simpl.
    rewrite block_at_insert_eq
      by (unfold h1; rewrite length_app; simpl; lia).
    rewrite length_replicate. split_and!; try lia. by rewrite Hblk.
  - apply unchanged_outside_fresh; [|done].
    apply unchanged_outside_alloc, unchanged_outside_refl.
Qed.

Lemma SimpleVector_init_spec h (init : list T) :
  Z.of_nat (length init) <= SIZE_MAX ->
  let n := Z.of_nat (length init) in
  let this :=
    {| array_ := Ptr (Some (length h)) 0; size_ := n; capacity_ := n |} in
  exists h',
    SimpleVector_init init h = Ok (this, h')
    /\ models h' this init []
    /\ unchanged_outside (array_ this) h h'.
Proof.
  intros Hs n this. unfold SimpleVector_init.
  rewrite to_size_t_id by lia. fold n. fold this.
  set (h1 := h ++ [Some (replicate (Z.to_nat n) None)]).
  set (blk := splice (replicate (Z.to_nat n) (None : slot T)) 0 (Some <$> init)).
  exists (<[length h := Some blk]> h1).
  assert (Hn : Z.to_nat n = length init) by (unfold n; lia).
  split_and!.
  - erewrite bind_Ok by apply ArrayPtr_new_at.
    erewrite bind_Ok; [done|].
    eapply (copy_list_within init h1 _ (length h) 0); try done.
    + apply block_at_alloc.
    + rewrite length_replicate. lia.
  - unfold models, this, storage. simpl.
    rewrite block_at_insert_eq
      by (unfold h1; rewrite length_app; simpl; lia).
    split_and!; try lia. f_equal. unfold blk.
    rewrite splice_fresh by lia.
    by replace (Z.to_nat n - length init)%nat with 0%nat by lia.
  - apply unchanged_outside_fresh; [|done].
    apply unchanged_outside_alloc, unchanged_outside_refl.
Qed.

Lemma SimpleVector_reserved_spec h (c : Z) :
  0 <= c <= SIZE_MAX ->
  let this :=
    {| array_ := Ptr (Some (length h)) 0; size_ := 0; capacity_ := c |} in
  SimpleVector_reserved (Reserve_proxy c) h = Ok (this, allocated h c)
  /\ models (allocated h c) this [] (replicate (Z.to_nat c) None)
  /\ unchanged_outside (array_ this) h (allocated h c).
Proof.
  intros Hc this. split_and!.
  - done.
  - unfold models, this, storage, allocated. simpl.
    rewrite block_at_alloc, length_replicate. split_and!; try done; lia.
  - apply unchanged_outside_alloc, unchanged_outside_refl.
Qed.

(** [PushBack] on a container with a spare slot: the element is
    constructed in that slot and nothing else happens. *)
Lemma PushBack_room h this xs r rest x :
  models h this xs (r :: rest) ->
  exists h',
    PushBack this x h = Ok (set_size this (size_ this + 1), h')
    /\ models h' (set_size this (size_ this + 1)) (xs ++ [x]) rest
    /\ writes_to (base (array_ this)) h h'.
Proof.
  intros Hm. unfold PushBack.
  pose proof Hm as (Ho & Hs & Hn & Hcap & Hmax). simpl in Hcap.
  destruct (Z.eqb_spec (size_ this) (capacity_ this)) as [Hfull|Hroom]; [lia|].
  destruct (construct_at_end h this xs r rest x Hm) as (h' & Hrun & Hm' & _).
  exists h'. erewrite bind_Ok by done. erewrite bind_Ok by exact Hrun.
  rewrite to_size_t_id by lia. split_and!; try done.
  by apply store_writes in Hrun.
Qed.

Lemma PushBack_all_room (items : list T) :
  forall h this xs rest,
    models h this xs rest -> (length items <= length rest)%nat ->
    exists this' h',
      PushBack_all this items h = Ok (this', h')
      /\ models h' this' (xs ++ items) (drop (length items) rest)
      /\ array_ this' = array_ this
      /\ capacity_ this' = capacity_ this
      /\ writes_to (base (array_ this)) h h'.
Proof.
  induction items as [|x items IH]; intros h this xs rest Hm Hlen.
  - exists this, h. rewrite app_nil_r. split_and!; try done.
    apply writes_to_refl.
  - destruct rest as [|r rest]; [simpl in Hlen; lia|].
    destruct (PushBack_room h this xs r rest x Hm) as (h1 & Hrun & Hm1 & Hw1).
    destruct (IH h1 _ _ rest Hm1) as (this' & h' & Hrun' & Hm' & Ha & Hc & Hw');
      [simpl in Hlen; lia|].
    exists this', h'. simpl. erewrite bind_Ok by exact Hrun.
    rewrite <- app_assoc in Hm'. split_and!; try done.
    by eapply writes_to_trans.
Qed.

(** X1. [SimpleVector(size, value)] returns a container of [size] elements,
    all equal to [value], with capacity [size], in a block allocated for
    it; the containers that existed before keep their elements.
    [SimpleVector(size)] does the same with the value [Type()]. *)
Theorem filled_constructors h (size : Z) (value : T) :
  0 <= size <= SIZE_MAX ->
  (exists this h',
     SimpleVector_filled size value h = Ok (this, h')
     /\ elements h' this = Some (replicate (Z.to_nat size) value)
     /\ size_ this = size /\ capacity_ this = size
     /\ array_ this = Ptr (Some (length h)) 0
     /\ forall other ys,
          elements h other = Some ys -> elements h' other = Some ys)
  /\ (exists this h',
        SimpleVector_sized Type_ size h = Ok (this, h')
        /\ elements h' this = Some (replicate (Z.to_nat size) Type_)
        /\ size_ this = size /\ capacity_ this = size
        /\ array_ this = Ptr (Some (length h)) 0
        /\ forall other ys,
             elements h other = Some ys -> elements h' other = Some ys).
Proof.
  intros Hs. split.
  - destruct (SimpleVector_filled_spec h size value Hs) as (h' & Hrun & Hm & Hu).
    eexists _, h'. split_and!; try done.
    + by eapply models_elements.
    + intros other ys. by apply elements_fresh.
  - destruct (SimpleVector_filled_spec h size Type_ Hs) as (h' & Hrun & Hm & Hu).
    eexists _, h'. split_and!; try done.
    + by eapply models_elements.
    + intros other ys. by apply elements_fresh.
Qed.

(** X2. [SimpleVector(std::initializer_list)] returns a container that
    holds the elements of the list in order, with size and capacity equal
    to its length, in a block allocated for it; the containers that existed
    before keep their elements. *)
Theorem initializer_list_constructor h (init : list T) :
  Z.of_nat (length init) <= SIZE_MAX ->
  exists this h',
    SimpleVector_init init h = Ok (this, h')
    /\ elements h' this = Some init
    /\ size_ this = Z.of_nat (length init)
    /\ capacity_ this = Z.of_nat (length init)
    /\ array_ this = Ptr (Some (length h)) 0
    /\ forall other ys,
         elements h other = Some ys -> elements h' other = Some ys.
Proof.
  intros Hs.
  destruct (SimpleVector_init_spec h init Hs) as (h' & Hrun & Hm & Hu).
  eexists _, h'. split_and!; try done.
  - by eapply models_elements.
  - intros other ys. by apply elements_fresh.
Qed.

(** X3. [SimpleVector(Reserve(n))] returns an empty container of capacity
    [n]; pushing up to [n] elements onto it then allocates nothing: the
    container keeps its block and its capacity, no block of the heap
    appears or disappears, and it holds the pushed elements in order. *)
Theorem reserve_constructor_then_PushBack h (n : Z) (items : list T) :
  0 <= n <= SIZE_MAX ->
  Z.of_nat (length items) <= n ->
  exists this h1,
    SimpleVector_reserved (Reserve_proxy n) h = Ok (this, h1)
    /\ elements h1 this = Some []
    /\ size_ this = 0 /\ capacity_ this = n
    /\ exists this' h2,
         PushBack_all this items h1 = Ok (this', h2)
         /\ elements h2 this' = Some items
         /\ size_ this' = Z.of_nat (length items)
         /\ capacity_ this' = n
         /\ array_ this' = array_ this
         /\ length h2 = length h1.
Proof.
  intros Hn Hlen.
  destruct (SimpleVector_reserved_spec h n Hn) as (Hrun & Hm & _).
  eexists _, _. split_and!; [exact Hrun|by eapply models_elements|done..|].
  destruct (PushBack_all_room items _ _ _ _ Hm)
    as (this' & h2 & Hrun' & Hm' & Ha & Hc & Hw).
  { rewrite length_replicate. lia. }
  exists this', h2. split_and!; try done.
  - by eapply models_elements.
  - by rewrite (models_size _ _ _ _ Hm').
  - by destruct Hw.
Qed.

End Construction.

(** ** Element access, [PopBack], [Clear] and the iterators *)

Section Access.

Context {T : Type}.

Implicit Types (h : heap T) (xs ys : list T) (this other : SimpleVector).

Lemma splice_app_tail {X : Type} (A R ys : list X) :
  (length ys <= length R)%nat ->
  splice (A ++ R) (length A) ys = A ++ ys ++ drop (length ys) R.
Proof.
  intros Hle. unfold splice. by rewrite take_app_length, drop_app_add.
Qed.

Lemma PopBack_spec NDEBUG h this xs x rest :
  models h this (xs ++ [x]) rest ->
  PopBack NDEBUG this h = Ok (set_size this (size_ this - 1), h)
  /\ models h (set_size this (size_ this - 1)) xs (Some x :: rest).
Proof.
  intros (Ho & Hs & Hn & Hcap & Hmax).
  rewrite length_app in Hn, Hcap. simpl in Hn, Hcap. split.
  - unfold PopBack, assert.
    destruct (Z.gtb_spec (size_ this) 0); [|lia].
    rewrite to_size_t_id by lia. by destruct NDEBUG.
  - unfold models. simpl. rewrite Hs, fmap_app, <- app_assoc. simpl.
    split_and!; try done; lia.
Qed.

Lemma ArrayPtr_index_in h this xs rest (i : nat) :
  models h this xs rest -> (i < length xs)%nat ->
  ArrayPtr_index (array_ this) (Z.of_nat i) h
  = Ok (begin this +p Z.of_nat i, h).
Proof.
  intros (Ho & Hs & Hn & Hcap & Hmax) Hi. unfold ArrayPtr_index.
  rewrite Hs, length_app, length_fmap.
  destruct (Z.leb_spec 0 (Z.of_nat i)); [|lia].
  by destruct (Z.ltb_spec (Z.of_nat i) (Z.of_nat (length xs + length rest)));
    [|lia].
Qed.

Lemma operator_index_in NDEBUG h this xs rest (i : nat) :
  models h this xs rest -> (i < length xs)%nat ->
  operator_index NDEBUG this (Z.of_nat i) h
  = Ok (begin this +p Z.of_nat i, h).
Proof.
  intros Hm Hi. unfold operator_index, assert.
  pose proof (models_size _ _ _ _ Hm) as Hn.
  destruct (Z.ltb_spec (Z.of_nat i) (size_ this)); [|lia].
  erewrite bind_Ok by (by destruct NDEBUG).
  by eapply ArrayPtr_index_in.
Qed.

Lemma distance_begin_end h this xs rest :
  models h this xs rest ->
  distance (begin this) (end_ this) h = Ok (length xs, h).
Proof.
  intros (Ho & Hs & Hn & Hcap & Hmax).
  eapply (distance_in h _ _ _ 0 (length xs)); try done.
  - unfold end_, begin, Get. simpl. lia.
  - rewrite length_app, length_fmap. lia.
Qed.

(** X4. [PopBack] on a container that holds [xs ++ [x]] returns normally in
    every build mode and leaves [xs]; the capacity, the block and the heap
    are as before, and the removed element is not destroyed: it is still in
    the slot at the new end position. *)
Theorem PopBack_removes_last NDEBUG h this xs x :
  elements h this = Some (xs ++ [x]) ->
  exists this',
    PopBack NDEBUG this h = Ok (this', h)
    /\ elements h this' = Some xs
    /\ size_ this' = size_ this - 1
    /\ capacity_ this' = capacity_ this
    /\ array_ this' = array_ this
    /\ load (end_ this') h = Ok (Some x, h).
Proof.
  intros He. destruct (elements_models _ _ _ He) as [rest Hm].
  destruct (PopBack_spec NDEBUG h this xs x rest Hm) as [Hrun Hm'].
  eexists. split_and!; [exact Hrun|by eapply models_elements|done..|].
  pose proof (models_size _ _ _ _ Hm') as Hn.
  assert (end_ (set_size this (size_ this - 1))
          = begin this +p Z.of_nat (length xs)) as ->
    by (unfold end_, begin; by rewrite Hn).
  eapply models_load; [exact Hm|]. by apply list_lookup_middle.
Qed.

(** X5. [PushBack(x)] followed by [PopBack()] gives back the elements and
    the size the container had; the capacity is the grown one, so the pair
    of calls is not the identity on a container that was full. *)
Theorem PushBack_then_PopBack NDEBUG h this xs x :
  elements h this = Some xs ->
  (size_ this = capacity_ this -> 2 * capacity_ this <= SIZE_MAX) ->
  exists v1 h1 v2,
    PushBack this x h = Ok (v1, h1)
    /\ PopBack NDEBUG v1 h1 = Ok (v2, h1)
    /\ elements h1 v2 = Some xs
    /\ size_ v2 = size_ this
    /\ capacity_ v2 = grown_capacity this.
Proof.
  intros He Hwrap. destruct (elements_models _ _ _ He) as [rest Hm].
  destruct (PushBack_spec h this xs rest x Hm Hwrap)
    as (v1 & h1 & rest1 & Hpush & Hm1 & Hc1 & _).
  destruct (PopBack_spec NDEBUG h1 v1 xs x rest1 Hm1) as [Hpop Hm2].
  eexists v1, h1, _. split_and!; [exact Hpush|exact Hpop| | |done].
  - by eapply models_elements.
  - rewrite (models_size _ _ _ _ Hm2). by rewrite (models_size _ _ _ _ Hm).
Qed.

(** X6. [Clear] leaves an empty container with the capacity and the block
    it had; pushing up to [capacity] elements afterwards allocates nothing
    and the container then holds exactly the pushed elements. *)
Theorem Clear_keeps_storage h this xs (items : list T) :
  elements h this = Some xs ->
  Z.of_nat (length items) <= capacity_ this ->
  elements h (Clear this) = Some []
  /\ IsEmpty (Clear this) = true
  /\ capacity_ (Clear this) = capacity_ this
  /\ array_ (Clear this) = array_ this
  /\ exists this' h',
       PushBack_all (Clear this) items h = Ok (this', h')
       /\ elements h' this' = Some items
       /\ capacity_ this' = capacity_ this
       /\ array_ this' = array_ this
       /\ length h' = length h.
Proof.
  intros He Hlen. destruct (elements_models _ _ _ He) as [rest Hm].
  assert (Hm0 : models h (Clear this) [] ((Some <$> xs) ++ rest)).
  { destruct Hm as (Ho & Hs & Hn & Hcap & Hmax). unfold models, Clear. simpl.
    rewrite length_app, length_fmap. by split_and!. }
  split_and!; [by eapply models_elements|done..|].
  destruct (PushBack_all_room items _ _ _ _ Hm0)
    as (this' & h' & Hrun & Hm' & Ha & Hc & Hw).
  { destruct Hm as (_ & _ & _ & Hcap & _).
    rewrite length_app, length_fmap. lia. }
  exists this', h'. split_and!; try done.
  - by eapply models_elements.
  - by destruct Hw.
Qed.

(** X7. For an index below the size, [operator[]] (in every build mode)
    and [At] return a reference to the same slot, [begin() + index], which
    holds the element of that index; the heap is not changed. *)
Theorem element_access NDEBUG h this xs (i : nat) x :
  elements h this = Some xs ->
  xs !! i = Some x ->
  operator_index NDEBUG this (Z.of_nat i) h = Ok (begin this +p Z.of_nat i, h)
  /\ At this (Z.of_nat i) h = Ok (begin this +p Z.of_nat i, h)
  /\ load (begin this +p Z.of_nat i) h = Ok (Some x, h).
Proof.
  intros He Hx. destruct (elements_models _ _ _ He) as [rest Hm].
  pose proof (lookup_lt_Some _ _ _ Hx) as Hi.
  pose proof (models_size _ _ _ _ Hm) as Hn.
  split_and!.
  - by eapply operator_index_in.
  - unfold At. destruct (Z.geb_spec (Z.of_nat i) (size_ this)); [lia|].
    by eapply ArrayPtr_index_in.
  - by eapply models_load.
Qed.

(** X8. Assigning through the reference that [operator[]] returns for an
    index below the size replaces the element of that index and no other;
    size and capacity are untouched, and so is every container that owns
    another block. *)
Theorem element_update NDEBUG h this xs (i : nat) y :
  elements h this = Some xs ->
  (i < length xs)%nat ->
  exists h',
    (p <- operator_index NDEBUG this (Z.of_nat i); store p (Some y)) h
    = Ok (tt, h')
    /\ elements h' this = Some (<[i := y]> xs)
    /\ forall other ys,
         elements h other = Some ys ->
         base (array_ other) <> base (array_ this) ->
         elements h' other = Some ys.
Proof.
  intros He Hi. destruct (elements_models _ _ _ He) as [rest Hm].
  destruct (models_base_Some _ _ _ _ Hm) as [l Hb]; [lia|].
  pose proof Hm as (Ho & Hs & Hn & Hcap & Hmax).
  rewrite (storage_Some_block h _ l Hb) in Hs.
  eexists. split_and!.
  - erewrite bind_Ok by (by eapply operator_index_in).
    eapply (store_at h _ l i); try done.
    + unfold begin, Get. simpl. lia.
    + rewrite length_app, length_fmap. lia.
  - eapply (models_elements _ _ _ rest). unfold models, storage.
    rewrite Hb, block_at_insert_eq by (by eapply block_at_lt).
    rewrite length_insert. split_and!; try done.
    by rewrite insert_app_l, list_fmap_insert by (by rewrite length_fmap).
  - intros other ys Hother Hne. rewrite <- Hother.
    apply (elements_unchanged (array_ this)); [|by right|by rewrite Hother].
    apply unchanged_outside_own; [apply unchanged_outside_refl|done].
Qed.

(** X9. With assertions compiled out [operator[]] does no bounds check:
    for an index below the capacity it returns a reference to that slot of
    the block, also when the index is at or above the size, and for an
    index at or above the capacity the behaviour is undefined. With
    assertions enabled every index at or above the size stops at the
    [assert], and [At] throws for it in every build. *)
Theorem operator_index_unchecked h this xs (index : Z) :
  elements h this = Some xs ->
  0 <= index ->
  (index < capacity_ this ->
   operator_index true this index h = Ok (begin this +p index, h))
  /\ (capacity_ this <= index -> operator_index true this index h = Undefined)
  /\ (size_ this <= index ->
      operator_index false this index h = AssertionFailed
      /\ At this index h = Thrown (out_of_range "Index out of range")).
Proof.
  intros He Hi. destruct (elements_models _ _ _ He) as [rest Hm].
  pose proof Hm as (Ho & Hs & Hn & Hcap & Hmax).
  unfold operator_index, At, assert, ArrayPtr_index, bind, ret.
  rewrite Hs, length_app, length_fmap, <- Hcap.
  destruct (Z.leb_spec 0 index); [|lia]. split_and!.
  - intros Hlt. by destruct (Z.ltb_spec index (capacity_ this)); [|lia].
  - intros Hge. by destruct (Z.ltb_spec index (capacity_ this)); [lia|].
  - intros Hge. split.
    + by destruct (Z.ltb_spec index (size_ this)); [lia|].
    + by destruct (Z.geb_spec index (size_ this)); [|lia].
Qed.

(** X10. The range from [begin()] to [end()] (and from [cbegin()] to
    [cend()]) of a container that holds [xs] has the length of [xs], its
    k-th position holds the k-th element, and it is empty exactly when
    [IsEmpty()] is true. *)
Theorem iterator_range h this xs :
  elements h this = Some xs ->
  distance (begin this) (end_ this) h = Ok (length xs, h)
  /\ distance (cbegin this) (cend this) h = Ok (length xs, h)
  /\ GetSize this = Z.of_nat (length xs)
  /\ (forall (i : nat) x,
        xs !! i = Some x -> load (begin this +p Z.of_nat i) h = Ok (Some x, h))
  /\ (IsEmpty this = true <-> xs = [])
  /\ (begin this = end_ this <-> xs = []).
Proof.
  intros He. destruct (elements_models _ _ _ He) as [rest Hm].
  pose proof (models_size _ _ _ _ Hm) as Hn.
  split_and!.
  - by eapply distance_begin_end.
  - by eapply distance_begin_end.
  - done.
  - intros i x Hx. by eapply models_load.
  - unfold IsEmpty. rewrite Hn, Z.eqb_eq. destruct xs; [done|].
    simpl. split; [lia|done].
  - unfold begin, end_, Get, ptr_add. rewrite Hn.
    destruct (array_ this) as [bs o]. simpl. split.
    + intros [= Ho]. destruct xs; [done|]. simpl in Ho. lia.
    + intros ->. simpl. f_equal. lia.
Qed.

End Access.

(** ** [Resize] *)

Section Resizing.

Context {T : Type}.

Context (Type_ : T).

Implicit Types (h : heap T) (xs ys : list T) (this other : SimpleVector).

Lemma Resize_spec h this xs rest (n : Z) :
  models h this xs rest ->
  0 <= n <= SIZE_MAX ->
  exists this' h' rest',
    Resize Type_ this n h = Ok (this', h')
    /\ models h' this'
         (take (Z.to_nat n) xs ++ replicate (Z.to_nat n - length xs) Type_)
         rest'
    /\ capacity_ this' = Z.max (capacity_ this) n
    /\ (n <= capacity_ this -> array_ this' = array_ this)
    /\ (capacity_ this < n -> array_ this' = Ptr (Some (length h)) 0)
    /\ unchanged_outside (array_ this) h h'.
Proof.
  intros Hm Hn. unfold Resize, construct_range.
  pose proof (models_base_fresh _ _ _ _ Hm) as Hfresh.
  pose proof Hm as (Ho & Hs & Hsz & Hcap & Hmax).
  set (N := Z.to_nat n).
  set (b := (Some <$> xs) ++ rest) in *.
  destruct (Z.gtb_spec n (capacity_ this)) as [Hgrow|Hfit].
  - set (k := (N - length xs)%nat).
    set (L := length h) in *.
    set (h1 := h ++ [Some (replicate N None)]).
    set (blk2 := (Some <$> xs) ++ replicate k (None : slot T)).
    set (h2 := <[L := Some blk2]> h1).
    set (blk3 := (Some <$> xs) ++ replicate k (Some Type_)).
    set (h3 := <[L := Some blk3]> h2).
    assert (HL : (L < length h1)%nat)
      by (unfold h1; rewrite length_app; simpl; lia).
    assert (Hmove :
      std_move (begin this) (end_ this) (Ptr (Some L) 0) h1
      = Ok (Ptr (Some L) 0 +p Z.of_nat (length xs), h2)).
    { unfold h2, blk2, k. rewrite <- splice_fresh by lia.
      assert (take (length xs) (drop 0 b) = Some <$> xs) as <-
        by (simpl; apply take_app_length'; by rewrite length_fmap).
      eapply (std_move_across h1 _ _ _ L 0 0); try done.
      - by apply storage_alloc_old.
      - unfold end_, Get. simpl. lia.
      - unfold b. rewrite length_app, length_fmap. lia.
      - apply block_at_alloc.
      - rewrite length_replicate. lia. }
    assert (Hcons :
      construct_loop Type_ (Z.to_nat (n - size_ this)) (Ptr (Some L) 0)
        (size_ this) h2 = Ok (tt, h3)).
    { replace (Z.to_nat (n - size_ this)) with k by lia.
      unfold h3.
      assert (blk3 = splice blk2 (length xs) (replicate k (Some Type_))) as ->.
      { unfold blk3, blk2. rewrite <- (length_fmap Some xs) at 1.
        rewrite splice_app_tail by (by rewrite !length_replicate).
        by rewrite length_replicate, drop_replicate, Nat.sub_diag, app_nil_r. }
      eapply (construct_loop_within Type_ k h2 _ L _ (length xs)); try done.
      - by apply block_at_insert_eq.
      - unfold blk2. rewrite length_app, length_fmap, length_replicate. lia. }
    eexists _, (release (array_ this) h3), [].
    split_and!.
    + erewrite (bind_Ok _ _ h
                  {| array_ := Ptr (Some L) 0; size_ := size_ this;
                     capacity_ := n |} (release (array_ this) h3)); [done|].
      erewrite bind_Ok by apply ArrayPtr_new_at.
      erewrite bind_Ok by exact Hmove.
      erewrite bind_Ok by exact Hcons.
      apply (adopt_release h3 this _ n b).
      unfold h3, h2. rewrite !storage_insert_ne by done.
      by apply storage_alloc_old.
    + unfold models, storage. simpl.
      rewrite block_at_release by done.
      unfold h3. rewrite block_at_insert_eq
        by (unfold h2; by rewrite length_insert).
      rewrite take_ge by lia. fold k.
      rewrite length_app, length_replicate.
      split_and!; try lia.
      by rewrite fmap_app, fmap_replicate, app_nil_r.
    + simpl. lia.
    + simpl. lia.
    + done.
    + apply unchanged_outside_release.
      do 2 (apply unchanged_outside_fresh; [|done]).
      apply unchanged_outside_alloc, unchanged_outside_refl.
  - destruct (Z.gtb_spec n (size_ this)) as [Hmore|Hless].
    + set (k := (N - length xs)%nat).
      destruct (models_base_Some _ _ _ _ Hm) as [l Hb]; [lia|].
      pose proof Hs as Hblk. rewrite (storage_Some_block h _ l Hb) in Hblk.
      eexists _, _, (drop k rest).
      split_and!.
      * erewrite (bind_Ok _ _ h this); [done|].
        erewrite bind_Ok; [done|].
        replace (Z.to_nat (n - size_ this)) with k by lia.
        eapply (construct_loop_within Type_ k h _ l _ (length xs)); try done.
        unfold b. rewrite length_app, length_fmap. lia.
      * unfold models, storage. simpl. rewrite Hb.
        rewrite block_at_insert_eq by (by eapply block_at_lt).
        rewrite take_ge by lia. fold k.
        rewrite length_app, length_replicate, length_drop.
        split_and!; try lia.
        unfold b. rewrite <- (length_fmap Some xs) at 1.
        rewrite splice_app_tail by (rewrite length_replicate; lia).
        by rewrite length_replicate, fmap_app, fmap_replicate, <- app_assoc.
      * simpl. lia.
      * done.
      * lia.
      * apply unchanged_outside_own; [apply unchanged_outside_refl|done].
    + eexists _, h, ((Some <$> drop N xs) ++ rest).
      split_and!.
      * erewrite (bind_Ok _ _ h this h); [done|]. by erewrite bind_Ok.
      * unfold models. simpl. rewrite Hs.
        replace (N - length xs)%nat with 0%nat by lia. simpl.
        rewrite app_nil_r, length_take, length_app, length_fmap, length_drop.
        split_and!; try lia.
        unfold b. by rewrite app_assoc, <- fmap_app, take_drop.
      * simpl. lia.
      * done.
      * lia.
      * apply unchanged_outside_refl.
Qed.

(** X11. [Resize(n)] on a container that holds [xs] returns normally and
    leaves size [n]: the first [n] elements of [xs] when [n <= size],
    otherwise [xs] followed by [n - size] copies of [Type()]. The capacity
    becomes [max(capacity, n)]: the block is kept when [n <= capacity] and
    a new one is allocated otherwise. Containers that own another block
    keep their elements. *)
Theorem Resize_elements h this xs (n : Z) :
  elements h this = Some xs ->
  0 <= n <= SIZE_MAX ->
  exists this' h',
    Resize Type_ this n h = Ok (this', h')
    /\ elements h' this'
       = Some (take (Z.to_nat n) xs
               ++ replicate (Z.to_nat n - length xs) Type_)
    /\ size_ this' = n
    /\ capacity_ this' = Z.max (capacity_ this) n
    /\ (n <= capacity_ this -> array_ this' = array_ this)
    /\ (capacity_ this < n -> array_ this' = Ptr (Some (length h)) 0)
    /\ forall other ys,
         elements h other = Some ys ->
         base (array_ other) <> base (array_ this) ->
         elements h' other = Some ys.
Proof.
  intros He Hn. destruct (elements_models _ _ _ He) as [rest Hm].
  destruct (Resize_spec h this xs rest n Hm Hn)
    as (this' & h' & rest' & Hrun & Hm' & Hc & Hkeep & Hnew & Hu).
  exists this', h'. split_and!; try done.
  - by eapply models_elements.
  - rewrite (models_size _ _ _ _ Hm').
    rewrite length_app, length_take, length_replicate. lia.
  - intros other ys Hother Hne. rewrite <- Hother.
    apply (elements_unchanged (array_ this)); [done|by right|by rewrite Hother].
Qed.

End Resizing.

(** ** Positions: round trips, bounds and invalidation *)

Section Positions.

Context {T : Type}.

Implicit Types (h : heap T) (xs ys : list T) (this other : SimpleVector).

Lemma ptr_diff_foreign h last first :
  base last <> base first -> ptr_diff last first h = Undefined.
Proof.
  intros Hne. unfold ptr_diff. by rewrite bool_decide_eq_false_2.
Qed.

Lemma ptr_diff_outside h this xs rest (k : Z) :
  models h this xs rest ->
  ~ (0 <= k <= capacity_ this) ->
  ptr_diff (begin this +p k) (begin this) h = Undefined.
Proof.
  intros Hm Hk. unfold ptr_diff, valid_ptr.
  rewrite (models_storage_at h this xs rest k Hm).
  pose proof Hm as (Ho & Hs & Hn & Hcap & Hmax).
  rewrite length_app, length_fmap. unfold begin, Get. simpl. rewrite Ho.
  destruct (bool_decide _); [|done]. simpl.
  destruct (Z.leb_spec 0 (0 + k)); [|done].
  by destruct (Z.leb_spec (0 + k) (Z.of_nat (length xs + length rest)));
    [lia|].
Qed.

Lemma load_released h p l :
  base p = Some l -> block_at h l = None -> load p h = Undefined.
Proof.
  intros Hb Hl. unfold load. by rewrite Hb, Hl.
Qed.

(** The block a container owned before a reallocation is released. *)
Lemma released_block h this l h3 p s u h' :
  wf h this = true ->
  base (array_ this) = Some l ->
  length h3 = S (length h) ->
  store p s (release (array_ this) h3) = Ok (u, h') ->
  base p = Some (length h) ->
  block_at h' l = None.
Proof.
  intros Hwf Hb Hlen (l0 & b0 & Hb0 & _ & _ & ->)%store_inv Hp.
  pose proof (wf_base_lt h this l Hwf Hb) as Hl.
  rewrite Hp in Hb0. injection Hb0 as <-.
  rewrite block_at_insert_ne by lia.
  unfold release. rewrite Hb. apply block_at_insert_eq. lia.
Qed.

Lemma PushBack_full_inv h this x this' h' l :
  wf h this = true ->
  size_ this = capacity_ this ->
  base (array_ this) = Some l ->
  PushBack this x h = Ok (this', h') ->
  block_at h' l = None /\ array_ this' = Ptr (Some (length h)) 0.
Proof.
  intros Hwf Hfull Hb Hrun. unfold PushBack in Hrun.
  rewrite Hfull, Z.eqb_refl in Hrun.
  apply bind_inv in Hrun as (this1 & h1 & Hgrow & Hrun).
  apply bind_inv in Hrun as ([] & h2 & Hcons & [= -> ->]%ret_inv).
  apply bind_inv in Hgrow as (a & h0 & [-> ->]%ArrayPtr_new_inv & Hgrow).
  apply bind_inv in Hgrow as (p & h3 & (Hw3 & _)%std_move_inv & Hgrow).
  apply adopt_inv in Hgrow as [-> ->]. simpl in *. split; [|done].
  eapply (released_block h this l h3); try done.
  destruct Hw3 as (-> & _). unfold allocated. rewrite length_app. simpl. lia.
Qed.

Lemma Reserve_grow_inv h this (c : Z) this' h' l :
  wf h this = true ->
  capacity_ this < c ->
  base (array_ this) = Some l ->
  Reserve this c h = Ok (this', h') ->
  block_at h' l = None.
Proof.
  intros Hwf Hc Hb Hrun. unfold Reserve in Hrun.
  destruct (Z.gtb_spec c (capacity_ this)); [|lia].
  apply bind_inv in Hrun as (a & h0 & [-> ->]%ArrayPtr_new_inv & Hrun).
  apply bind_inv in Hrun as (p & h3 & (Hw3 & _)%std_move_inv & Hrun).
  apply adopt_inv in Hrun as [-> ->].
  pose proof (wf_base_lt h this l Hwf Hb) as Hl.
  unfold release. rewrite Hb. apply block_at_insert_eq.
  destruct Hw3 as (-> & _). unfold allocated. rewrite length_app. simpl. lia.
Qed.

(** X12. [Insert] at index [i] followed by [Erase] at the iterator that
    [Insert] returned gives back the elements and the size the container
    had; [Erase] returns the same position; the capacity stays the grown
    one. *)
Theorem Insert_then_Erase h this xs (i : nat) x :
  elements h this = Some xs ->
  (i <= length xs)%nat ->
  (size_ this = capacity_ this -> 2 * capacity_ this <= SIZE_MAX) ->
  exists v1 it h1 v2 h2,
    Insert this (begin this +p Z.of_nat i) x h = Ok ((v1, it), h1)
    /\ Erase v1 it h1 = Ok ((v2, it), h2)
    /\ elements h2 v2 = Some xs
    /\ size_ v2 = size_ this
    /\ capacity_ v2 = grown_capacity this.
Proof.
  intros He Hi Hwrap. destruct (elements_models _ _ _ He) as [rest Hm].
  pose proof (models_size _ _ _ _ Hm) as Hn.
  rewrite <- (take_drop i xs) in Hm.
  assert (Hlen : length (take i xs) = i) by (rewrite length_take; lia).
  destruct (Insert_spec h this _ _ rest x Hm Hwrap)
    as (v1 & h1 & rest1 & Hins & Hm1 & Hc1 & _).
  destruct (Erase_spec h1 v1 _ x _ rest1 Hm1)
    as (h2 & rest2 & Hers & Hm2 & _).
  rewrite Hlen in Hins, Hers. rewrite take_drop in Hm2.
  eexists v1, _, h1, _, h2. split_and!; [exact Hins|exact Hers| | |done].
  - by eapply models_elements.
  - by rewrite (models_size _ _ _ _ Hm2).
Qed.

(** [Erase] at a position from the last element on: nothing is moved. *)
Lemma Erase_tail h this xs x rest (k : Z) :
  models h this (xs ++ [x]) rest ->
  size_ this - 1 <= k <= capacity_ this ->
  Erase this (begin this +p k) h
  = Ok ((set_size this (size_ this - 1), begin this +p k), h)
  /\ models h (set_size this (size_ this - 1)) xs (Some x :: rest).
Proof.
  intros Hm Hk.
  pose proof (fun k => models_storage_at h this _ rest k Hm) as Hst.
  pose proof Hm as (Ho & Hs & Hn & Hcap & Hmax).
  rewrite length_app in Hn, Hcap. simpl in Hn, Hcap.
  split.
  - unfold Erase.
    erewrite bind_Ok.
    2:{ eapply (ptr_diff_in h _ _ _); [done|apply (Hst 0)|..];
          rewrite !length_app, length_fmap, length_app;
          unfold begin, Get; simpl; lia. }
    assert (to_size_t (off (begin this +p k) - off (begin this)) = k) as ->.
    { unfold begin, Get. simpl. rewrite to_size_t_id; lia. }
    rewrite (to_size_t_id (size_ this - 1)) by lia.
    destruct (Z.ltb_spec k (size_ this - 1)); [lia|].
    by erewrite (bind_Ok _ _ h tt h) by done.
  - unfold models. simpl. rewrite Hs, fmap_app, <- app_assoc.
    simpl. split_and!; try done; lia.
Qed.

(** X13. [Erase] does not check its position: for every position from
    [end()] to the end of the block, on a container that holds
    [xs ++ [x]], it returns normally, moves nothing, drops the last element
    and returns the position it was given. *)
Theorem Erase_past_end h this xs x (k : Z) :
  elements h this = Some (xs ++ [x]) ->
  size_ this <= k <= capacity_ this ->
  Erase this (begin this +p k) h
  = Ok ((set_size this (size_ this - 1), begin this +p k), h)
  /\ elements h (set_size this (size_ this - 1)) = Some xs.
Proof.
  intros He Hk. destruct (elements_models _ _ _ He) as [rest Hm].
  destruct (Erase_tail h this xs x rest k Hm) as [Hrun Hm']; [lia|].
  split; [done|]. by eapply models_elements.
Qed.

(** X14. [Erase] at the position of the last element does what [PopBack]
    does: it moves nothing, leaves the same container and the same heap,
    and returns the position it was given, which is the new [end()]. *)
Theorem Erase_last_is_PopBack NDEBUG h this xs x :
  elements h this = Some (xs ++ [x]) ->
  exists this',
    Erase this (end_ this +p -1) h = Ok ((this', end_ this'), h)
    /\ PopBack NDEBUG this h = Ok (this', h)
    /\ elements h this' = Some xs
    /\ end_ this' = end_ this +p -1.
Proof.
  intros He. destruct (elements_models _ _ _ He) as [rest Hm].
  pose proof (models_size _ _ _ _ Hm) as Hn.
  rewrite length_app in Hn. simpl in Hn.
  destruct (Erase_tail h this xs x rest (size_ this - 1) Hm) as [Hrun Hm'].
  { pose proof Hm as (_ & _ & _ & Hcap & _).
    rewrite !length_app in Hcap. simpl in Hcap. lia. }
  assert (Hend : end_ (set_size this (size_ this - 1)) = end_ this +p -1).
  { unfold end_, ptr_add, Get. simpl. f_equal. lia. }
  assert (Hpos : begin this +p (size_ this - 1) = end_ this +p -1).
  { unfold begin, end_, ptr_add, Get. simpl. f_equal. lia. }
  exists (set_size this (size_ this - 1)). split_and!; try done.
  - by rewrite Hend, <- Hpos.
  - by destruct (PopBack_spec NDEBUG h this xs x rest Hm).
  - by eapply models_elements.
Qed.

(** X15. [Insert] and [Erase] have undefined behaviour when the position
    points into another block than the container's, and [Insert] also when
    the position is not in the range from [begin()] to [end()]. *)
Theorem position_outside_is_undefined h this xs x :
  elements h this = Some xs ->
  (forall pos,
     base pos <> base (array_ this) ->
     Insert this pos x h = Undefined /\ Erase this pos h = Undefined)
  /\ (forall k : Z,
        ~ (0 <= k <= size_ this) ->
        Insert this (begin this +p k) x h = Undefined).
Proof.
  intros He. destruct (elements_models _ _ _ He) as [rest Hm].
  split.
  - intros pos Hne. unfold Insert, Erase.
    by rewrite !(bind_Undefined _ _ _ (ptr_diff_foreign h pos _ Hne)).
  - intros k Hk. unfold Insert.
    pose proof (fun k => models_storage_at h this _ rest k Hm) as Hst.
    pose proof Hm as (Ho & Hs & Hn & Hcap & Hmax).
    destruct (decide (0 <= k <= capacity_ this)) as [Hin|Hout].
    + erewrite bind_Ok.
      2:{ eapply (ptr_diff_in h _ _ _); [done|apply (Hst 0)|..];
            rewrite !length_app, length_fmap;
            unfold begin, Get; simpl; lia. }
      assert (to_size_t (off (begin this +p k) - off (begin this)) = k) as ->.
      { unfold begin, Get. simpl. rewrite to_size_t_id; lia. }
      destruct (Z.eqb_spec (size_ this) (capacity_ this)); [lia|].
      apply bind_Undefined, bind_Undefined. unfold std_move_backward.
      apply bind_Undefined, distance_reversed.
      unfold begin, end_, Get. simpl. lia.
    + by rewrite (bind_Undefined _ _ _ (ptr_diff_outside h this xs rest k Hm Hout)).
Qed.

(** X16. [PushBack] on a container with a spare slot keeps the block:
    the positions handed out before still hold their elements. On a full
    container it moves the elements to a new block and releases the old
    one: reading through a position handed out before is undefined
    behaviour. [Reserve] with a larger capacity releases the old block in
    the same way. *)
Theorem reallocation_invalidates_positions h this xs x (c : Z) :
  elements h this = Some xs ->
  (size_ this = capacity_ this -> 2 * capacity_ this <= SIZE_MAX) ->
  capacity_ this < c <= SIZE_MAX ->
  (exists this' h',
     PushBack this x h = Ok (this', h')
     /\ (size_ this < capacity_ this ->
         array_ this' = array_ this
         /\ forall (i : nat) y,
              xs !! i = Some y ->
              load (begin this +p Z.of_nat i) h' = Ok (Some y, h'))
     /\ (size_ this = capacity_ this ->
         array_ this' = Ptr (Some (length h)) 0
         /\ forall k l,
              base (array_ this) = Some l ->
              load (begin this +p k) h' = Undefined))
  /\ (exists this' h',
        Reserve this c h = Ok (this', h')
        /\ elements h' this' = Some xs
        /\ array_ this' = Ptr (Some (length h)) 0
        /\ forall k l,
             base (array_ this) = Some l ->
             load (begin this +p k) h' = Undefined).
Proof.
  intros He Hwrap Hc. destruct (elements_models _ _ _ He) as [rest Hm].
  pose proof (models_wf _ _ _ _ Hm) as Hwf.
  pose proof Hm as (Ho & Hs & Hn & Hcap & Hmax).
  split.
  - destruct (decide (size_ this = capacity_ this)) as [Hfull|Hroom].
    + destruct (PushBack_spec h this xs rest x Hm Hwrap)
        as (this' & h' & rest' & Hrun & _).
      exists this', h'. split_and!; [done|lia|]. intros _.
      destruct (base (array_ this)) as [l|] eqn:Hb.
      * destruct (PushBack_full_inv h this x this' h' l Hwf Hfull Hb Hrun)
          as [Hgone Ha].
        split; [done|]. intros k l' _. by apply (load_released h' _ l).
      * split; [|done]. unfold PushBack in Hrun.
        rewrite Hfull, Z.eqb_refl in Hrun.
        apply bind_inv in Hrun as (this1 & h1 & Hgrow & Hrun).
        apply bind_inv in Hrun as ([] & h2 & Hcons & [= -> ->]%ret_inv).
        apply bind_inv in Hgrow as (a & h0 & [-> ->]%ArrayPtr_new_inv & Hgrow).
        apply bind_inv in Hgrow as (p & h3 & _ & Hgrow).
        by apply adopt_inv in Hgrow as [-> ->].
    + destruct rest as [|r rest]; [simpl in Hcap; lia|].
      destruct (PushBack_room h this xs r rest x Hm) as (h' & Hrun & Hm' & _).
      eexists _, h'. split_and!; [exact Hrun| |lia]. intros _.
      split; [done|]. intros i y Hy.
      apply (models_load h' _ (xs ++ [x]) rest i y Hm').
      by apply lookup_app_l_Some.
  - destruct (Reserve_grow h this xs rest c Hm Hc) as (h' & Hrun & Hm' & _).
    eexists _, h'. split_and!; [exact Hrun|by eapply models_elements|done|].
    intros k l Hb. apply (load_released h' _ l); [done|].
    eapply Reserve_grow_inv; eauto. lia.
Qed.

End Positions.

(** ** The comparison operators *)

Section Comparing.

Context {T : Type}.

Context (Type_eq Type_lt : T -> T -> bool).

Implicit Types (h : heap T) (xs ys s t : list T) (p q : ptr).
Implicit Types (lhs rhs : SimpleVector).

Lemma ptr_add_0 p : p +p 0 = p.
Proof.
  destruct p as [bs o]. unfold ptr_add. simpl. f_equal. lia.
Qed.

Lemma ptr_add_succ p (k : nat) : p +p 1 +p Z.of_nat k = p +p Z.of_nat (S k).
Proof.
  unfold ptr_add. simpl. f_equal. lia.
Qed.

Lemma read_element h this xs rest (i : nat) x :
  models h this xs rest -> xs !! i = Some x ->
  read (begin this +p Z.of_nat i) h = Ok (x, h).
Proof.
  intros Hm Hx. unfold read.
  by erewrite bind_Ok by (by eapply models_load).
Qed.

(** When the elements [x :: s] can be read one after the other from [p]
    on, [x] is at [p] and [s] can be read from [p + 1] on. *)
Lemma read_cons h p x s :
  (forall (k : nat) y,
     (x :: s) !! k = Some y -> read (p +p Z.of_nat k) h = Ok (y, h)) ->
  read p h = Ok (x, h)
  /\ forall (k : nat) y,
       s !! k = Some y -> read (p +p 1 +p Z.of_nat k) h = Ok (y, h).
Proof.
  intros Hp. split.
  - rewrite <- (ptr_add_0 p). by apply (Hp 0%nat).
  - intros k y Hk. rewrite ptr_add_succ. by apply Hp.
Qed.

Lemma equal_loop_spec h s :
  forall t p q,
    length s = length t ->
    (forall (k : nat) x,
       s !! k = Some x -> read (p +p Z.of_nat k) h = Ok (x, h)) ->
    (forall (k : nat) y,
       t !! k = Some y -> read (q +p Z.of_nat k) h = Ok (y, h)) ->
    exists r,
      equal_loop Type_eq (length s) p q h = Ok (r, h)
      /\ (r = true <-> Forall2 (fun x y => Type_eq x y = true) s t).
Proof.
  induction s as [|x s IH]; intros [|y t] p q Hlen Hp Hq; try done.
  - exists true. split; [done|]. split; [constructor|done].
  - apply read_cons in Hp as [Hx Hp]. apply read_cons in Hq as [Hy Hq].
    simpl. rewrite (bind_Ok _ _ h x h Hx), (bind_Ok _ _ h y h Hy).
    destruct (Type_eq x y) eqn:E.
    + destruct (IH t (p +p 1) (q +p 1)) as (r & Hr & Hiff); try done.
      { simpl in Hlen. lia. }
      exists r. split; [done|]. rewrite Hiff. split.
      * intros Hall. by constructor.
      * by inversion 1.
    + exists false. split; [done|]. split; [done|].
      inversion 1. congruence.
Qed.

Lemma lexicographical_compare_loop_spec h s :
  forall t p q,
    (forall (k : nat) x,
       s !! k = Some x -> read (p +p Z.of_nat k) h = Ok (x, h)) ->
    (forall (k : nat) y,
       t !! k = Some y -> read (q +p Z.of_nat k) h = Ok (y, h)) ->
    exists r,
      lexicographical_compare_loop Type_lt (length s) (length t) p q h
      = Ok (r, h)
      /\ (r = true <-> lexicographic Type_lt s t).
Proof.
  induction s as [|x s IH]; intros [|y t] p q Hp Hq.
  - exists false. split; [done|]. split; [done|]. inversion 1.
  - exists true. split; [done|]. split; [constructor|done].
  - exists false. split; [done|]. split; [done|]. inversion 1.
  - apply read_cons in Hp as [Hx Hp]. apply read_cons in Hq as [Hy Hq].
    simpl. rewrite (bind_Ok _ _ h x h Hx), (bind_Ok _ _ h y h Hy).
    destruct (Type_lt x y) eqn:Exy.
    { exists true. split; [done|]. split; [|done]. intros _.
      by apply lexicographic_head. }
    destruct (Type_lt y x) eqn:Eyx.
    { exists false. split; [done|]. split; [done|].
      inversion 1; congruence. }
    destruct (IH t (p +p 1) (q +p 1)) as (r & Hr & Hiff); try done.
    exists r. split; [done|]. rewrite Hiff. split.
    + intros Hlex. by apply lexicographic_tail.
    + inversion 1; [congruence|done].
Qed.

Lemma operator_eq_spec h lhs rhs xs ys :
  elements h lhs = Some xs -> elements h rhs = Some ys ->
  exists r,
    operator_eq Type_eq lhs rhs h = Ok (r, h)
    /\ (r = true <-> Forall2 (fun x y => Type_eq x y = true) xs ys).
Proof.
  intros [r1 Hm1]%elements_models [r2 Hm2]%elements_models.
  unfold operator_eq, GetSize.
  rewrite (models_size _ _ _ _ Hm1), (models_size _ _ _ _ Hm2).
  destruct (Z.eqb_spec (Z.of_nat (length xs)) (Z.of_nat (length ys)))
    as [Hlen|Hlen].
  - unfold std_equal.
    erewrite bind_Ok by (by eapply distance_begin_end).
    apply equal_loop_spec; [lia|..]; intros k x Hk; by eapply read_element.
  - exists false. split; [done|]. split; [done|].
    intros Hall%Forall2_length. lia.
Qed.

Lemma operator_lt_spec h lhs rhs xs ys :
  elements h lhs = Some xs -> elements h rhs = Some ys ->
  exists r,
    operator_lt Type_lt lhs rhs h = Ok (r, h)
    /\ (r = true <-> lexicographic Type_lt xs ys).
Proof.
  intros [r1 Hm1]%elements_models [r2 Hm2]%elements_models.
  unfold operator_lt, std_lexicographical_compare.
  erewrite bind_Ok by (by eapply distance_begin_end).
  erewrite bind_Ok by (by eapply distance_begin_end).
  apply lexicographical_compare_loop_spec;
    intros k x Hk; by eapply read_element.
Qed.

Lemma Forall2_decides xs ys :
  (forall x y, Type_eq x y = true <-> x = y) ->
  Forall2 (fun x y => Type_eq x y = true) xs ys <-> xs = ys.
Proof.
  intros Hdec. rewrite list_eq_Forall2. split.
  - intros Hall. eapply Forall2_impl; [exact Hall|].
    intros x y. apply Hdec.
  - intros Hall. eapply Forall2_impl; [exact Hall|].
    intros x y. apply Hdec.
Qed.

(** No sequence comes before itself, and no two sequences come before
    each other. *)
Lemma lexicographic_asymmetric xs ys :
  (forall x y, Type_lt x y = true -> Type_lt y x = false) ->
  lexicographic Type_lt xs ys ->
  ~ lexicographic Type_lt ys xs /\ xs <> ys.
Proof.
  intros Hasym. induction 1 as [y ys|x xs y ys Hxy|x xs y ys Hxy Hyx Hlex IH].
  - split; [inversion 1|done].
  - split.
    + inversion 1; subst.
      * pose proof (Hasym _ _ Hxy). congruence.
      * congruence.
    + intros [= -> ->]. pose proof (Hasym _ _ Hxy). congruence.
  - destruct IH as [IH1 IH2]. split.
    + inversion 1; subst; [congruence|done].
    + intros [= -> ->]. done.
Qed.

(** Two sequences neither of which comes before the other are equal. *)
Lemma lexicographic_total xs :
  (forall x y, Type_lt x y = false -> Type_lt y x = false -> x = y) ->
  forall ys,
    ~ lexicographic Type_lt xs ys -> ~ lexicographic Type_lt ys xs -> xs = ys.
Proof.
  intros Htotal. induction xs as [|x xs IH]; intros [|y ys] H1 H2.
  - done.
  - destruct H1. constructor.
  - destruct H2. constructor.
  - destruct (Type_lt x y) eqn:Exy;
      [destruct H1; by apply lexicographic_head|].
    destruct (Type_lt y x) eqn:Eyx;
      [destruct H2; by apply lexicographic_head|].
    assert (x = y) as -> by (by apply Htotal). f_equal. apply IH.
    + intros Hlex. apply H1. by apply lexicographic_tail.
    + intros Hlex. apply H2. by apply lexicographic_tail.
Qed.

(** X17. On two containers that hold [xs] and [ys], [operator==] returns
    normally, without changing the heap, and answers whether [xs] and [ys]
    have the same length and elements that [Type]'s [operator==] accepts
    pairwise; capacities and reserved slots play no part, and elements
    are only compared when the sizes agree. [operator!=] answers the
    opposite. When [Type]'s [operator==] decides equality, [lhs == rhs]
    holds exactly when [xs = ys]. *)
Theorem operator_eq_compares_elements h lhs rhs xs ys :
  elements h lhs = Some xs ->
  elements h rhs = Some ys ->
  exists r,
    operator_eq Type_eq lhs rhs h = Ok (r, h)
    /\ operator_ne Type_eq lhs rhs h = Ok (negb r, h)
    /\ (r = true <-> Forall2 (fun x y => Type_eq x y = true) xs ys)
    /\ (length xs <> length ys -> r = false)
    /\ ((forall x y, Type_eq x y = true <-> x = y) ->
        (r = true <-> xs = ys)).
Proof.
  intros He1 He2.
  destruct (operator_eq_spec h lhs rhs xs ys He1 He2) as (r & Hrun & Hiff).
  exists r. split_and!; try done.
  - unfold operator_ne. by erewrite bind_Ok by exact Hrun.
  - intros Hlen. destruct r; [|done].
    destruct Hiff as [Hall _]. by apply Forall2_length in Hall.
  - intros Hdec. by rewrite Hiff, Forall2_decides.
Qed.

(** X18. On two containers that hold [xs] and [ys], [operator<] returns
    normally, without changing the heap, and answers whether [xs] comes
    before [ys] in the lexicographic order of [Type]'s [operator<]. The
    other three operators are this one with the sides exchanged or the
    answer negated: [rhs > lhs] is [lhs < rhs], and [lhs >= rhs] and
    [rhs <= lhs] are its negation. *)
Theorem operator_lt_is_lexicographic h lhs rhs xs ys :
  elements h lhs = Some xs ->
  elements h rhs = Some ys ->
  exists r,
    operator_lt Type_lt lhs rhs h = Ok (r, h)
    /\ (r = true <-> lexicographic Type_lt xs ys)
    /\ operator_gt Type_lt rhs lhs h = Ok (r, h)
    /\ operator_ge Type_lt lhs rhs h = Ok (negb r, h)
    /\ operator_le Type_lt rhs lhs h = Ok (negb r, h).
Proof.
  intros He1 He2.
  destruct (operator_lt_spec h lhs rhs xs ys He1 He2) as (r & Hrun & Hiff).
  exists r. split_and!; try done.
  - unfold operator_ge. by erewrite bind_Ok by exact Hrun.
  - unfold operator_le. by erewrite bind_Ok by exact Hrun.
Qed.

(** X19. When [Type]'s [operator==] decides equality and its [operator<]
    is a strict total order, exactly one of [lhs < rhs], [lhs == rhs] and
    [lhs > rhs] holds for two containers, [lhs <= rhs] holds exactly when
    [lhs < rhs] or [lhs == rhs] does, and [lhs >= rhs] exactly when
    [lhs > rhs] or [lhs == rhs] does. *)
Theorem comparison_trichotomy h lhs rhs xs ys :
  (forall x y, Type_eq x y = true <-> x = y) ->
  (forall x y, Type_lt x y = true -> Type_lt y x = false) ->
  (forall x y, Type_lt x y = false -> Type_lt y x = false -> x = y) ->
  elements h lhs = Some xs ->
  elements h rhs = Some ys ->
  exists less same greater,
    operator_lt Type_lt lhs rhs h = Ok (less, h)
    /\ operator_eq Type_eq lhs rhs h = Ok (same, h)
    /\ operator_gt Type_lt lhs rhs h = Ok (greater, h)
    /\ ((less = true /\ same = false /\ greater = false)
        \/ (less = false /\ same = true /\ greater = false)
        \/ (less = false /\ same = false /\ greater = true))
    /\ operator_le Type_lt lhs rhs h = Ok (less || same, h)
    /\ operator_ge Type_lt lhs rhs h = Ok (greater || same, h).
Proof.
  intros Hdec Hasym Htotal He1 He2.
  destruct (operator_lt_spec h lhs rhs xs ys He1 He2) as (less & Hlt & Hiff1).
  destruct (operator_lt_spec h rhs lhs ys xs He2 He1) as (greater & Hgt & Hiff2).
  destruct (operator_eq_spec h lhs rhs xs ys He1 He2) as (same & Heq & Hiff3).
  assert (Hiff4 : same = true <-> xs = ys).
  { by rewrite Hiff3, Forall2_decides. }
  exists less, same, greater. unfold operator_le, operator_ge, operator_gt.
  erewrite !bind_Ok by first [exact Hlt | exact Hgt].
  assert (Hcase : (less = true /\ same = false /\ greater = false)
                  \/ (less = false /\ same = true /\ greater = false)
                  \/ (less = false /\ same = false /\ greater = true)).
  { destruct less, greater, same; eauto.
    - destruct (lexicographic_asymmetric xs ys Hasym) as [Hno _];
        [by apply Hiff1|]. destruct Hno. by apply Hiff2.
    - destruct (lexicographic_asymmetric xs ys Hasym) as [Hno _];
        [by apply Hiff1|]. destruct Hno. by apply Hiff2.
    - destruct (lexicographic_asymmetric xs ys Hasym) as [_ Hne];
        [by apply Hiff1|]. destruct Hne. by apply Hiff4.
    - destruct (lexicographic_asymmetric ys xs Hasym) as [_ Hne];
        [by apply Hiff2|]. destruct Hne. symmetry. by apply Hiff4.
    - assert (xs = ys) as Hxy.
      { apply (lexicographic_total xs Htotal).
        - intros Hlex. by apply Hiff1 in Hlex.
        - intros Hlex. by apply Hiff2 in Hlex. }
      by apply Hiff4 in Hxy. }
  split_and!; try done.
  - unfold ret. do 2 f_equal.
    destruct Hcase as [(-> & -> & ->)|[(-> & -> & ->)|(-> & -> & ->)]]; done.
  - unfold ret. do 2 f_equal.
    destruct Hcase as [(-> & -> & ->)|[(-> & -> & ->)|(-> & -> & ->)]]; done.
Qed.

End Comparing.

(** ** Assignment, [swap] and programs over several containers *)

Section Programs.

Context {T : Type}.

Context (Type_ : T).

Implicit Types (h : heap T) (xs ys : list T) (objs : objects).
Implicit Types (this other : SimpleVector).

(** X20. Copy assignment [objs[i] = objs[j]] between two distinct objects,
    where the source holds [xs] and the destination is a well-formed
    container with a block of its own: the destination ends with the
    elements [xs] in a newly allocated block, with size and capacity both
    equal to the size of the source (whatever capacity either had); the
    source keeps its elements; the block the destination had is released.
    Assigning an object to itself changes nothing. *)
Theorem copy_assignment h objs (i j : nat) t r xs :
  objs !! i = Some t ->
  objs !! j = Some r ->
  i <> j ->
  wf h t = true ->
  elements h r = Some xs ->
  (forall l, base (array_ r) = Some l -> base (array_ t) <> Some l) ->
  (exists t' h',
     copy_assign objs i j h = Ok (<[i := t']> objs, h')
     /\ elements h' t' = Some xs
     /\ size_ t' = size_ r /\ capacity_ t' = size_ r
     /\ array_ t' = Ptr (Some (length h)) 0
     /\ elements h' r = Some xs
     /\ forall l, base (array_ t) = Some l -> block_at h' l = None)
  /\ copy_assign objs j j h = Ok (objs, h).
Proof.
  intros Hi Hj Hij Hwf He Hown. split.
  - destruct (elements_models _ _ _ He) as [rest Hm].
    destruct (SimpleVector_copy_spec h r xs rest Hm) as (h1 & Hcopy & Hm1 & Hu1).
    set (copy := {| array_ := Ptr (Some (length h)) 0; size_ := size_ r;
                    capacity_ := size_ r |}) in *.
    pose proof (wf_inv _ _ Hwf) as (_ & _ & _ & b & Hst & _).
    assert (Hfresh : base (array_ t) <> Some (length h)).
    { intros Hb. pose proof (wf_base_lt h t _ Hwf Hb). lia. }
    assert (Hst1 : storage h1 (array_ t) = Some b).
    { rewrite <- Hst.
      apply (storage_unchanged (array_ copy)); [done|done|by rewrite Hst]. }
    assert (Hu2 : unchanged_outside (array_ t) h1 (release (array_ t) h1))
      by apply unchanged_outside_release, unchanged_outside_refl.
    exists copy, (release (array_ t) h1). split_and!; try done.
    + unfold copy_assign, object. rewrite Hi, Hj.
      erewrite bind_Ok by done. erewrite bind_Ok by done.
      rewrite (bool_decide_eq_true_2 _ Hij).
      erewrite bind_Ok by exact Hcopy.
      unfold swap, SimpleVector_destroy. simpl.
      by erewrite bind_Ok by (by eapply ArrayPtr_delete_release).
    + rewrite <- (models_elements _ _ _ _ Hm1).
      apply (elements_unchanged (array_ t)); [done| |].
      * right. simpl. congruence.
      * by rewrite (models_elements _ _ _ _ Hm1).
    + assert (He1 : elements h1 r = Some xs)
        by exact (elements_fresh h h1 r xs Hu1 He).
      rewrite <- He1.
      apply (elements_unchanged (array_ t)); [done| |by rewrite He1].
      destruct (base (array_ r)) as [l|] eqn:Hb; [|by left].
      right. intros E. by apply (Hown l).
    + intros l Hb. unfold release. rewrite Hb.
      apply block_at_insert_eq.
      pose proof (wf_base_lt h t l Hwf Hb). destruct Hu1 as [Hlen _]. lia.
  - unfold copy_assign, object. rewrite Hj.
    erewrite bind_Ok by done. erewrite bind_Ok by done.
    by rewrite bool_decide_eq_false_2 by (by intros ?).
Qed.

(** X21. [swap] between two objects of a program exchanges their elements,
    sizes and capacities without touching the heap: each container ends
    with the block of the other, so the positions handed out before stay
    valid and now belong to the other container. A second [swap] restores
    both objects, and swapping an object with itself changes nothing. *)
Theorem swap_exchanges NDEBUG h objs (i j : nat) a b xs ys :
  objs !! i = Some a ->
  objs !! j = Some b ->
  elements h a = Some xs ->
  elements h b = Some ys ->
  exists a' b',
    swap a b = (a', b')
    /\ step Type_ NDEBUG (Call_swap i j) objs h
       = Ok (<[j := b']> (<[i := a']> objs), h)
    /\ elements h a' = Some ys /\ elements h b' = Some xs
    /\ size_ a' = size_ b /\ capacity_ a' = capacity_ b
    /\ size_ b' = size_ a /\ capacity_ b' = capacity_ a
    /\ begin a' = begin b /\ begin b' = begin a
    /\ swap a' b' = (a, b)
    /\ (i = j -> <[j := b']> (<[i := a']> objs) = objs).
Proof.
  intros Hi Hj Ha Hb. eexists _, _. split; [done|]. simpl.
  rewrite !elements_eta. split_and!; try done.
  - unfold object. rewrite Hi, Hj.
    erewrite bind_Ok by done. by erewrite bind_Ok by done.
  - unfold swap. simpl. by destruct a, b.
  - intros ->. rewrite Hi in Hj. injection Hj as <-.
    rewrite list_insert_insert_eq, SimpleVector_eta.
    by apply list_insert_id.
Qed.

(** A container whose block is not the one a call works on keeps its
    block as it was, reserved slots included. *)
Lemma storage_frame (a : ptr) h h' this :
  unchanged_outside a h h' ->
  wf h this = true ->
  (forall l, base (array_ this) = Some l -> base a <> Some l) ->
  storage h' (array_ this) = storage h (array_ this).
Proof.
  intros Hu Hwf Hne.
  pose proof (wf_inv _ _ Hwf) as (_ & _ & _ & b & Hst & _).
  destruct (base (array_ this)) as [l|] eqn:Hb.
  - apply (storage_unchanged a); [done| |by rewrite Hst].
    rewrite Hb. intros E. by apply (Hne l).
  - by rewrite !storage_null.
Qed.

Lemma elements_storage h h' this :
  storage h' (array_ this) = storage h (array_ this) ->
  elements h' this = elements h this.
Proof.
  unfold elements, wf. by intros ->.
Qed.

Lemma frame_update h objs (i : nat) u h' u' (j : nat) v :
  store_wf h objs ->
  objs !! i = Some u ->
  unchanged_outside (array_ u) h h' ->
  objs !! j = Some v ->
  j <> i ->
  <[i := u']> objs !! j = Some v
  /\ storage h' (array_ v) = storage h (array_ v).
Proof.
  intros [Hwf Hdist] Hi Hu Hj Hne. split.
  - by rewrite list_lookup_insert_ne.
  - apply (storage_frame (array_ u)); [done|by eapply Hwf|].
    intros l Hl. by apply (Hdist j i v u l).
Qed.

Lemma frame_new h objs h' u' (j : nat) v :
  store_wf h objs ->
  call_ok h SimpleVector_default h' u' ->
  objs !! j = Some v ->
  (objs ++ [u']) !! j = Some v
  /\ storage h' (array_ v) = storage h (array_ v).
Proof.
  intros [Hwf Hdist] (_ & Hu & _) Hj. split.
  - by apply lookup_app_l_Some.
  - apply (storage_frame nullptr); [done|by eapply Hwf|done].
Qed.

Lemma PopBack_inv NDEBUG h this this' h' :
  PopBack NDEBUG this h = Ok (this', h') -> h' = h.
Proof.
  unfold PopBack, assert, bind, ret.
  destruct NDEBUG; [by intros [= _ ->]|].
  destruct (size_ this >? 0); [|done]. by intros [= _ ->].
Qed.

Lemma copy_assign_ok h objs (i j : nat) t r objs' h' :
  store_wf h objs ->
  objs !! i = Some t -> objs !! j = Some r -> i <> j ->
  copy_assign objs i j h = Ok (objs', h') ->
  exists t', objs' = <[i := t']> objs /\ call_ok h t h' t'.
Proof.
  intros [Hwf Hdist] Hi Hj Hij Hrun. unfold copy_assign, object in Hrun.
  rewrite Hi, Hj in Hrun.
  erewrite bind_Ok in Hrun by done. erewrite bind_Ok in Hrun by done.
  rewrite (bool_decide_eq_true_2 _ Hij) in Hrun.
  apply bind_inv in Hrun as (copy & h1 & [-> Hw]%SimpleVector_copy_inv & Hrun).
  simpl in Hrun.
  apply bind_inv in Hrun as ([] & h2 & [-> _]%ArrayPtr_delete_inv
                               & [= -> ->]%ret_inv).
  pose proof (wf_inv _ _ (Hwf _ _ Hj)) as (_ & Hsz & Hc & _).
  eexists. split; [done|].
  apply (grow_ok h t (size_ r) h1); eauto; try lia.
  apply writes_to_refl.
Qed.

Lemma step_frame NDEBUG (c : call T) objs h objs' h' (j : nat) v :
  store_wf h objs ->
  step Type_ NDEBUG c objs h = Ok (objs', h') ->
  objs !! j = Some v ->
  j ∉ modifies c ->
  objs' !! j = Some v /\ storage h' (array_ v) = storage h (array_ v).
Proof.
  intros Hst Hrun Hj Hmod. pose proof Hst as [Hwf Hdist].
  destruct c; simpl in Hrun, Hmod;
    repeat (apply not_elem_of_cons in Hmod as [? Hmod]).
  - apply ret_inv in Hrun as [= -> ->]. split; [|done].
    by apply lookup_app_l_Some.
  - apply bind_inv in Hrun as (u & h1 & Hu & [= -> ->]%ret_inv).
    apply frame_new; [done| |done].
    eapply SimpleVector_sized_ok; [apply to_size_t_range|done].
  - apply bind_inv in Hrun as (u & h1 & Hu & [= -> ->]%ret_inv).
    apply frame_new; [done| |done].
    eapply SimpleVector_reserved_ok; [apply to_size_t_range|done].
  - apply bind_inv in Hrun as (u & h1 & Hu & [= -> ->]%ret_inv).
    apply frame_new; [done| |done].
    eapply SimpleVector_filled_ok; [apply to_size_t_range|done].
  - apply bind_inv in Hrun as (u & h1 & Hu & [= -> ->]%ret_inv).
    apply frame_new; [done| |done]. by eapply SimpleVector_init_ok.
  - apply bind_inv in Hrun as (o & h0 & [Ho ->]%object_inv & Hrun).
    apply bind_inv in Hrun as (u & h1 & Hu & [= -> ->]%ret_inv).
    apply frame_new; [done| |done].
    apply (SimpleVector_copy_ok h o u h1); [by eapply Hwf|done].
  - apply bind_inv in Hrun as (o & h0 & [Ho ->]%object_inv & Hrun).
    unfold SimpleVector_move in Hrun. simpl in Hrun.
    apply ret_inv in Hrun as [= -> ->]. split; [|done].
    apply lookup_app_l_Some. by rewrite list_lookup_insert_ne.
  - destruct (decide (this = rhs)) as [->|Hne].
    + unfold copy_assign in Hrun.
      apply bind_inv in Hrun as (t & h0 & [Ht ->]%object_inv & Hrun).
      apply bind_inv in Hrun as (r & h0 & [Hr ->]%object_inv & Hrun).
      rewrite bool_decide_eq_false_2 in Hrun by (by intros ?).
      by apply ret_inv in Hrun as [= -> ->].
    + unfold copy_assign in Hrun. pose proof Hrun as Hrun'.
      apply bind_inv in Hrun' as (t & h0 & [Ht ->]%object_inv & Hrun').
      apply bind_inv in Hrun' as (r & h0 & [Hr ->]%object_inv & _).
      destruct (copy_assign_ok h objs this rhs t r objs' h' Hst Ht Hr Hne Hrun)
        as (t' & -> & _ & Hu & _).
      by eapply frame_update.
  - unfold move_assign in Hrun.
    apply bind_inv in Hrun as (t & h0 & [Ht ->]%object_inv & Hrun).
    apply bind_inv in Hrun as (r & h0 & [Hr ->]%object_inv & Hrun).
    destruct (bool_decide (this <> rhs));
      [|by apply ret_inv in Hrun as [= -> ->]].
    unfold ArrayPtr_move_assign in Hrun.
    apply bind_inv in Hrun as (arrays & h1 & Hmove & [= -> ->]%ret_inv).
    apply bind_inv in Hmove as ([] & h2 & [-> _]%ArrayPtr_delete_inv
                                  & [= -> ->]%ret_inv).
    split.
    + by rewrite !list_lookup_insert_ne.
    + apply (storage_frame (array_ t)); [|by eapply Hwf|].
      * apply unchanged_outside_release, unchanged_outside_refl.
      * intros l Hl. by apply (Hdist j this v t l).
  - apply bind_inv in Hrun as (u & h0 & [Hu ->]%object_inv & Hrun).
    apply bind_inv in Hrun as (u' & h1 & Hcall & [= -> ->]%ret_inv).
    eapply frame_update; eauto.
    apply (PushBack_ok h u item u' h1) in Hcall as (_ & ? & _); [done|].
    by eapply Hwf.
  - apply bind_inv in Hrun as (u & h0 & [Hu ->]%object_inv & Hrun).
    apply bind_inv in Hrun as (u' & h1 & ->%PopBack_inv & [= -> ->]%ret_inv).
    eapply frame_update; eauto. apply unchanged_outside_refl.
  - apply bind_inv in Hrun as (u & h0 & [Hu ->]%object_inv & Hrun).
    apply bind_inv in Hrun as ([u' it] & h1 & Hcall & [= -> ->]%ret_inv).
    eapply frame_update; eauto.
    apply (Insert_ok h u pos value u' it h1) in Hcall as (_ & ? & _); [done|].
    by eapply Hwf.
  - apply bind_inv in Hrun as (u & h0 & [Hu ->]%object_inv & Hrun).
    apply bind_inv in Hrun as ([u' it] & h1 & Hcall & [= -> ->]%ret_inv).
    eapply frame_update; eauto.
    apply (Erase_ok h u pos u' it h1) in Hcall as (_ & ? & _); [done|].
    by eapply Hwf.
  - apply bind_inv in Hrun as (a & h0 & [Ha ->]%object_inv & Hrun).
    apply bind_inv in Hrun as (b & h0 & [Hb ->]%object_inv & Hrun).
    unfold swap in Hrun. simpl in Hrun.
    apply ret_inv in Hrun as [= -> ->]. split; [|done].
    by rewrite !list_lookup_insert_ne.
  - apply bind_inv in Hrun as (u & h0 & [Hu ->]%object_inv & Hrun).
    apply bind_inv in Hrun as (u' & h1 & Hcall & [= -> ->]%ret_inv).
    eapply frame_update; eauto.
    apply (Reserve_ok h u _ u' h1) in Hcall as (_ & ? & _);
      [done|by eapply Hwf|apply to_size_t_range].
  - apply bind_inv in Hrun as (u & h0 & [Hu ->]%object_inv & Hrun).
    apply bind_inv in Hrun as (u' & h1 & Hcall & [= -> ->]%ret_inv).
    eapply frame_update; eauto.
    apply (Resize_ok Type_ h u _ u' h1) in Hcall as (_ & ? & _);
      [done|by eapply Hwf|apply to_size_t_range].
  - apply bind_inv in Hrun as (u & h0 & [Hu ->]%object_inv
                                 & [= -> ->]%ret_inv).
    eapply frame_update; eauto. apply unchanged_outside_refl.
Qed.

(** X22. In a state that a program has reached (running with assertions
    enabled), a call changes only the objects it names: every other object of the table stays as it is, and
    so do its block (reserved slots included) and its elements. This holds
    for every call of the interface, in every build mode, because no two
    objects ever share a block. *)
Theorem calls_leave_other_objects_alone NDEBUG (cs : list (call T)) h0 objs h
    (c : call T) objs' h' (j : nat) v :
  run Type_ false cs [] h0 = Ok (objs, h) ->
  step Type_ NDEBUG c objs h = Ok (objs', h') ->
  objs !! j = Some v ->
  j ∉ modifies c ->
  objs' !! j = Some v
  /\ storage h' (array_ v) = storage h (array_ v)
  /\ elements h' v = elements h v.
Proof.
  intros Hrun Hstep Hj Hmod.
  assert (Hst : store_wf h objs).
  { eapply (run_ok Type_); [|exact Hrun]. by split. }
  destruct (step_frame NDEBUG c objs h objs' h' j v Hst Hstep Hj Hmod)
    as [Hobj Hsame].
  split_and!; [done|done|by apply elements_storage].
Qed.

(** *** Blocks are neither leaked nor released twice *)

Lemma same_live h this h' (size' : Z) :
  writes_to (base (array_ this)) h h' ->
  live_after h this h' (set_size this size').
Proof.
  intros (Hlen & Hsame & _) l Hl. simpl.
  destruct (decide (base (array_ this) = Some l)) as [Hb|Hne]; [by left|].
  right. split; [|done]. unfold block_at in *. by rewrite <- (Hsame l Hne).
Qed.

Lemma released_live (a : ptr) h l :
  is_Some (block_at (release a h) l) ->
  is_Some (block_at h l) /\ base a <> Some l.
Proof.
  unfold release. destruct (base a) as [l'|]; [|done].
  destruct (decide (l' = l)) as [->|Hne].
  - intros Hl. exfalso. unfold block_at in Hl.
    destruct (decide (l < length h)%nat).
    + rewrite list_lookup_insert_eq in Hl by done. by destruct Hl.
    + rewrite lookup_ge_None_2 in Hl by (rewrite length_insert; lia).
      by destruct Hl.
  - rewrite block_at_insert_ne by done. split; [done|congruence].
Qed.

Lemma allocated_live h (c : Z) l :
  is_Some (block_at (allocated h c) l) ->
  l = length h \/ is_Some (block_at h l).
Proof.
  intros Hl. destruct (decide (l < length h)%nat) as [Hlt|Hge].
  - right. unfold allocated in Hl. by rewrite block_at_alloc_old in Hl.
  - destruct (decide (l = length h)) as [->|Hne]; [by left|].
    exfalso. unfold allocated, block_at in Hl.
    rewrite lookup_ge_None_2 in Hl by (rewrite length_app; simpl; lia).
    by destruct Hl.
Qed.

Lemma grow_live h this (c : Z) h2 h3 (size' : Z) :
  writes_to (Some (length h)) (allocated h c) h2 ->
  writes_to (Some (length h)) (release (array_ this) h2) h3 ->
  live_after h this h3
    {| array_ := Ptr (Some (length h)) 0; size_ := size'; capacity_ := c |}.
Proof.
  intros (_ & Hsame2 & _) (_ & Hsame3 & _) l Hl. simpl.
  destruct (decide (l = length h)) as [->|HneL]; [by left|]. right.
  assert (HL : Some (length h) <> Some l) by congruence.
  assert (Hl3 : is_Some (block_at (release (array_ this) h2) l))
    by (unfold block_at in *; by rewrite <- (Hsame3 l HL)).
  apply released_live in Hl3 as [Hl2 Hne]. split; [|done].
  assert (Hl1 : is_Some (block_at (allocated h c) l))
    by (unfold block_at in *; by rewrite <- (Hsame2 l HL)).
  by apply allocated_live in Hl1 as [->|Hl1].
Qed.

Lemma constructed_live h (c : Z) h2 (size' : Z) :
  writes_to (Some (length h)) (allocated h c) h2 ->
  live_after h SimpleVector_default h2
    {| array_ := Ptr (Some (length h)) 0; size_ := size'; capacity_ := c |}.
Proof.
  intros Hw. apply (grow_live h SimpleVector_default c h2 h2); [done|].
  apply writes_to_refl.
Qed.

Lemma PushBack_live h this x this' h' :
  PushBack this x h = Ok (this', h') -> live_after h this h' this'.
Proof.
  intros Hrun. unfold PushBack in Hrun.
  apply bind_inv in Hrun as (this1 & h1 & Hgrow & Hrun).
  apply bind_inv in Hrun as ([] & h2 & Hw%store_writes & [= -> ->]%ret_inv).
  unfold Get in Hw. simpl in Hw.
  destruct (size_ this =? capacity_ this).
  - apply bind_inv in Hgrow as (a & h0 & [-> ->]%ArrayPtr_new_inv & Hgrow).
    apply bind_inv in Hgrow as (p & h3 & (Hw3 & _)%std_move_inv & Hgrow).
    apply adopt_inv in Hgrow as [-> ->]. simpl in *.
    by apply (grow_live h this _ h3).
  - apply ret_inv in Hgrow as [= -> ->]. by apply same_live.
Qed.

Lemma PopBack_live NDEBUG h this this' h' :
  PopBack NDEBUG this h = Ok (this', h') -> live_after h this h' this'.
Proof.
  unfold PopBack, assert, bind, ret.
  destruct NDEBUG; [intros [= <- <-]; apply same_live, writes_to_refl|].
  destruct (size_ this >? 0); [|done].
  intros [= <- <-]. apply same_live, writes_to_refl.
Qed.

Lemma Insert_live h this pos x this' it h' :
  Insert this pos x h = Ok ((this', it), h') -> live_after h this h' this'.
Proof.
  intros Hrun. unfold Insert in Hrun.
  apply bind_inv in Hrun as (d & h0 & (-> & _)%ptr_diff_inv & Hrun).
  apply bind_inv in Hrun as (this1 & h1 & Hbody & [= -> -> ->]%ret_inv).
  unfold begin, end_, Get in *.
  destruct (size_ this =? capacity_ this).
  - apply bind_inv in Hbody as (a & h2 & [-> ->]%ArrayPtr_new_inv & Hbody).
    apply bind_inv in Hbody as (p1 & h3 & (Hw3 & _)%std_move_inv & Hbody).
    apply bind_inv in Hbody as ([] & h4 & Hw4%store_writes & Hbody).
    apply bind_inv in Hbody as (p2 & h5 & (Hw5 & _)%std_move_inv & Hbody).
    apply adopt_inv in Hbody as [-> ->]. simpl in *.
    apply (grow_live h this _ h5); [|apply writes_to_refl].
    eapply writes_to_trans; [|exact Hw5].
    eapply writes_to_trans; [exact Hw3|exact Hw4].
  - apply bind_inv in Hbody as (p1 & h2 & (Hw2 & _)%std_move_backward_inv
                                  & Hbody).
    apply bind_inv in Hbody as ([] & h3 & Hw3%store_writes
                                  & [= -> ->]%ret_inv).
    simpl in Hw2, Hw3. apply same_live. by eapply writes_to_trans.
Qed.

Lemma Erase_live h this pos this' it h' :
  Erase this pos h = Ok ((this', it), h') -> live_after h this h' this'.
Proof.
  intros Hrun. unfold Erase in Hrun.
  apply bind_inv in Hrun as (d & h0 & (-> & _)%ptr_diff_inv & Hrun).
  apply bind_inv in Hrun as ([] & h1 & Hbody & [= -> -> ->]%ret_inv).
  unfold begin, end_, Get in *. apply same_live.
  destruct (_ <? _).
  - apply bind_inv in Hbody as (p & h2 & (Hw & _)%std_move_inv
                                 & [= ->]%ret_inv).
    exact Hw.
  - apply ret_inv in Hbody as [= ->]. apply writes_to_refl.
Qed.

Lemma Reserve_live h this (c : Z) this' h' :
  Reserve this c h = Ok (this', h') -> live_after h this h' this'.
Proof.
  intros Hrun. unfold Reserve in Hrun.
  destruct (c >? capacity_ this).
  - apply bind_inv in Hrun as (a & h2 & [-> ->]%ArrayPtr_new_inv & Hrun).
    apply bind_inv in Hrun as (p & h3 & (Hw3 & _)%std_move_inv & Hrun).
    apply adopt_inv in Hrun as [-> ->].
    apply (grow_live h this c h3); [done|apply writes_to_refl].
  - apply ret_inv in Hrun as [= -> ->].
    rewrite <- (SimpleVector_eta this) at 2.
    apply (same_live h this h (size_ this)), writes_to_refl.
Qed.

Lemma Resize_live h this (n : Z) this' h' :
  Resize Type_ this n h = Ok (this', h') -> live_after h this h' this'.
Proof.
  intros Hrun. unfold Resize, construct_range in Hrun.
  apply bind_inv in Hrun as (this1 & h1 & Hbody & [= -> ->]%ret_inv).
  destruct (n >? capacity_ this).
  - apply bind_inv in Hbody as (a & h2 & [-> ->]%ArrayPtr_new_inv & Hbody).
    apply bind_inv in Hbody as (p & h3 & (Hw3 & _)%std_move_inv & Hbody).
    apply bind_inv in Hbody as ([] & h4 & Hw4%construct_loop_writes & Hbody).
    apply adopt_inv in Hbody as [-> ->]. simpl in *.
    apply (grow_live h this n h4); [|apply writes_to_refl].
    by eapply writes_to_trans.
  - apply bind_inv in Hbody as ([] & h2 & Hfill & [= -> ->]%ret_inv).
    apply same_live. destruct (n >? size_ this).
    + by apply construct_loop_writes in Hfill.
    + apply ret_inv in Hfill as [= ->]. apply writes_to_refl.
Qed.

Lemma no_leak_update from h objs (i : nat) v h' v' :
  no_leak from h objs ->
  objs !! i = Some v ->
  live_after h v h' v' ->
  no_leak from h' (<[i := v']> objs).
Proof.
  intros Hnl Hi Hlive l Hl Hb. destruct (Hlive l Hb) as [Hnew|[Hold Hne]].
  - exists i, v'. split; [|done].
    apply list_lookup_insert_eq. by eapply lookup_lt_Some.
  - destruct (Hnl l Hl Hold) as (k & u & Hk & Hu). exists k, u.
    split; [|done]. rewrite list_lookup_insert_ne; [done|].
    intros ->. congruence.
Qed.

Lemma no_leak_new from h objs h' v' :
  no_leak from h objs ->
  live_after h SimpleVector_default h' v' ->
  no_leak from h' (objs ++ [v']).
Proof.
  intros Hnl Hlive l Hl Hb. destruct (Hlive l Hb) as [Hnew|[Hold _]].
  - exists (length objs), v'. split; [|done]. by apply list_lookup_middle.
  - destruct (Hnl l Hl Hold) as (k & u & Hk & Hu). exists k, u.
    split; [|done]. by apply lookup_app_l_Some.
Qed.

Lemma step_no_leak NDEBUG from (c : call T) objs h objs' h' :
  no_leak from h objs ->
  step Type_ NDEBUG c objs h = Ok (objs', h') ->
  no_leak from h' objs'.
Proof.
  intros Hnl Hrun. destruct c; simpl in Hrun.
  - apply ret_inv in Hrun as [= -> ->].
    intros l Hl Hb. destruct (Hnl l Hl Hb) as (k & u & Hk & Hu).
    exists k, u. split; [|done]. by apply lookup_app_l_Some.
  - apply bind_inv in Hrun as (u & h1 & Hu & [= -> ->]%ret_inv).
    apply (no_leak_new from h); [done|]. unfold SimpleVector_sized in Hu.
    apply bind_inv in Hu as (a & h2 & [-> ->]%ArrayPtr_new_inv & Hu).
    apply bind_inv in Hu as ([] & h3 & Hw%std_fill_inv & [= -> ->]%ret_inv).
    by apply constructed_live.
  - apply bind_inv in Hrun as (u & h1 & Hu & [= -> ->]%ret_inv).
    apply (no_leak_new from h); [done|]. unfold SimpleVector_reserved in Hu.
    apply bind_inv in Hu as (a & h2 & [-> ->]%ArrayPtr_new_inv
                               & [= -> ->]%ret_inv).
    apply constructed_live, writes_to_refl.
  - apply bind_inv in Hrun as (u & h1 & Hu & [= -> ->]%ret_inv).
    apply (no_leak_new from h); [done|]. unfold SimpleVector_filled in Hu.
    apply bind_inv in Hu as (a & h2 & [-> ->]%ArrayPtr_new_inv & Hu).
    apply bind_inv in Hu as ([] & h3 & Hw%std_fill_inv & [= -> ->]%ret_inv).
    by apply constructed_live.
  - apply bind_inv in Hrun as (u & h1 & Hu & [= -> ->]%ret_inv).
    apply (no_leak_new from h); [done|]. unfold SimpleVector_init in Hu.
    apply bind_inv in Hu as (a & h2 & [-> ->]%ArrayPtr_new_inv & Hu).
    apply bind_inv in Hu as ([] & h3 & Hw%copy_list_writes
                               & [= -> ->]%ret_inv).
    by apply constructed_live.
  - apply bind_inv in Hrun as (o & h0 & [Ho ->]%object_inv & Hrun).
    apply bind_inv in Hrun as (u & h1 & [-> Hw]%SimpleVector_copy_inv
                                 & [= -> ->]%ret_inv).
    apply (no_leak_new from h); [done|]. by apply constructed_live.
  - apply bind_inv in Hrun as (o & h0 & [Ho ->]%object_inv & Hrun).
    unfold SimpleVector_move in Hrun. simpl in Hrun.
    apply ret_inv in Hrun as [= -> ->].
    intros l Hl Hb. destruct (Hnl l Hl Hb) as (k & u & Hk & Hu).
    destruct (decide (k = other)) as [->|Hne].
    + rewrite Ho in Hk. injection Hk as <-.
      eexists (length objs), _. split.
      * rewrite lookup_app_r by (by rewrite length_insert).
        by rewrite length_insert, Nat.sub_diag.
      * done.
    + exists k, u. split; [|done].
      apply lookup_app_l_Some. by rewrite list_lookup_insert_ne.
  - unfold copy_assign in Hrun.
    apply bind_inv in Hrun as (t & h0 & [Ht ->]%object_inv & Hrun).
    apply bind_inv in Hrun as (r & h0 & [Hr ->]%object_inv & Hrun).
    destruct (bool_decide (this <> rhs));
      [|by apply ret_inv in Hrun as [= -> ->]].
    apply bind_inv in Hrun as (copy & h1 & [-> Hw]%SimpleVector_copy_inv
                                 & Hrun).
    simpl in Hrun.
    apply bind_inv in Hrun as ([] & h2 & [-> _]%ArrayPtr_delete_inv
                                 & [= -> ->]%ret_inv).
    apply (no_leak_update from h objs this t); [done..|].
    apply (grow_live h t (size_ r) h1); [done|apply writes_to_refl].
  - unfold move_assign in Hrun.
    apply bind_inv in Hrun as (t & h0 & [Ht ->]%object_inv & Hrun).
    apply bind_inv in Hrun as (r & h0 & [Hr ->]%object_inv & Hrun).
    destruct (bool_decide_reflect (this <> rhs)) as [Hne|_];
      [|by apply ret_inv in Hrun as [= -> ->]].
    unfold ArrayPtr_move_assign in Hrun.
    apply bind_inv in Hrun as (arrays & h1 & Hmove & [= -> ->]%ret_inv).
    apply bind_inv in Hmove as ([] & h2 & [-> _]%ArrayPtr_delete_inv
                                  & [= -> ->]%ret_inv).
    intros l Hl [Hb Hnt]%released_live.
    destruct (Hnl l Hl Hb) as (k & u & Hk & Hu).
    destruct (decide (k = rhs)) as [->|Hkr].
    + rewrite Hr in Hk. injection Hk as <-.
      eexists this, _. split.
      * rewrite list_lookup_insert_ne by done.
        apply list_lookup_insert_eq. by eapply lookup_lt_Some.
      * done.
    + exists k, u. split; [|done].
      rewrite !list_lookup_insert_ne; [done| |done].
      intros ->. congruence.
  - apply bind_inv in Hrun as (u & h0 & [Hu ->]%object_inv & Hrun).
    apply bind_inv in Hrun as (u' & h1 & Hcall & [= -> ->]%ret_inv).
    eapply no_leak_update; eauto using PushBack_live.
  - apply bind_inv in Hrun as (u & h0 & [Hu ->]%object_inv & Hrun).
    apply bind_inv in Hrun as (u' & h1 & Hcall & [= -> ->]%ret_inv).
    eapply no_leak_update; eauto using PopBack_live.
  - apply bind_inv in Hrun as (u & h0 & [Hu ->]%object_inv & Hrun).
    apply bind_inv in Hrun as ([u' it] & h1 & Hcall & [= -> ->]%ret_inv).
    eapply no_leak_update; eauto using Insert_live.
  - apply bind_inv in Hrun as (u & h0 & [Hu ->]%object_inv & Hrun).
    apply bind_inv in Hrun as ([u' it] & h1 & Hcall & [= -> ->]%ret_inv).
    eapply no_leak_update; eauto using Erase_live.
  - apply bind_inv in Hrun as (a & h0 & [Ha ->]%object_inv & Hrun).
    apply bind_inv in Hrun as (b & h0 & [Hb ->]%object_inv & Hrun).
    unfold swap in Hrun. simpl in Hrun.
    apply ret_inv in Hrun as [= -> ->].
    intros l Hl Hlive. destruct (Hnl l Hl Hlive) as (k & u & Hk & Hu).
    destruct (decide (k = this)) as [->|Hkt].
    + rewrite Ha in Hk. injection Hk as <-.
      eexists other, _. split.
      * apply list_lookup_insert_eq. rewrite length_insert.
        by eapply lookup_lt_Some.
      * done.
    + destruct (decide (k = other)) as [->|Hko].
      * rewrite Hb in Hk. injection Hk as <-.
        eexists this, _. split.
        -- rewrite list_lookup_insert_ne by done.
           apply list_lookup_insert_eq. by eapply lookup_lt_Some.
        -- done.
      * exists k, u. split; [|done]. by rewrite !list_lookup_insert_ne.
  - apply bind_inv in Hrun as (u & h0 & [Hu ->]%object_inv & Hrun).
    apply bind_inv in Hrun as (u' & h1 & Hcall & [= -> ->]%ret_inv).
    eapply no_leak_update; eauto using Reserve_live.
  - apply bind_inv in Hrun as (u & h0 & [Hu ->]%object_inv & Hrun).
    apply bind_inv in Hrun as (u' & h1 & Hcall & [= -> ->]%ret_inv).
    eapply no_leak_update; eauto using Resize_live.
  - apply bind_inv in Hrun as (u & h0 & [Hu ->]%object_inv
                                 & [= -> ->]%ret_inv).
    eapply no_leak_update; eauto. apply same_live, writes_to_refl.
Qed.

Lemma run_no_leak NDEBUG from (cs : list (call T)) :
  forall objs h objs' h',
    no_leak from h objs ->
    run Type_ NDEBUG cs objs h = Ok (objs', h') ->
    no_leak from h' objs'.
Proof.
  induction cs as [|c cs IH]; intros objs h objs' h' Hnl Hrun;
    simpl in Hrun.
  - by apply ret_inv in Hrun as [= -> ->].
  - apply bind_inv in Hrun as (objs1 & h1 & Hstep & Hrun).
    eapply IH; [|done]. by eapply step_no_leak.
Qed.

(** X23. No call of the interface leaks a block: in every state that a
    program reaches from an empty table, in either build mode, each block
    that the program has allocated and that is still live is the block of
    one of its objects. The blocks that growth, assignment and move
    assignment replace have been released. *)
Theorem no_block_is_leaked NDEBUG (cs : list (call T)) h0 objs h :
  run Type_ NDEBUG cs [] h0 = Ok (objs, h) ->
  forall l,
    (length h0 <= l)%nat ->
    is_Some (block_at h l) ->
    exists i v, objs !! i = Some v /\ base (array_ v) = Some l.
Proof.
  intros Hrun. apply (run_no_leak NDEBUG (length h0) cs [] h0); [|done].
  intros l Hl [b Hb]. apply block_at_lt in Hb. lia.
Qed.

Lemma store_wf_tail h v objs : store_wf h (v :: objs) -> store_wf h objs.
Proof.
  intros [Hwf Hdist]. split.
  - intros i u Hi. by apply (Hwf (S i)).
  - intros i j vi vj l Hne Hi Hj. apply (Hdist (S i) (S j)); [lia|done..].
Qed.

(** Destroying the objects of a well-formed table releases the blocks they
    own, each one once, and nothing else. *)
Lemma destroy_all_spec objs :
  forall h,
    store_wf h objs ->
    exists h',
      destroy_all objs h = Ok (tt, h')
      /\ (forall l, ~ owned objs l -> h' !! l = h !! l)
      /\ (forall l, is_Some (block_at h' l) ->
            is_Some (block_at h l) /\ ~ owned objs l).
Proof.
  induction objs as [|v objs IH]; intros h Hst.
  - exists h. split_and!; [done..|]. intros l Hl. split; [done|].
    by intros (i & u & Hi & _).
  - destruct (IH h (store_wf_tail _ _ _ Hst)) as (h1 & Hrun & Hsame & Hlive).
    simpl. erewrite bind_Ok by exact Hrun. unfold SimpleVector_destroy.
    destruct Hst as [Hwf Hdist].
    pose proof (wf_inv _ _ (Hwf 0%nat v eq_refl)) as (_ & _ & _ & b & Hs & _).
    assert (Hv : forall l, base (array_ v) = Some l -> ~ owned objs l).
    { intros l Hl (i & u & Hi & Hu). by apply (Hdist 0%nat (S i) v u l). }
    assert (Hs1 : storage h1 (array_ v) = Some b).
    { unfold storage in *. destruct (base (array_ v)) as [l|] eqn:Hb; [|done].
      unfold block_at in *. by rewrite (Hsame l (Hv l eq_refl)). }
    exists (release (array_ v) h1). split_and!.
    + by eapply ArrayPtr_delete_release.
    + intros l Hno.
      assert (Hno' : ~ owned objs l).
      { intros (i & u & Hi & Hu). apply Hno. by exists (S i), u. }
      unfold release. destruct (base (array_ v)) as [lv|] eqn:Hb;
        [|by apply Hsame].
      rewrite list_lookup_insert_ne; [by apply Hsame|].
      intros ->. apply Hno. by exists 0%nat, v.
    + intros l [Hl Hne]%released_live.
      destruct (Hlive l Hl) as [Hh Hno]. split; [done|].
      intros ([|i] & u & Hi & Hu).
      * simpl in Hi. injection Hi as <-. congruence.
      * apply Hno. by exists i, u.
Qed.

(** X24. When a program that ran to completion with assertions enabled
    leaves its scope, destroying its objects (the last constructed first)
    returns normally: every object still owns a live block of its own, so
    no block is released twice. Afterwards none of the blocks that the
    program allocated is live. *)
Theorem scope_exit_releases_every_block (cs : list (call T)) h0 objs h :
  run Type_ false cs [] h0 = Ok (objs, h) ->
  exists h',
    destroy_all objs h = Ok (tt, h')
    /\ forall l, (length h0 <= l)%nat -> block_at h' l = None.
Proof.
  intros Hrun.
  assert (Hst : store_wf h objs).
  { eapply (run_ok Type_); [|exact Hrun]. by split. }
  assert (Hnl : no_leak (length h0) h objs).
  { apply (run_no_leak false (length h0) cs [] h0); [|done].
    intros l Hl [b Hb]. apply block_at_lt in Hb. lia. }
  destruct (destroy_all_spec objs h Hst) as (h' & Hdes & _ & Hlive).
  exists h'. split; [done|]. intros l Hl.
  destruct (block_at h' l) as [b|] eqn:Hb; [|done].
  destruct (Hlive l) as [Hh Hno]; [by rewrite Hb|].
  destruct Hno. by apply Hnl.
Qed.

End Programs.

(** ** Growth: doubling and [Reserve] *)

Section Doubling.

Context {T : Type}.

Implicit Types (h : heap T) (xs items : list T) (this : SimpleVector).

Lemma log2_up_bounds n :
  1 <= n -> n <= 2 ^ Z.log2_up n /\ 2 ^ Z.log2_up n < 2 * n.
Proof.
  intros Hn. destruct (Z.eq_dec n 1) as [->|Hne].
  - rewrite Z.log2_up_1. simpl. lia.
  - destruct (Z.log2_up_spec n) as [Hlo Hhi]; [lia|].
    split; [done|].
    assert (Hk : 0 < Z.log2_up n).
    { destruct (Z.eq_dec (Z.log2_up n) 0) as [E|E].
      - rewrite E in Hhi. simpl in Hhi. lia.
      - pose proof (Z.log2_up_nonneg n). lia. }
    replace (Z.log2_up n) with (Z.succ (Z.pred (Z.log2_up n))) at 1 by lia.
    rewrite Z.pow_succ_r by lia. lia.
Qed.

Lemma log2_up_succ_full n :
  1 <= n -> n = 2 ^ Z.log2_up n ->
  Z.log2_up (n + 1) = Z.log2_up n + 1.
Proof.
  intros Hn Hfull. pose proof (Z.log2_up_nonneg n) as Hk.
  apply Z.log2_up_unique; [lia|].
  replace (Z.pred (Z.log2_up n + 1)) with (Z.log2_up n) by lia.
  replace (Z.log2_up n + 1) with (Z.succ (Z.log2_up n)) by lia.
  rewrite Z.pow_succ_r by lia. lia.
Qed.

Lemma log2_up_succ_room n :
  1 <= n -> n <> 2 ^ Z.log2_up n ->
  Z.log2_up (n + 1) = Z.log2_up n.
Proof.
  intros Hn Hroom.
  assert (Hne : n <> 1) by (intros ->; by rewrite Z.log2_up_1 in Hroom).
  destruct (Z.log2_up_spec n) as [Hlo Hhi]; [lia|].
  apply Z.log2_up_unique; [|lia].
  destruct (Z.eq_dec (Z.log2_up n) 0) as [E|E].
  - rewrite E in Hhi. simpl in Hhi. lia.
  - pose proof (Z.log2_up_nonneg n). lia.
Qed.

Lemma length_release (a : ptr) h : length (release a h) = length h.
Proof.
  unfold release. destruct (base a); [apply length_insert|done].
Qed.

(** [PushBack] allocates one block when it finds the container full and
    none otherwise. *)
Lemma PushBack_allocations h this x this' h' :
  PushBack this x h = Ok (this', h') ->
  Z.of_nat (length h')
  = Z.of_nat (length h) + (if size_ this =? capacity_ this then 1 else 0).
Proof.
  intros Hrun. unfold PushBack in Hrun.
  apply bind_inv in Hrun as (this1 & h1 & Hgrow & Hrun).
  apply bind_inv in Hrun as ([] & h2 & (Hlen & _)%store_writes
                               & [= -> ->]%ret_inv).
  rewrite Hlen. destruct (size_ this =? capacity_ this).
  - apply bind_inv in Hgrow as (a & h0 & [-> ->]%ArrayPtr_new_inv & Hgrow).
    apply bind_inv in Hgrow as (p & h3 & ((Hlen3 & _) & _)%std_move_inv
                                  & Hgrow).
    apply adopt_inv in Hgrow as [-> ->].
    rewrite length_release, Hlen3. unfold allocated.
    rewrite length_app. simpl. lia.
  - apply ret_inv in Hgrow as [= -> ->]. lia.
Qed.

(** The capacity and the number of allocations after [n] pushes onto a
    default-constructed container. *)
Lemma PushBack_all_doubling items :
  forall h this xs rest (allocations : Z),
    models h this xs rest ->
    2 * Z.of_nat (length xs + length items) <= SIZE_MAX ->
    (xs = [] -> capacity_ this = 0 /\ allocations = 0) ->
    (xs <> [] ->
     capacity_ this = 2 ^ Z.log2_up (Z.of_nat (length xs))
     /\ allocations = Z.log2_up (Z.of_nat (length xs)) + 1) ->
    xs ++ items <> [] ->
    exists this' h' rest',
      PushBack_all this items h = Ok (this', h')
      /\ models h' this' (xs ++ items) rest'
      /\ capacity_ this' = 2 ^ Z.log2_up (Z.of_nat (length (xs ++ items)))
      /\ Z.of_nat (length h') - Z.of_nat (length h) + allocations
         = Z.log2_up (Z.of_nat (length (xs ++ items))) + 1.
Proof.
  induction items as [|x items IH];
    intros h this xs rest allocations Hm Hmax Hnil Hcons Hne.
  - rewrite app_nil_r in *. destruct (Hcons Hne) as [Hc Ha].
    exists this, h, rest. split_and!; try done. lia.
  - pose proof (models_size _ _ _ _ Hm) as Hn.
    destruct (PushBack_step h this xs rest x Hm)
      as (this1 & h1 & rest1 & Hrun & Hm1 & Hs1 & Hc1).
    { intros Hfull. simpl in Hmax. lia. }
    pose proof (PushBack_allocations _ _ _ _ _ Hrun) as Hal.
    unfold grown_capacity in Hc1.
    set (n := Z.of_nat (length xs)) in *.
    assert (Hlen1 : Z.of_nat (length (xs ++ [x])) = n + 1)
      by (rewrite length_app; simpl; lia).
    destruct (IH h1 this1 (xs ++ [x]) rest1
                (allocations + if size_ this =? capacity_ this then 1 else 0)
                Hm1)
      as (this' & h' & rest' & Hrun' & Hm' & Hc' & Ha').
    + rewrite length_app in *. simpl in *. lia.
    + by destruct xs.
    + intros _. rewrite Hlen1, Hc1, Hn.
      destruct xs as [|x0 xs0].
      * destruct (Hnil eq_refl) as [-> ->]. by unfold n.
      * destruct Hcons as [-> ->]; [done|].
        assert (H1 : 1 <= n) by (unfold n; simpl; lia).
        destruct (Z.eqb_spec n (2 ^ Z.log2_up n)) as [Hfull|Hroom].
        -- rewrite (log2_up_succ_full n H1 Hfull).
           replace (Z.log2_up n + 1) with (Z.succ (Z.log2_up n)) at 1 by lia.
           rewrite Z.pow_succ_r by apply Z.log2_up_nonneg. lia.
        -- rewrite (log2_up_succ_room n H1 Hroom). lia.
    + by destruct xs.
    + exists this', h', rest'. simpl. erewrite bind_Ok by exact Hrun.
      rewrite <- app_assoc in Hm', Hc', Ha'. simpl in Hm', Hc', Ha'.
      split_and!; try done. lia.
Qed.

(** X25. Pushing [n >= 1] elements onto a default-constructed container
    leaves the capacity at the smallest power of two that is at least [n]
    (so the capacity is at least the size and less than twice the size)
    and allocates [ceil(log2 n) + 1] blocks in all. *)
Theorem PushBack_doubles_capacity h0 items :
  items <> [] ->
  2 * Z.of_nat (length items) <= SIZE_MAX ->
  let n := Z.of_nat (length items) in
  exists this h,
    PushBack_all SimpleVector_default items h0 = Ok (this, h)
    /\ elements h this = Some items
    /\ size_ this = n
    /\ capacity_ this = 2 ^ Z.log2_up n
    /\ n <= capacity_ this < 2 * n
    /\ Z.of_nat (length h) = Z.of_nat (length h0) + Z.log2_up n + 1.
Proof.
  intros Hne Hmax n.
  destruct (PushBack_all_doubling items h0 SimpleVector_default [] [] 0
              (models_default h0))
    as (this & h & rest & Hrun & Hm & Hc & Ha); try done.
  simpl in Hm, Hc, Ha. fold n in Hc, Ha.
  assert (H1 : 1 <= n) by (unfold n; destruct items; [done|simpl; lia]).
  exists this, h. split_and!; try done.
  - by eapply models_elements.
  - by rewrite (models_size _ _ _ _ Hm).
  - rewrite Hc. by apply log2_up_bounds.
  - rewrite Hc. by apply log2_up_bounds.
  - lia.
Qed.

(** X26. [Reserve(c)] followed by pushes that fit the reserved capacity:
    after the one allocation that [Reserve] may make, no push allocates;
    the container keeps the block and the capacity that [Reserve] left and
    ends up holding the old elements followed by the pushed ones. *)
Theorem Reserve_then_PushBack h this xs (c : Z) (items : list T) :
  elements h this = Some xs ->
  c <= SIZE_MAX ->
  Z.of_nat (length xs + length items) <= Z.max (capacity_ this) c ->
  exists v1 h1 v2 h2,
    Reserve this c h = Ok (v1, h1)
    /\ PushBack_all v1 items h1 = Ok (v2, h2)
    /\ elements h2 v2 = Some (xs ++ items)
    /\ capacity_ v2 = Z.max (capacity_ this) c
    /\ array_ v2 = array_ v1
    /\ length h2 = length h1.
Proof.
  intros He Hc Hfit. destruct (elements_models _ _ _ He) as [rest Hm].
  pose proof Hm as (_ & _ & Hn & Hcap & _).
  destruct (Z_le_gt_dec c (capacity_ this)) as [Hle|Hgt].
  - destruct (PushBack_all_room items h this xs rest Hm)
      as (v2 & h2 & Hrun & Hm2 & Ha & Hc2 & Hw); [lia|].
    exists this, h, v2, h2.
    split_and!; [by apply Reserve_keep| |by eapply models_elements|lia|done|].
    + done.
    + by destruct Hw.
  - destruct (Reserve_grow h this xs rest c Hm) as (h1 & Hres & Hm1 & _);
      [lia|].
    destruct (PushBack_all_room items h1 _ xs _ Hm1)
      as (v2 & h2 & Hrun & Hm2 & Ha & Hc2 & Hw).
    { rewrite length_replicate. lia. }
    eexists _, h1, v2, h2.
    split_and!; [exact Hres|exact Hrun|by eapply models_elements| |done|].
    + rewrite Hc2. simpl. lia.
    + by destruct Hw.
Qed.

End Doubling.

(** ** Arguments that alias the container *)

Section Aliasing.

Context {T : Type}.

Implicit Types (h : heap T) (xs ys : list T) (this other : SimpleVector).

Lemma bind_congr_l {A B} (m m' : M T A) (k : A -> M T B) h :
  m h = m' h -> bind m k h = bind m' k h.
Proof.
  intros Hm. unfold bind. by rewrite Hm.
Qed.

Lemma bind_congr_r {A B} (m : M T A) (k k' : A -> M T B) h :
  (forall a h1, m h = Ok (a, h1) -> k a h1 = k' a h1) ->
  bind m k h = bind m k' h.
Proof.
  intros Hk. unfold bind. destruct (m h) as [[a h1]| | |]; [|done..].
  by apply Hk.
Qed.

Lemma read_inv (p : ptr) h (x : T) h' :
  read p h = Ok (x, h') ->
  h' = h
  /\ exists l b,
       base p = Some l /\ block_at h l = Some b /\ 0 <= off p
       /\ b !! Z.to_nat (off p) = Some (Some x).
Proof.
  unfold read, bind, load. destruct (base p) as [l|]; [|done].
  destruct (block_at h l) as [b|] eqn:Hb; [|done].
  destruct (Z.leb_spec 0 (off p)); [|done].
  destruct (b !! Z.to_nat (off p)) as [[y|]|] eqn:Hy; try done.
  intros [= -> ->]. split; [done|]. by exists l, b.
Qed.

Lemma read_at h (p : ptr) l (o : nat) b (x : T) :
  base p = Some l -> off p = Z.of_nat o ->
  block_at h l = Some b -> b !! o = Some (Some x) ->
  read p h = Ok (x, h).
Proof.
  intros Hb Ho Hl Hx. unfold read.
  by erewrite bind_Ok by (by eapply load_at).
Qed.

(** Reading an object gives the same value after a call that wrote into
    another block. *)
Lemma read_frame (a : option nat) h h' (p : ptr) (x : T) :
  read p h = Ok (x, h) ->
  (forall l, base p = Some l -> a <> Some l /\ h' !! l = h !! l) ->
  read p h' = Ok (x, h').
Proof.
  intros (_ & l & b & Hb & Hl & Ho & Hx)%read_inv Hsame.
  destruct (Hsame l Hb) as [_ Hh].
  eapply (read_at h' p l (Z.to_nat (off p)) b); try done; [lia|].
  unfold block_at in *. by rewrite Hh.
Qed.

(** X27. [Insert] called with a reference to an object that is not in the
    container's block behaves as [Insert] called with the value the object
    had when the call started: the moves that precede the construction do
    not touch it. *)
Theorem Insert_lvalue_outside h this pos (value : ptr) (x : T) :
  read value h = Ok (x, h) ->
  base value <> base (array_ this) ->
  Insert_lvalue this pos value h = Insert this pos x h.
Proof.
  intros Hread Hne. unfold Insert_lvalue, Insert.
  pose proof Hread as (_ & lv & bv & Hbv & Hlv & _)%read_inv.
  pose proof (block_at_lt _ _ _ Hlv) as Hlt.
  apply bind_congr_r. intros d h0 (-> & _)%ptr_diff_inv.
  apply bind_congr_l. unfold begin, end_, Get.
  destruct (size_ this =? capacity_ this).
  - apply bind_congr_r. intros a h2 [-> ->]%ArrayPtr_new_inv.
    apply bind_congr_r. intros p h3 ((_ & Hsame & _) & _)%std_move_inv.
    simpl in Hsame.
    erewrite bind_Ok; [done|].
    apply (read_frame (Some (length h)) h); [done|].
    intros l Hl. rewrite Hbv in Hl. injection Hl as <-.
    split; [intros [= E]; lia|].
    rewrite Hsame by (intros [= E]; lia).
    unfold allocated. by rewrite lookup_app_l.
  - apply bind_congr_r.
    intros p h1 ((_ & Hsame & _) & _)%std_move_backward_inv.
    simpl in Hsame.
    erewrite bind_Ok; [done|].
    apply (read_frame (base (array_ this)) h); [done|].
    intros l Hl. split; [congruence|]. apply Hsame. congruence.
Qed.

(** X28. [Insert] called with a reference to an element of the container
    itself, in a container with a spare slot: when the element referred to
    lies after the insertion position, it has been shifted by the time the
    new element is constructed, and the element inserted is a copy of the
    one that preceded it. For positions [i < j < size] the container ends
    with [xs] where the element of index [j - 1], not [j], has been put in
    at index [i]. *)
Theorem Insert_lvalue_of_own_element h this xs (i j : nat) y :
  elements h this = Some xs ->
  size_ this < capacity_ this ->
  (i < j < length xs)%nat ->
  xs !! (j - 1)%nat = Some y ->
  Insert_lvalue this (begin this +p Z.of_nat i) (begin this +p Z.of_nat j) h
  = Insert this (begin this +p Z.of_nat i) y h
  /\ exists this' h',
       Insert_lvalue this (begin this +p Z.of_nat i)
         (begin this +p Z.of_nat j) h
       = Ok ((this', begin this' +p Z.of_nat i), h')
       /\ elements h' this' = Some (take i xs ++ y :: drop i xs)
       /\ size_ this' = size_ this + 1.
Proof.
  intros He Hroom Hij Hy. destruct (elements_models _ _ _ He) as [rest Hm].
  assert (Heq :
    Insert_lvalue this (begin this +p Z.of_nat i) (begin this +p Z.of_nat j) h
    = Insert this (begin this +p Z.of_nat i) y h).
  { unfold Insert_lvalue, Insert.
    pose proof (fun k => models_storage_at h this _ rest k Hm) as Hst.
    pose proof Hm as (Ho & Hs & Hn & Hcap & Hmax).
    destruct (models_base_Some _ _ _ _ Hm) as [l Hb]; [lia|].
    pose proof Hs as Hblk. rewrite (storage_Some_block h _ l Hb) in Hblk.
    destruct rest as [|r rest]; [simpl in *; lia|].
    apply bind_congr_r. intros d h0 (-> & -> & _)%ptr_diff_inv.
    assert (to_size_t (off (begin this +p Z.of_nat i) - off (begin this))
            = Z.of_nat i) as ->.
    { unfold begin, Get. simpl. rewrite to_size_t_id; lia. }
    apply bind_congr_l.
    destruct (Z.eqb_spec (size_ this) (capacity_ this)); [lia|].
    set (A := Some <$> take i xs).
    set (B := Some <$> drop i xs).
    assert (HA : length A = i) by (unfold A; rewrite length_fmap, length_take; lia).
    assert (HB : length B = (length xs - i)%nat)
      by (unfold B; by rewrite length_fmap, length_drop).
    assert (Hb0 : (Some <$> xs) ++ r :: rest = A ++ B ++ r :: rest).
    { unfold A, B. by rewrite app_assoc, <- fmap_app, take_drop. }
    rewrite Hb0 in Hblk.
    set (b := A ++ B ++ r :: rest) in *.
    set (blk1 := splice b (S i) (take (length B) (drop i b))).
    set (h1 := <[l := Some blk1]> h).
    assert (Hmove :
      std_move_backward (begin this +p Z.of_nat i) (end_ this)
        (end_ this +p 1) h
      = Ok (end_ this +p 1 +p - Z.of_nat (length B), h1)).
    { eapply (std_move_backward_within h _ _ _ l i (S i) (length B) b);
        try done.
      - unfold begin, Get. simpl. lia.
      - unfold end_, Get. simpl. lia.
      - unfold end_, Get. simpl. lia.
      - lia.
      - unfold b. rewrite !length_app. simpl. lia. }
    erewrite !(bind_Ok _ _ h _ h1) by exact Hmove.
    erewrite bind_Ok; [done|].
    eapply (read_at h1 _ l j blk1); try done.
    - unfold begin, Get. simpl. lia.
    - apply block_at_insert_eq. by eapply block_at_lt.
    - assert (Hshift : <[i := Some y]> blk1 = A ++ Some y :: B ++ rest).
      { unfold blk1, b. rewrite <- HA. apply shift_right_insert. }
      rewrite <- (list_lookup_insert_ne blk1 i j (Some y)) by lia.
      rewrite Hshift, lookup_app_r by lia.
      replace (j - length A)%nat with (S (j - 1 - i)) by lia. simpl.
      rewrite lookup_app_l by lia.
      unfold B. rewrite list_lookup_fmap, lookup_drop.
      replace (i + (j - 1 - i))%nat with (j - 1)%nat by lia.
      by rewrite Hy. }
  split; [done|]. rewrite Heq.
  rewrite <- (take_drop i xs) in Hm.
  assert (Hlen : length (take i xs) = i) by (rewrite length_take; lia).
  destruct (Insert_spec h this _ _ rest y Hm)
    as (this' & h' & rest' & Hins & Hm' & _); [lia|].
  rewrite Hlen in Hins. exists this', h'. split_and!; try done.
  - by eapply models_elements.
  - rewrite (models_size _ _ _ _ Hm'). pose proof Hm as (_ & _ & Hn & _).
    rewrite Hn, !length_app. simpl. lia.
Qed.

End Aliasing.

(** ** Copies under comparison, and the capacity over time *)

Section Composition.

Context {T : Type}.

Context (Type_ : T).

Context (Type_eq : T -> T -> bool).

Implicit Types (h : heap T) (xs ys : list T) (this other : SimpleVector).

Lemma Forall2_reflexive xs :
  (forall x, Type_eq x x = true) ->
  Forall2 (fun x y => Type_eq x y = true) xs xs.
Proof.
  intros Hrefl. induction xs as [|x xs IH]; by constructor.
Qed.

(** X29. A copy compares equal to its original, in both directions, when
    [Type]'s [operator==] is reflexive; after a [PushBack] on the copy the
    two no longer compare equal, whatever the element pushed. *)
Theorem copy_compares_equal h other xs x :
  (forall y, Type_eq y y = true) ->
  elements h other = Some xs ->
  2 * size_ other <= SIZE_MAX ->
  exists this h1 this' h2,
    SimpleVector_copy other h = Ok (this, h1)
    /\ operator_eq Type_eq this other h1 = Ok (true, h1)
    /\ operator_eq Type_eq other this h1 = Ok (true, h1)
    /\ operator_ne Type_eq this other h1 = Ok (false, h1)
    /\ PushBack this x h1 = Ok (this', h2)
    /\ operator_eq Type_eq this' other h2 = Ok (false, h2)
    /\ operator_ne Type_eq this' other h2 = Ok (true, h2).
Proof.
  intros Hrefl He Hmax. destruct (elements_models _ _ _ He) as [rest Hm].
  pose proof (models_base_fresh _ _ _ _ Hm) as Hfresh.
  destruct (SimpleVector_copy_spec h other xs rest Hm)
    as (h1 & Hcopy & Hm1 & Hu1).
  set (this := {| array_ := Ptr (Some (length h)) 0; size_ := size_ other;
                  capacity_ := size_ other |}) in *.
  pose proof (models_elements _ _ _ _ Hm1) as He1.
  assert (He1' : elements h1 other = Some xs)
    by exact (elements_fresh h h1 other xs Hu1 He).
  destruct (PushBack_spec h1 this xs [] x Hm1)
    as (this' & h2 & rest' & Hpush & Hm2 & _ & Hu2 & _); [done|].
  pose proof (models_elements _ _ _ _ Hm2) as He2.
  assert (He2' : elements h2 other = Some xs).
  { rewrite <- He1'.
    apply (elements_unchanged (array_ this));
      [done | right; simpl; congruence | by rewrite He1']. }
  destruct (operator_eq_spec Type_eq h1 this other xs xs He1 He1')
    as (r1 & Hr1 & Hiff1).
  destruct (operator_eq_spec Type_eq h1 other this xs xs He1' He1)
    as (r2 & Hr2 & Hiff2).
  destruct (operator_eq_spec Type_eq h2 this' other (xs ++ [x]) xs He2 He2')
    as (r3 & Hr3 & Hiff3).
  assert (r1 = true) as -> by (by apply Hiff1, Forall2_reflexive).
  assert (r2 = true) as -> by (by apply Hiff2, Forall2_reflexive).
  assert (r3 = false) as ->.
  { destruct r3; [|done]. destruct Hiff3 as [Hall _].
    specialize (Hall eq_refl). apply Forall2_length in Hall.
    rewrite length_app in Hall. simpl in Hall. lia. }
  exists this, h1, this', h2. unfold operator_ne.
  erewrite !bind_Ok by first [exact Hr1 | exact Hr3].
  by split_and!.
Qed.

(** X30. The capacity of a well-formed container never goes down under a
    member call that returns: [PushBack] and [Insert] leave it as it was
    or larger, [Reserve(c)] and [Resize(n)] leave the larger of the old
    capacity and their argument, and [PopBack], [Erase] and [Clear] leave
    it as it was. (Copy assignment, move and [swap] are the calls that can
    lower it.) *)
Theorem capacity_never_shrinks NDEBUG h this :
  wf h this = true ->
  (forall x this' h',
     PushBack this x h = Ok (this', h') ->
     capacity_ this <= capacity_ this')
  /\ (forall pos x this' it h',
        Insert this pos x h = Ok ((this', it), h') ->
        capacity_ this <= capacity_ this')
  /\ (forall c this' h',
        Reserve this c h = Ok (this', h') ->
        capacity_ this' = Z.max (capacity_ this) c)
  /\ (forall n this' h',
        Resize Type_ this n h = Ok (this', h') ->
        capacity_ this' = Z.max (capacity_ this) n)
  /\ (forall this' h',
        PopBack NDEBUG this h = Ok (this', h') ->
        capacity_ this' = capacity_ this)
  /\ (forall pos this' it h',
        Erase this pos h = Ok ((this', it), h') ->
        capacity_ this' = capacity_ this)
  /\ capacity_ (Clear this) = capacity_ this.
Proof.
  intros Hwf.
  pose proof Hwf as (Ho & Hsz & Hc & b & Hst & Hlen)%wf_inv.
  split_and!.
  - intros x this' h' Hrun. unfold PushBack in Hrun.
    apply bind_inv in Hrun as (this1 & h1 & Hgrow & Hrun).
    apply bind_inv in Hrun as ([] & h2 & Hcons & [= -> ->]%ret_inv).
    destruct (Z.eqb_spec (size_ this) (capacity_ this)) as [Hfull|Hroom].
    + apply bind_inv in Hgrow as (a & h0 & [-> ->]%ArrayPtr_new_inv & Hgrow).
      apply bind_inv in Hgrow as (p & h3 & (Hw3 & _)%std_move_inv & Hgrow).
      apply adopt_inv in Hgrow as [-> ->].
      apply store_inv in Hcons as (l & b1 & Hb & Hblk & Hoff & _).
      unfold Get in *. simpl in *. injection Hb as <-.
      destruct (grow_block h this _ h3 Hwf Hw3) as (b3 & _ & Hb3 & Hlen3).
      rewrite Hb3 in Hblk. injection Hblk as <-. lia.
    + apply ret_inv in Hgrow as [= -> ->]. simpl. lia.
  - intros pos x this' it h' Hrun. unfold Insert in Hrun.
    apply bind_inv in Hrun as (d & h0 & Hd & Hrun).
    apply ptr_diff_inv in Hd as (-> & -> & Hbase & b0 & Hst0 & _ & Hpos).
    unfold begin, end_, Get in *. rewrite Hst in Hst0. injection Hst0 as <-.
    rewrite Ho, Z.sub_0_r in Hrun.
    rewrite (to_size_t_id (off pos)) in Hrun by lia.
    apply bind_inv in Hrun as (this1 & h1 & Hbody & [= -> -> ->]%ret_inv).
    destruct (Z.eqb_spec (size_ this) (capacity_ this)) as [Hfull|Hroom].
    + apply bind_inv in Hbody as (a & h2 & [-> ->]%ArrayPtr_new_inv & Hbody).
      apply bind_inv in Hbody as (p1 & h3 & (Hw3 & _)%std_move_inv & Hbody).
      apply bind_inv in Hbody as ([] & h4 & Hcons & Hbody).
      pose proof (store_writes _ _ _ _ _ Hcons) as Hw4.
      apply store_inv in Hcons as (l & b3 & Hb & Hblk3 & Hoff & _).
      apply bind_inv in Hbody as (p2 & h5 & (_ & _ & Hin)%std_move_inv
                                    & Hbody).
      apply adopt_inv in Hbody as [-> ->]. simpl in *.
      injection Hb as <-.
      destruct (grow_block h this _ h3 Hwf Hw3) as (b3' & Hb3 & _ & Hlen3).
      rewrite Hb3 in Hblk3. injection Hblk3 as <-.
      set (c := if capacity_ this =? 0 then 1 else _) in *.
      assert (Hc' : 0 <= c <= SIZE_MAX).
      { unfold c. destruct (capacity_ this =? 0); [|apply to_size_t_range].
        pose proof SIZE_MAX_eq. lia. }
      destruct (Z.eq_dec (off pos) (size_ this)) as [Heq|Hne]; [lia|].
      destruct Hin as (l & b4 & [= <-] & Hblk4 & _ & Hlen4); [lia|].
      rewrite (writes_to_length _ _ _ _ _ _ Hw4 Hb3 Hblk4) in Hlen4. lia.
    + apply bind_inv in Hbody as (p1 & h2 & _ & Hbody).
      apply bind_inv in Hbody as ([] & h3 & _ & [= -> ->]%ret_inv).
      simpl. lia.
  - intros c this' h' Hrun. unfold Reserve in Hrun.
    destruct (Z.gtb_spec c (capacity_ this)).
    + apply bind_inv in Hrun as (a & h2 & _ & Hrun).
      apply bind_inv in Hrun as (p & h3 & _ & Hrun).
      apply adopt_inv in Hrun as [-> ->]. simpl. lia.
    + apply ret_inv in Hrun as [= -> ->]. lia.
  - intros n this' h' Hrun. unfold Resize in Hrun.
    apply bind_inv in Hrun as (this1 & h1 & Hbody & [= -> ->]%ret_inv).
    destruct (Z.gtb_spec n (capacity_ this)).
    + apply bind_inv in Hbody as (a & h2 & _ & Hbody).
      apply bind_inv in Hbody as (p & h3 & _ & Hbody).
      apply bind_inv in Hbody as ([] & h4 & _ & Hbody).
      apply adopt_inv in Hbody as [-> ->]. simpl. lia.
    + apply bind_inv in Hbody as ([] & h2 & _ & [= -> ->]%ret_inv).
      simpl. lia.
  - intros this' h'. unfold PopBack, assert, bind, ret.
    destruct NDEBUG; [by intros [= <- _]|].
    destruct (size_ this >? 0); [|done]. by intros [= <- _].
  - intros pos this' it h' Hrun. unfold Erase in Hrun.
    apply bind_inv in Hrun as (d & h0 & _ & Hrun).
    by apply bind_inv in Hrun as ([] & h1 & _ & [= -> -> ->]%ret_inv).
  - done.
Qed.

End Composition.

(** * The further properties on concrete containers *)

Lemma filled_constructors_witness :
  0 <= 3 <= SIZE_MAX
  /\ exists this h',
       SimpleVector_filled 3 7 ([] : heap Z) = Ok (this, h')
       /\ elements h' this = Some [7; 7; 7]
       /\ capacity_ this = 3.
Proof.
  assert (H1 : 0 <= 3 <= SIZE_MAX) by (pose proof SIZE_MAX_eq; lia).
  split; [done|].
  destruct (filled_constructors 0 ([] : heap Z) 3 7 H1)
    as [(this & h' & Hrun & He & _ & Hc & _) _].
  by exists this, h'.
Defined.

Lemma initializer_list_constructor_witness :
  Z.of_nat (length [1; 2; 3]) <= SIZE_MAX
  /\ exists this h',
       SimpleVector_init [1; 2; 3] ([] : heap Z) = Ok (this, h')
       /\ elements h' this = Some [1; 2; 3]
       /\ capacity_ this = 3.
Proof.
  assert (H1 : Z.of_nat (length [1; 2; 3]) <= SIZE_MAX)
    by (pose proof SIZE_MAX_eq; simpl; lia).
  split; [done|].
  destruct (initializer_list_constructor ([] : heap Z) [1; 2; 3] H1)
    as (this & h' & Hrun & He & _ & Hc & _).
  by exists this, h'.
Defined.

Lemma reserve_constructor_then_PushBack_witness :
  0 <= 4 <= SIZE_MAX
  /\ Z.of_nat (length [1; 2]) <= 4
  /\ exists this h1 this' h2,
       SimpleVector_reserved (Reserve_proxy 4) ([] : heap Z) = Ok (this, h1)
       /\ PushBack_all this [1; 2] h1 = Ok (this', h2)
       /\ elements h2 this' = Some [1; 2]
       /\ capacity_ this' = 4
       /\ array_ this' = array_ this.
Proof.
  assert (H1 : 0 <= 4 <= SIZE_MAX) by (pose proof SIZE_MAX_eq; lia).
  assert (H2 : Z.of_nat (length [1; 2]) <= 4) by (simpl; lia).
  split_and!; try done.
  destruct (reserve_constructor_then_PushBack ([] : heap Z) 4 [1; 2] H1 H2)
    as (this & h1 & Hrun & _ & _ & _ & this' & h2 & Hpush & He & _ & Hc & Ha & _).
  by exists this, h1, this', h2.
Defined.

Lemma PopBack_removes_last_witness :
  let h : heap Z := [Some [Some 1; Some 2; Some 3; None]] in
  let v := {| array_ := Ptr (Some 0%nat) 0; size_ := 3; capacity_ := 4 |} in
  elements h v = Some ([1; 2] ++ [3])
  /\ exists this',
       PopBack true v h = Ok (this', h)
       /\ elements h this' = Some [1; 2]
       /\ load (end_ this') h = Ok (Some 3, h).
Proof.
  intros h v.
  assert (H1 : elements h v = Some ([1; 2] ++ [3])) by reflexivity.
  split; [done|].
  destruct (PopBack_removes_last true h v [1; 2] 3 H1)
    as (this' & Hrun & He & _ & _ & _ & Hload).
  by exists this'.
Defined.

Lemma PushBack_then_PopBack_witness :
  let h : heap Z := [Some [Some 1; Some 2; Some 3]] in
  let v := {| array_ := Ptr (Some 0%nat) 0; size_ := 3; capacity_ := 3 |} in
  elements h v = Some [1; 2; 3]
  /\ (size_ v = capacity_ v -> 2 * capacity_ v <= SIZE_MAX)
  /\ exists v1 h1 v2,
       PushBack v 9 h = Ok (v1, h1)
       /\ PopBack false v1 h1 = Ok (v2, h1)
       /\ elements h1 v2 = Some [1; 2; 3]
       /\ capacity_ v2 = 6.
Proof.
  intros h v.
  assert (H1 : elements h v = Some [1; 2; 3]) by reflexivity.
  assert (H2 : size_ v = capacity_ v -> 2 * capacity_ v <= SIZE_MAX)
    by (pose proof SIZE_MAX_eq; simpl; lia).
  split_and!; try done.
  destruct (PushBack_then_PopBack false h v [1; 2; 3] 9 H1 H2)
    as (v1 & h1 & v2 & Hpush & Hpop & He & _ & Hc).
  by exists v1, h1, v2.
Defined.

Lemma Clear_keeps_storage_witness :
  let h : heap Z := [Some [Some 1; Some 2; Some 3; None]] in
  let v := {| array_ := Ptr (Some 0%nat) 0; size_ := 3; capacity_ := 4 |} in
  elements h v = Some [1; 2; 3]
  /\ Z.of_nat (length [8; 9]) <= capacity_ v
  /\ elements h (Clear v) = Some []
  /\ exists this' h',
       PushBack_all (Clear v) [8; 9] h = Ok (this', h')
       /\ elements h' this' = Some [8; 9]
       /\ capacity_ this' = 4.
Proof.
  intros h v.
  assert (H1 : elements h v = Some [1; 2; 3]) by reflexivity.
  assert (H2 : Z.of_nat (length [8; 9]) <= capacity_ v) by (simpl; lia).
  split_and!; try done.
  destruct (Clear_keeps_storage h v [1; 2; 3] [8; 9] H1 H2)
    as (_ & _ & _ & _ & this' & h' & Hrun & He & Hc & _).
  by exists this', h'.
Defined.

Lemma element_access_witness :
  let h : heap Z := [Some [Some 1; Some 2; Some 3; None]] in
  let v := {| array_ := Ptr (Some 0%nat) 0; size_ := 3; capacity_ := 4 |} in
  elements h v = Some [1; 2; 3]
  /\ [1; 2; 3] !! 1%nat = Some 2
  /\ operator_index true v 1 h = Ok (begin v +p 1, h)
  /\ At v 1 h = Ok (begin v +p 1, h)
  /\ load (begin v +p 1) h = Ok (Some 2, h).
Proof.
  intros h v.
  assert (H1 : elements h v = Some [1; 2; 3]) by reflexivity.
  assert (H2 : [1; 2; 3] !! 1%nat = Some 2) by reflexivity.
  destruct (element_access true h v [1; 2; 3] 1 2 H1 H2) as (Hi & Ha & Hl).
  by split_and!.
Defined.

Lemma element_update_witness :
  let h : heap Z := [Some [Some 1; Some 2; Some 3; None]] in
  let v := {| array_ := Ptr (Some 0%nat) 0; size_ := 3; capacity_ := 4 |} in
  elements h v = Some [1; 2; 3]
  /\ (1 < length [1; 2; 3])%nat
  /\ exists h',
       (p <- operator_index false v 1; store p (Some 9)) h = Ok (tt, h')
       /\ elements h' v = Some [1; 9; 3].
Proof.
  intros h v.
  assert (H1 : elements h v = Some [1; 2; 3]) by reflexivity.
  assert (H2 : (1 < length [1; 2; 3])%nat) by (simpl; lia).
  split_and!; try done.
  destruct (element_update false h v [1; 2; 3] 1 9 H1 H2) as (h' & Hrun & He & _).
  by exists h'.
Defined.

Lemma operator_index_unchecked_witness :
  let h : heap Z := [Some [Some 1; Some 2; Some 3; None]] in
  let v := {| array_ := Ptr (Some 0%nat) 0; size_ := 3; capacity_ := 4 |} in
  elements h v = Some [1; 2; 3]
  /\ 0 <= 3
  /\ operator_index true v 3 h = Ok (begin v +p 3, h)
  /\ operator_index false v 3 h = AssertionFailed
  /\ At v 3 h = Thrown (out_of_range "Index out of range").
Proof.
  intros h v.
  assert (H1 : elements h v = Some [1; 2; 3]) by reflexivity.
  assert (H2 : 0 <= 3) by lia.
  destruct (operator_index_unchecked h v [1; 2; 3] 3 H1 H2)
    as (Hin & _ & Hout).
  destruct Hout as [Hassert Hthrow]; [simpl; lia|].
  split_and!; [exact H1|exact H2|apply Hin; simpl; lia|exact Hassert
              |exact Hthrow].
Defined.

Lemma iterator_range_witness :
  let h : heap Z := [Some [Some 1; Some 2; Some 3; None]] in
  let v := {| array_ := Ptr (Some 0%nat) 0; size_ := 3; capacity_ := 4 |} in
  elements h v = Some [1; 2; 3]
  /\ distance (begin v) (end_ v) h = Ok (3%nat, h)
  /\ distance (cbegin v) (cend v) h = Ok (3%nat, h).
Proof.
  intros h v.
  assert (H1 : elements h v = Some [1; 2; 3]) by reflexivity.
  destruct (iterator_range h v [1; 2; 3] H1) as (Hd & Hc & _).
  by split_and!.
Defined.

Lemma Resize_elements_witness :
  let h : heap Z := [Some [Some 1; Some 2; Some 3; None]] in
  let v := {| array_ := Ptr (Some 0%nat) 0; size_ := 3; capacity_ := 4 |} in
  elements h v = Some [1; 2; 3]
  /\ 0 <= 6 <= SIZE_MAX
  /\ exists this' h',
       Resize 0 v 6 h = Ok (this', h')
       /\ elements h' this' = Some [1; 2; 3; 0; 0; 0]
       /\ capacity_ this' = 6.
Proof.
  intros h v.
  assert (H1 : elements h v = Some [1; 2; 3]) by reflexivity.
  assert (H2 : 0 <= 6 <= SIZE_MAX) by (pose proof SIZE_MAX_eq; lia).
  split_and!; try done.
  destruct (Resize_elements 0 h v [1; 2; 3] 6 H1 H2)
    as (this' & h' & Hrun & He & _ & Hc & _).
  by exists this', h'.
Defined.

Lemma Insert_then_Erase_witness :
  let h : heap Z := [Some [Some 1; Some 2; Some 3; None]] in
  let v := {| array_ := Ptr (Some 0%nat) 0; size_ := 3; capacity_ := 4 |} in
  elements h v = Some [1; 2; 3]
  /\ (1 <= length [1; 2; 3])%nat
  /\ (size_ v = capacity_ v -> 2 * capacity_ v <= SIZE_MAX)
  /\ exists v1 it h1 v2 h2,
       Insert v (begin v +p 1) 9 h = Ok ((v1, it), h1)
       /\ Erase v1 it h1 = Ok ((v2, it), h2)
       /\ elements h2 v2 = Some [1; 2; 3].
Proof.
  intros h v.
  assert (H1 : elements h v = Some [1; 2; 3]) by reflexivity.
  assert (H2 : (1 <= length [1; 2; 3])%nat) by (simpl; lia).
  assert (H3 : size_ v = capacity_ v -> 2 * capacity_ v <= SIZE_MAX)
    by (simpl; lia).
  split_and!; try done.
  destruct (Insert_then_Erase h v [1; 2; 3] 1 9 H1 H2 H3)
    as (v1 & it & h1 & v2 & h2 & Hins & Hers & He & _).
  by exists v1, it, h1, v2, h2.
Defined.

Lemma Erase_past_end_witness :
  let h : heap Z := [Some [Some 1; Some 2; Some 3; None; None]] in
  let v := {| array_ := Ptr (Some 0%nat) 0; size_ := 3; capacity_ := 5 |} in
  elements h v = Some ([1; 2] ++ [3])
  /\ size_ v <= 4 <= capacity_ v
  /\ Erase v (begin v +p 4) h = Ok ((set_size v 2, begin v +p 4), h)
  /\ elements h (set_size v 2) = Some [1; 2].
Proof.
  intros h v.
  assert (H1 : elements h v = Some ([1; 2] ++ [3])) by reflexivity.
  assert (H2 : size_ v <= 4 <= capacity_ v) by (simpl; lia).
  destruct (Erase_past_end h v [1; 2] 3 4 H1 H2) as [Hrun He].
  by split_and!.
Defined.

Lemma Erase_last_is_PopBack_witness :
  let h : heap Z := [Some [Some 1; Some 2; Some 3; None]] in
  let v := {| array_ := Ptr (Some 0%nat) 0; size_ := 3; capacity_ := 4 |} in
  elements h v = Some ([1; 2] ++ [3])
  /\ exists this',
       Erase v (end_ v +p -1) h = Ok ((this', end_ this'), h)
       /\ PopBack false v h = Ok (this', h)
       /\ elements h this' = Some [1; 2].
Proof.
  intros h v.
  assert (H1 : elements h v = Some ([1; 2] ++ [3])) by reflexivity.
  split; [done|].
  destruct (Erase_last_is_PopBack false h v [1; 2] 3 H1)
    as (this' & Hers & Hpop & He & _).
  by exists this'.
Defined.

Lemma position_outside_is_undefined_witness :
  let h : heap Z := [Some [Some 1; Some 2; Some 3; None]; Some [Some 5]] in
  let v := {| array_ := Ptr (Some 0%nat) 0; size_ := 3; capacity_ := 4 |} in
  elements h v = Some [1; 2; 3]
  /\ Insert v (Ptr (Some 1%nat) 0) 9 h = Undefined
  /\ Erase v (Ptr (Some 1%nat) 0) h = Undefined
  /\ Insert v (begin v +p 4) 9 h = Undefined.
Proof.
  intros h v.
  assert (H1 : elements h v = Some [1; 2; 3]) by reflexivity.
  destruct (position_outside_is_undefined h v [1; 2; 3] 9 H1) as [Hfar Hout].
  destruct (Hfar (Ptr (Some 1%nat) 0)) as [Hins Hers]; [done|].
  split_and!; [exact H1|exact Hins|exact Hers|apply Hout; simpl; lia].
Defined.

Lemma reallocation_invalidates_positions_witness :
  let h : heap Z := [Some [Some 1; Some 2; Some 3]] in
  let v := {| array_ := Ptr (Some 0%nat) 0; size_ := 3; capacity_ := 3 |} in
  elements h v = Some [1; 2; 3]
  /\ (size_ v = capacity_ v -> 2 * capacity_ v <= SIZE_MAX)
  /\ capacity_ v < 8 <= SIZE_MAX
  /\ (exists this' h',
        PushBack v 9 h = Ok (this', h')
        /\ load (begin v +p 1) h' = Undefined)
  /\ (exists this' h',
        Reserve v 8 h = Ok (this', h')
        /\ load (begin v +p 1) h' = Undefined).
Proof.
  intros h v.
  assert (H1 : elements h v = Some [1; 2; 3]) by reflexivity.
  assert (H2 : size_ v = capacity_ v -> 2 * capacity_ v <= SIZE_MAX)
    by (pose proof SIZE_MAX_eq; simpl; lia).
  assert (H3 : capacity_ v < 8 <= SIZE_MAX)
    by (pose proof SIZE_MAX_eq; simpl; lia).
  split_and!; try done.
  - destruct (reallocation_invalidates_positions h v [1; 2; 3] 9 8 H1 H2 H3)
      as [(this' & h' & Hrun & _ & Hfull) _].
    exists this', h'. split; [done|].
    destruct Hfull as [_ Hgone]; [done|]. by apply (Hgone 1 0%nat).
  - destruct (reallocation_invalidates_positions h v [1; 2; 3] 9 8 H1 H2 H3)
      as [_ (this' & h' & Hrun & _ & _ & Hgone)].
    exists this', h'. split; [done|]. by apply (Hgone 1 0%nat).
Defined.

Lemma operator_eq_compares_elements_witness :
  let h : heap Z := [Some [Some 1; Some 2; None]; Some [Some 1; Some 2]] in
  let a := {| array_ := Ptr (Some 0%nat) 0; size_ := 2; capacity_ := 3 |} in
  let b := {| array_ := Ptr (Some 1%nat) 0; size_ := 2; capacity_ := 2 |} in
  elements h a = Some [1; 2]
  /\ elements h b = Some [1; 2]
  /\ operator_eq Z.eqb a b h = Ok (true, h)
  /\ operator_ne Z.eqb a b h = Ok (false, h).
Proof.
  intros h a b.
  assert (H1 : elements h a = Some [1; 2]) by reflexivity.
  assert (H2 : elements h b = Some [1; 2]) by reflexivity.
  destruct (operator_eq_compares_elements Z.eqb h a b [1; 2] [1; 2] H1 H2)
    as (r & Heq & Hne & _ & _ & Hdec).
  assert (r = true) as -> by (apply Hdec; [apply Z.eqb_eq|done]).
  by split_and!.
Defined.

Lemma operator_lt_is_lexicographic_witness :
  let h : heap Z := [Some [Some 1; Some 2; None]; Some [Some 1; Some 3]] in
  let a := {| array_ := Ptr (Some 0%nat) 0; size_ := 2; capacity_ := 3 |} in
  let b := {| array_ := Ptr (Some 1%nat) 0; size_ := 2; capacity_ := 2 |} in
  elements h a = Some [1; 2]
  /\ elements h b = Some [1; 3]
  /\ operator_lt Z.ltb a b h = Ok (true, h)
  /\ operator_ge Z.ltb a b h = Ok (false, h)
  /\ lexicographic Z.ltb [1; 2] [1; 3].
Proof.
  intros h a b.
  assert (H1 : elements h a = Some [1; 2]) by reflexivity.
  assert (H2 : elements h b = Some [1; 3]) by reflexivity.
  destruct (operator_lt_is_lexicographic Z.ltb h a b [1; 2] [1; 3] H1 H2)
    as (r & Hlt & Hiff & _ & Hge & _).
  assert (Hlex : lexicographic Z.ltb [1; 2] [1; 3])
    by (apply lexicographic_tail; [done..|by apply lexicographic_head]).
  assert (r = true) as -> by (by apply Hiff).
  by split_and!.
Defined.

Lemma comparison_trichotomy_witness :
  let h : heap Z := [Some [Some 1; Some 2; None]; Some [Some 1; Some 3]] in
  let a := {| array_ := Ptr (Some 0%nat) 0; size_ := 2; capacity_ := 3 |} in
  let b := {| array_ := Ptr (Some 1%nat) 0; size_ := 2; capacity_ := 2 |} in
  (forall x y, Z.eqb x y = true <-> x = y)
  /\ (forall x y, Z.ltb x y = true -> Z.ltb y x = false)
  /\ (forall x y, Z.ltb x y = false -> Z.ltb y x = false -> x = y)
  /\ elements h a = Some [1; 2]
  /\ elements h b = Some [1; 3]
  /\ operator_lt Z.ltb a b h = Ok (true, h)
  /\ operator_eq Z.eqb a b h = Ok (false, h)
  /\ operator_gt Z.ltb a b h = Ok (false, h)
  /\ operator_le Z.ltb a b h = Ok (true, h)
  /\ operator_ge Z.ltb a b h = Ok (false, h).
Proof.
  intros h a b.
  assert (H1 : forall x y, Z.eqb x y = true <-> x = y) by apply Z.eqb_eq.
  assert (H2 : forall x y, Z.ltb x y = true -> Z.ltb y x = false)
    by (intros x y Hxy%Z.ltb_lt; apply Z.ltb_ge; lia).
  assert (H3 : forall x y, Z.ltb x y = false -> Z.ltb y x = false -> x = y)
    by (intros x y Hxy%Z.ltb_ge Hyx%Z.ltb_ge; lia).
  assert (H4 : elements h a = Some [1; 2]) by reflexivity.
  assert (H5 : elements h b = Some [1; 3]) by reflexivity.
  destruct (comparison_trichotomy Z.eqb Z.ltb h a b [1; 2] [1; 3]
              H1 H2 H3 H4 H5)
    as (less & same & greater & Hlt & Heq & Hgt & _ & Hle & Hge).
  assert (Hless : less = true) by (by injection Hlt).
  assert (Hsame : same = false) by (by injection Heq).
  assert (Hgreater : greater = false) by (by injection Hgt).
  rewrite Hless, Hsame, Hgreater in *.
  by split_and!.
Defined.

Lemma copy_assignment_witness :
  let h : heap Z := [Some [Some 7]; Some [Some 1; Some 2; None]] in
  let d := {| array_ := Ptr (Some 0%nat) 0; size_ := 1; capacity_ := 1 |} in
  let v := {| array_ := Ptr (Some 1%nat) 0; size_ := 2; capacity_ := 3 |} in
  [d; v] !! 0%nat = Some d
  /\ [d; v] !! 1%nat = Some v
  /\ 0%nat <> 1%nat
  /\ wf h d = true
  /\ elements h v = Some [1; 2]
  /\ (forall l, base (array_ v) = Some l -> base (array_ d) <> Some l)
  /\ exists d' h',
       copy_assign [d; v] 0 1 h = Ok ([d'; v], h')
       /\ elements h' d' = Some [1; 2]
       /\ capacity_ d' = 2
       /\ elements h' v = Some [1; 2]
       /\ block_at h' 0 = None.
Proof.
  intros h d v.
  assert (H1 : [d; v] !! 0%nat = Some d) by reflexivity.
  assert (H2 : [d; v] !! 1%nat = Some v) by reflexivity.
  assert (H3 : 0%nat <> 1%nat) by lia.
  assert (H4 : wf h d = true) by reflexivity.
  assert (H5 : elements h v = Some [1; 2]) by reflexivity.
  assert (H6 : forall l, base (array_ v) = Some l -> base (array_ d) <> Some l)
    by (simpl; congruence).
  split_and!; try done.
  destruct (copy_assignment h [d; v] 0 1 d v [1; 2] H1 H2 H3 H4 H5 H6)
    as [(d' & h' & Hrun & He & _ & Hc & _ & Hv & Hgone) _].
  exists d', h'. split_and!; try done. by apply Hgone.
Defined.

Lemma swap_exchanges_witness :
  let h : heap Z := [Some [Some 7]; Some [Some 1; Some 2; None]] in
  let d := {| array_ := Ptr (Some 0%nat) 0; size_ := 1; capacity_ := 1 |} in
  let v := {| array_ := Ptr (Some 1%nat) 0; size_ := 2; capacity_ := 3 |} in
  [d; v] !! 0%nat = Some d
  /\ [d; v] !! 1%nat = Some v
  /\ elements h d = Some [7]
  /\ elements h v = Some [1; 2]
  /\ exists d' v',
       step 0 false (Call_swap 0 1) [d; v] h = Ok ([d'; v'], h)
       /\ elements h d' = Some [1; 2]
       /\ elements h v' = Some [7]
       /\ capacity_ d' = 3.
Proof.
  intros h d v.
  assert (H1 : [d; v] !! 0%nat = Some d) by reflexivity.
  assert (H2 : [d; v] !! 1%nat = Some v) by reflexivity.
  assert (H3 : elements h d = Some [7]) by reflexivity.
  assert (H4 : elements h v = Some [1; 2]) by reflexivity.
  split_and!; try done.
  destruct (swap_exchanges 0 false h [d; v] 0 1 d v [7] [1; 2] H1 H2 H3 H4)
    as (d' & v' & _ & Hrun & Hd & Hv & _ & Hc & _).
  by exists d', v'.
Defined.

Lemma calls_leave_other_objects_alone_witness :
  let cs : list (call Z) :=
    [New_init [1; 2]; New_init [5]; Call_PushBack 0 3] in
  let a := {| array_ := Ptr (Some 2%nat) 0; size_ := 3; capacity_ := 4 |} in
  let a' := {| array_ := Ptr (Some 2%nat) 0; size_ := 4; capacity_ := 4 |} in
  let b := {| array_ := Ptr (Some 1%nat) 0; size_ := 1; capacity_ := 1 |} in
  let h : heap Z := [None; Some [Some 5]; Some [Some 1; Some 2; Some 3; None]] in
  let h' : heap Z :=
    [None; Some [Some 5]; Some [Some 1; Some 2; Some 3; Some 9]] in
  run 0 false cs [] [] = Ok ([a; b], h)
  /\ step 0 true (Call_PushBack 0 9) [a; b] h = Ok ([a'; b], h')
  /\ [a; b] !! 1%nat = Some b
  /\ (1%nat ∉ modifies (Call_PushBack 0%nat 9))
  /\ [a'; b] !! 1%nat = Some b
  /\ elements h' b = elements h b.
Proof.
  intros cs a a' b h h'.
  assert (H1 : run 0 false cs [] [] = Ok ([a; b], h)) by reflexivity.
  assert (H2 : step 0 true (Call_PushBack 0 9) [a; b] h = Ok ([a'; b], h'))
    by reflexivity.
  assert (H3 : [a; b] !! 1%nat = Some b) by reflexivity.
  assert (H4 : 1%nat ∉ modifies (Call_PushBack 0%nat 9)).
  { simpl. apply not_elem_of_cons. split; [lia|apply not_elem_of_nil]. }
  destruct (calls_leave_other_objects_alone 0 true cs [] [a; b] h
              (Call_PushBack 0 9) [a'; b] h' 1 b H1 H2 H3 H4)
    as (Hobj & _ & He).
  by split_and!.
Defined.

Lemma no_block_is_leaked_witness :
  let cs : list (call Z) :=
    [New_init [1; 2]; New_init [5]; Call_PushBack 0 3] in
  let a := {| array_ := Ptr (Some 2%nat) 0; size_ := 3; capacity_ := 4 |} in
  let b := {| array_ := Ptr (Some 1%nat) 0; size_ := 1; capacity_ := 1 |} in
  let h : heap Z := [None; Some [Some 5]; Some [Some 1; Some 2; Some 3; None]] in
  run 0 false cs [] [] = Ok ([a; b], h)
  /\ forall l,
       is_Some (block_at h l) ->
       exists i v, [a; b] !! i = Some v /\ base (array_ v) = Some l.
Proof.
  intros cs a b h.
  assert (H1 : run 0 false cs [] [] = Ok ([a; b], h)) by reflexivity.
  split; [done|]. intros l Hl.
  apply (no_block_is_leaked 0 false cs [] [a; b] h H1 l); [simpl; lia|done].
Defined.

Lemma scope_exit_releases_every_block_witness :
  let cs : list (call Z) :=
    [New_init [1; 2]; New_init [5]; Call_PushBack 0 3] in
  let a := {| array_ := Ptr (Some 2%nat) 0; size_ := 3; capacity_ := 4 |} in
  let b := {| array_ := Ptr (Some 1%nat) 0; size_ := 1; capacity_ := 1 |} in
  let h : heap Z := [None; Some [Some 5]; Some [Some 1; Some 2; Some 3; None]] in
  run 0 false cs [] [] = Ok ([a; b], h)
  /\ destroy_all [a; b] h = Ok (tt, [None; None; None]).
Proof.
  intros cs a b h.
  assert (H1 : run 0 false cs [] [] = Ok ([a; b], h)) by reflexivity.
  split; [done|].
  destruct (scope_exit_releases_every_block 0 cs [] [a; b] h H1)
    as (h' & Hrun & _).
  reflexivity.
Defined.

Lemma PushBack_doubles_capacity_witness :
  [1; 2; 3; 4; 5] <> []
  /\ 2 * Z.of_nat (length [1; 2; 3; 4; 5]) <= SIZE_MAX
  /\ exists this h,
       PushBack_all SimpleVector_default [1; 2; 3; 4; 5] [] = Ok (this, h)
       /\ elements h this = Some [1; 2; 3; 4; 5]
       /\ capacity_ this = 8
       /\ Z.of_nat (length h) = 4.
Proof.
  assert (H1 : [1; 2; 3; 4; 5] <> ([] : list Z)) by done.
  assert (H2 : 2 * Z.of_nat (length [1; 2; 3; 4; 5]) <= SIZE_MAX)
    by (pose proof SIZE_MAX_eq; simpl; lia).
  split_and!; try done.
  destruct (PushBack_doubles_capacity [] [1; 2; 3; 4; 5] H1 H2)
    as (this & h & Hrun & He & _ & Hc & _ & Hal).
  exists this, h. split_and!; [exact Hrun|exact He|exact Hc|exact Hal].
Defined.

Lemma Reserve_then_PushBack_witness :
  let h : heap Z := [Some [Some 1; Some 2; Some 3; None]] in
  let v := {| array_ := Ptr (Some 0%nat) 0; size_ := 3; capacity_ := 4 |} in
  elements h v = Some [1; 2; 3]
  /\ 8 <= SIZE_MAX
  /\ Z.of_nat (length [1; 2; 3] + length [4; 5]) <= Z.max (capacity_ v) 8
  /\ exists v1 h1 v2 h2,
       Reserve v 8 h = Ok (v1, h1)
       /\ PushBack_all v1 [4; 5] h1 = Ok (v2, h2)
       /\ elements h2 v2 = Some [1; 2; 3; 4; 5]
       /\ capacity_ v2 = 8
       /\ array_ v2 = array_ v1.
Proof.
  intros h v.
  assert (H1 : elements h v = Some [1; 2; 3]) by reflexivity.
  assert (H2 : 8 <= SIZE_MAX) by (pose proof SIZE_MAX_eq; lia).
  assert (H3 : Z.of_nat (length [1; 2; 3] + length [4; 5])
               <= Z.max (capacity_ v) 8) by (simpl; lia).
  split_and!; try done.
  destruct (Reserve_then_PushBack h v [1; 2; 3] 8 [4; 5] H1 H2 H3)
    as (v1 & h1 & v2 & h2 & Hres & Hpush & He & Hc & Ha & _).
  by exists v1, h1, v2, h2.
Defined.

Lemma Insert_lvalue_outside_witness :
  let h : heap Z := [Some [Some 1; Some 2; Some 3; None]; Some [Some 9]] in
  let v := {| array_ := Ptr (Some 0%nat) 0; size_ := 3; capacity_ := 4 |} in
  let value := Ptr (Some 1%nat) 0 in
  read value h = Ok (9, h)
  /\ base value <> base (array_ v)
  /\ Insert_lvalue v (begin v +p 1) value h = Insert v (begin v +p 1) 9 h.
Proof.
  intros h v value.
  assert (H1 : read value h = Ok (9, h)) by reflexivity.
  assert (H2 : base value <> base (array_ v)) by (simpl; congruence).
  split_and!; [exact H1|exact H2|].
  exact (Insert_lvalue_outside h v (begin v +p 1) value 9 H1 H2).
Defined.

Lemma Insert_lvalue_of_own_element_witness :
  let h : heap Z := [Some [Some 1; Some 2; Some 3; None]] in
  let v := {| array_ := Ptr (Some 0%nat) 0; size_ := 3; capacity_ := 4 |} in
  elements h v = Some [1; 2; 3]
  /\ size_ v < capacity_ v
  /\ (0 < 2 < length [1; 2; 3])%nat
  /\ [1; 2; 3] !! (2 - 1)%nat = Some 2
  /\ exists this' h',
       Insert_lvalue v (begin v +p 0) (begin v +p 2) h
       = Ok ((this', begin this' +p 0), h')
       /\ elements h' this' = Some [2; 1; 2; 3].
Proof.
  intros h v.
  assert (H1 : elements h v = Some [1; 2; 3]) by reflexivity.
  assert (H2 : size_ v < capacity_ v) by (simpl; lia).
  assert (H3 : (0 < 2 < length [1; 2; 3])%nat) by (simpl; lia).
  assert (H4 : [1; 2; 3] !! (2 - 1)%nat = Some 2) by reflexivity.
  do 4 (split; [done|]).
  destruct (Insert_lvalue_of_own_element h v [1; 2; 3] 0 2 2 H1 H2 H3 H4)
    as (_ & this' & h' & Hrun & He & _).
  by exists this', h'.
Defined.

Lemma copy_compares_equal_witness :
  let h : heap Z := [Some [Some 1; Some 2; Some 3; None]] in
  let v := {| array_ := Ptr (Some 0%nat) 0; size_ := 3; capacity_ := 4 |} in
  (forall y, Z.eqb y y = true)
  /\ elements h v = Some [1; 2; 3]
  /\ 2 * size_ v <= SIZE_MAX
  /\ exists this h1 this' h2,
       SimpleVector_copy v h = Ok (this, h1)
       /\ operator_eq Z.eqb this v h1 = Ok (true, h1)
       /\ PushBack this 3 h1 = Ok (this', h2)
       /\ operator_eq Z.eqb this' v h2 = Ok (false, h2).
Proof.
  intros h v.
  assert (H1 : forall y, Z.eqb y y = true) by apply Z.eqb_refl.
  assert (H2 : elements h v = Some [1; 2; 3]) by reflexivity.
  assert (H3 : 2 * size_ v <= SIZE_MAX)
    by (pose proof SIZE_MAX_eq; simpl; lia).
  split_and!; try done.
  destruct (copy_compares_equal Z.eqb h v [1; 2; 3] 3 H1 H2 H3)
    as (this & h1 & this' & h2 & Hcopy & Heq & _ & _ & Hpush & Hne & _).
  by exists this, h1, this', h2.
Defined.

Lemma capacity_never_shrinks_witness :
  let h : heap Z := [Some [Some 1; Some 2; Some 3]] in
  let v := {| array_ := Ptr (Some 0%nat) 0; size_ := 3; capacity_ := 3 |} in
  let v' := {| array_ := Ptr (Some 1%nat) 0; size_ := 4; capacity_ := 6 |} in
  let h' : heap Z :=
    [None; Some [Some 1; Some 2; Some 3; Some 9; None; None]] in
  wf h v = true
  /\ PushBack v 9 h = Ok (v', h')
  /\ capacity_ v <= capacity_ v'.
Proof.
  intros h v v' h'.
  assert (H1 : wf h v = true) by reflexivity.
  assert (H2 : PushBack v 9 h = Ok (v', h')) by reflexivity.
  destruct (capacity_never_shrinks 0 false h v H1) as (Hpush & _).
  split_and!; [exact H1|exact H2|exact (Hpush 9 v' h' H2)].
Defined.
